(** * SysAdminRAG: the chunker and the multi-shard retrieval pipeline

    A shallow embedding of [src/RAG/chunking.py] (class [SmartChunker]) and of
    [src/RAG/rag_system.py] (class [SysAdminRAG]) together with the properties
    the specification states about them.

    Conventions.
    - A Python [str] is a [string]: a sequence of code points, each below 256.
      [len] is [String.length].
    - A Python [int] that the code computes with ([chunk_size], sizes, [k]) is
      a [Z]; a position produced by [enumerate] or [len] is a [nat].
    - A [float] score is the rational number it denotes (a finite float; the
      ordering of finite floats is the ordering of their values). *)

From Stdlib Require Import ZArith QArith List String Ascii Bool Lia Arith.
From Stdlib Require Import DecimalString Sorted Permutation.
Import ListNotations.

Local Open Scope string_scope.
Local Open Scope list_scope.
Local Open Scope Z_scope.

(** ** Python built-ins used by the sources *)

Module Py.

(** [str.isspace] on one code point below 256: TAB..CR, FS..US, space, NEL
    and the no-break space.  The same class is [\s] of [re] and what
    [str.strip] and [str.split] remove. *)
Definition isspace (c : ascii) : bool :=
  let n := N_of_ascii c in
  (((9 <=? n) && (n <=? 13)) || ((28 <=? n) && (n <=? 32))
   || (n =? 133) || (n =? 160))%N.

Definition is_newline (c : ascii) : bool := (N_of_ascii c =? 10)%N.

(** [[A-Z]] *)
Definition is_upper (c : ascii) : bool :=
  let n := N_of_ascii c in ((65 <=? n) && (n <=? 90))%N.

(** [[.!?]] *)
Definition is_terminator (c : ascii) : bool :=
  let n := N_of_ascii c in ((n =? 46) || (n =? 33) || (n =? 63))%N.

(** The truth value of a string and of a list. *)
Definition truthy (s : string) : bool :=
  match s with EmptyString => false | _ => true end.

Definition nonempty {A} (l : list A) : bool :=
  match l with [] => false | _ => true end.

Fixpoint lstrip (s : string) : string :=
  match s with
  | EmptyString => EmptyString
  | String c s' => if isspace c then lstrip s' else s
  end.

Fixpoint rstrip (s : string) : string :=
  match s with
  | EmptyString => EmptyString
  | String c s' =>
      let r := rstrip s' in
      if isspace c && negb (truthy r) then EmptyString else String c r
  end.

(** [s.strip()] *)
Definition strip (s : string) : string := rstrip (lstrip s).

(** Put a character in front of the first piece of a list of pieces. *)
Definition push (c : ascii) (ps : list string) : list string :=
  match ps with
  | [] => [String c EmptyString]
  | p :: ps' => String c p :: ps'
  end.

(** [s.split()]: the maximal runs of characters that are not white space. *)
Fixpoint split (s : string) : list string :=
  match s with
  | EmptyString => []
  | String c s' =>
      if isspace c then split s'
      else match s' with
           | EmptyString => [String c EmptyString]
           | String c' _ =>
               if isspace c' then String c EmptyString :: split s'
               else push c (split s')
           end
  end.

(** [sep.join(parts)] *)
Definition join (sep : string) (parts : list string) : string :=
  String.concat sep parts.

(** [len(s)] *)
Definition len (s : string) : Z := Z.of_nat (String.length s).

(** [str(n)] for a position. *)
Definition str_of_nat (n : nat) : string :=
  NilEmpty.string_of_uint (Nat.to_uint n).

(** [str(n)] for an integer. *)
Definition str_of_Z (n : Z) : string :=
  NilEmpty.string_of_int (Z.to_int n).

(** [enumerate(l)] *)
Definition enumerate {A} (l : list A) : list (nat * A) :=
  combine (seq 0 (List.length l)) l.

(** [l[start:]] for any integer [start]: a negative [start] counts from the
    end, and both ends are clamped. *)
Definition slice_from {A} (start : Z) (l : list A) : list A :=
  let n := Z.of_nat (List.length l) in
  let i := if start <? 0 then Z.max 0 (n + start) else Z.min start n in
  skipn (Z.to_nat i) l.

(** [l[:stop]] for any integer [stop]. *)
Definition slice_to {A} (stop : Z) (l : list A) : list A :=
  let n := Z.of_nat (List.length l) in
  let j := if stop <? 0 then Z.max 0 (n + stop) else Z.min stop n in
  firstn (Z.to_nat j) l.

(** [sum(f(x) for x in l)] *)
Definition sum_map {A} (f : A -> Z) (l : list A) : Z :=
  fold_left (fun acc x => acc + f x) l 0.

(** *** The two regular expressions of the chunker

    [re.split] scans from the left, cuts out every match and returns the
    pieces between the matches; neither pattern matches the empty string. *)

(** [\n\s*\n] tried right after a newline: [\s*] is greedy and backtracks, so
    the match ends after the last newline of the white-space run that
    follows.  The result is the number of characters of [s] in the match. *)
Fixpoint blank_gap (s : string) : option nat :=
  match s with
  | EmptyString => None
  | String c s' =>
      if isspace c then
        match blank_gap s' with
        | Some n => Some (S n)
        | None => if is_newline c then Some 1%nat else None
        end
      else None
  end.

(** [re.split(r'\n\s*\n', s)]; [skip] characters still belong to the match
    in progress. *)
Fixpoint split_blank_lines_from (skip : nat) (s : string) : list string :=
  match s with
  | EmptyString => [EmptyString]
  | String c s' =>
      match skip with
      | S n => split_blank_lines_from n s'
      | O =>
          if is_newline c then
            match blank_gap s' with
            | Some n => EmptyString :: split_blank_lines_from n s'
            | None => push c (split_blank_lines_from 0 s')
            end
          else push c (split_blank_lines_from 0 s')
      end
  end.

Definition split_blank_lines (s : string) : list string :=
  split_blank_lines_from 0 s.

(** [\s+(?=[A-Z])] tried on a white-space run of which the first character
    has been read: the run is taken whole (a shorter one is followed by
    white space, not by a capital), and a capital must follow it.  The
    result is the number of characters of [s] in the match. *)
Fixpoint capital_gap (s : string) : option nat :=
  match s with
  | EmptyString => None
  | String c s' =>
      if isspace c then option_map S (capital_gap s')
      else if is_upper c then Some 0%nat else None
  end.

(** [re.split(r'(?<=[.!?])\s+(?=[A-Z])', s)]; [prev] is the character just
    before the position, which the look-behind reads. *)
Fixpoint split_sentence_ends_from (prev : option ascii) (skip : nat)
         (s : string) : list string :=
  match s with
  | EmptyString => [EmptyString]
  | String c s' =>
      match skip with
      | S n => split_sentence_ends_from (Some c) n s'
      | O =>
          let after_terminator :=
            match prev with Some p => is_terminator p | None => false end in
          if after_terminator && isspace c then
            match capital_gap s' with
            | Some n => EmptyString :: split_sentence_ends_from (Some c) n s'
            | None => push c (split_sentence_ends_from (Some c) 0 s')
            end
          else push c (split_sentence_ends_from (Some c) 0 s')
      end
  end.

Definition split_sentence_ends (s : string) : list string :=
  split_sentence_ends_from None 0 s.

End Py.

(** ** chunking.py *)

Module Chunking.

(** A JSON value of a document's [meta]. *)
Inductive value : Type :=
| VInt (n : Z)
| VStr (s : string).

(** A [dict] with string keys, in insertion order. *)
Definition dict := list (string * value).

(** [d[k] = v]: an existing key keeps its place. *)
Fixpoint dict_set (d : dict) (k : string) (v : value) : dict :=
  match d with
  | [] => [(k, v)]
  | (k', v') :: d' =>
      if String.eqb k' k then (k', v) :: d' else (k', v') :: dict_set d' k v
  end.

(** The document handed to [chunk_document]; the keys read with
    [doc.get(key, default)] may be absent. *)
Record Document : Type := {
  doc_id : string;
  doc_source_url : option string;
  doc_title : option string;
  doc_text : option string;
  doc_meta : option dict
}.

Definition get {A} (o : option A) (default : A) : A :=
  match o with Some a => a | None => default end.

Record Chunk : Type := {
  text : string;
  chunk_id : string;
  source_id : string;
  source_url : string;
  title : string;
  chunk_index : nat;
  metadata : dict
}.

Record SmartChunker : Type := {
  chunk_size : Z;
  chunk_overlap : Z;
  min_chunk_size : Z;
  respect_sentences : bool;
  respect_paragraphs : bool
}.

(** [SmartChunker()] *)
Definition default_chunker : SmartChunker :=
  {| chunk_size := 900; chunk_overlap := 50; min_chunk_size := 150;
     respect_sentences := true; respect_paragraphs := true |}.

Definition stripped_nonempty (parts : list string) : list string :=
  map Py.strip (filter (fun p => Py.truthy (Py.strip p)) parts).

Definition _split_into_paragraphs (text : string) : list string :=
  stripped_nonempty (Py.split_blank_lines text).

Definition _split_into_sentences (text : string) : list string :=
  stripped_nonempty (Py.split_sentence_ends text).

Definition _estimate_tokens (text : string) : Z := Py.len text / 4.

(** The variables of the packing loops of [_split_paragraph]. *)
Record packing : Type := {
  chunks : list string;
  current_chunk : list string;
  current_size : Z
}.

Definition packing_start : packing :=
  {| chunks := []; current_chunk := []; current_size := 0 |}.

(** The body of [for sentence in sentences]. *)
Definition sentence_step (self : SmartChunker) (st : packing)
           (sentence : string) : packing :=
  let sentence_size := _estimate_tokens sentence in
  if (current_size st + sentence_size >? chunk_size self)
     && Py.nonempty (current_chunk st)
  then
    let chunks' := chunks st ++ [Py.join " " (current_chunk st)] in
    if chunk_overlap self >? 0 then
      let overlap_sentences :=
        if (2 <=? List.length (current_chunk st))%nat
        then Py.slice_from (-2) (current_chunk st)
        else current_chunk st in
      let current := overlap_sentences ++ [sentence] in
      {| chunks := chunks'; current_chunk := current;
         current_size := Py.sum_map _estimate_tokens current |}
    else
      {| chunks := chunks'; current_chunk := [sentence];
         current_size := sentence_size |}
  else
    {| chunks := chunks st; current_chunk := current_chunk st ++ [sentence];
       current_size := current_size st + sentence_size |}.

Definition word_tokens (w : string) : Z := _estimate_tokens (w ++ " ")%string.

(** The body of [for word in words]. *)
Definition word_step (self : SmartChunker) (st : packing)
           (word : string) : packing :=
  let word_size := word_tokens word in
  if (current_size st + word_size >? chunk_size self)
     && Py.nonempty (current_chunk st)
  then
    let chunks' := chunks st ++ [Py.join " " (current_chunk st)] in
    if chunk_overlap self >? 0 then
      let overlap_words :=
        if Z.of_nat (List.length (current_chunk st)) >=? chunk_overlap self
        then Py.slice_from (- chunk_overlap self) (current_chunk st)
        else current_chunk st in
      let current := overlap_words ++ [word] in
      {| chunks := chunks'; current_chunk := current;
         current_size := Py.sum_map word_tokens current |}
    else
      {| chunks := chunks'; current_chunk := [word];
         current_size := word_size |}
  else
    {| chunks := chunks st; current_chunk := current_chunk st ++ [word];
       current_size := current_size st + word_size |}.

(** [if current_chunk: chunks.append(' '.join(current_chunk))] *)
Definition flush_rest (st : packing) : list string :=
  if Py.nonempty (current_chunk st)
  then chunks st ++ [Py.join " " (current_chunk st)]
  else chunks st.

Definition _split_paragraph (self : SmartChunker) (paragraph : string)
  : list string :=
  if _estimate_tokens paragraph <=? chunk_size self then [paragraph]
  else if respect_sentences self then
    flush_rest (fold_left (sentence_step self)
                          (_split_into_sentences paragraph) packing_start)
  else
    flush_rest (fold_left (word_step self) (Py.split paragraph)
                          packing_start).

(** The body of the inner loop of the paragraph branch of [chunk_document]:
    [acc] is [chunks]. *)
Definition paragraph_chunk_step (self : SmartChunker) (doc : Document)
           (para_idx total : nat) (acc : list Chunk)
           (item : nat * string) : list Chunk :=
  let (chunk_idx, chunk_text) := item in
  if _estimate_tokens chunk_text <? min_chunk_size self then acc
  else
    acc ++ [{| text := chunk_text;
               chunk_id := (doc_id doc ++ "_chunk_" ++ Py.str_of_nat para_idx
                            ++ "_" ++ Py.str_of_nat chunk_idx)%string;
               source_id := doc_id doc;
               source_url := get (doc_source_url doc) "";
               title := get (doc_title doc) "";
               chunk_index := List.length acc;
               metadata :=
                 dict_set
                   (dict_set
                      (dict_set (get (doc_meta doc) [])
                                "paragraph_index"
                                (VInt (Z.of_nat para_idx)))
                      "chunk_in_paragraph" (VInt (Z.of_nat chunk_idx)))
                   "total_chunks" (VInt (Z.of_nat total)) |}].

(** The body of [for para_idx, paragraph in enumerate(paragraphs)]. *)
Definition paragraph_step (self : SmartChunker) (doc : Document)
           (acc : list Chunk) (item : nat * string) : list Chunk :=
  let (para_idx, paragraph) := item in
  let para_chunks := _split_paragraph self paragraph in
  fold_left (paragraph_chunk_step self doc para_idx (List.length para_chunks))
            (Py.enumerate para_chunks) acc.

(** The body of the loop of the branch without paragraphs. *)
Definition plain_chunk_step (self : SmartChunker) (doc : Document)
           (acc : list Chunk) (item : nat * string) : list Chunk :=
  let (chunk_idx, chunk_text) := item in
  if _estimate_tokens chunk_text <? min_chunk_size self then acc
  else
    acc ++ [{| text := chunk_text;
               chunk_id :=
                 (doc_id doc ++ "_chunk_" ++ Py.str_of_nat chunk_idx)%string;
               source_id := doc_id doc;
               source_url := get (doc_source_url doc) "";
               title := get (doc_title doc) "";
               chunk_index := chunk_idx;
               metadata := get (doc_meta doc) [] |}].

Definition chunk_document (self : SmartChunker) (doc : Document)
  : list Chunk :=
  let text := get (doc_text doc) "" in
  if negb (Py.truthy text) then []
  else if respect_paragraphs self then
    fold_left (paragraph_step self doc)
              (Py.enumerate (_split_into_paragraphs text)) []
  else
    fold_left (plain_chunk_step self doc)
              (Py.enumerate (_split_paragraph self text)) [].

(** [chunk_jsonl] after the file has been read and parsed: the chunks of
    all documents, in order. *)
Definition chunk_documents (self : SmartChunker) (docs : list Document)
  : list Chunk :=
  flat_map (chunk_document self) docs.

End Chunking.

(** ** rag_system.py *)

Module Rag.

Import Chunking.

(** *** Exceptions, results and collaborators *)

Inductive error : Type :=
| NotLoaded              (* RuntimeError raised by [search] *)
| NoIndexFound           (* FileNotFoundError raised by [load_index] *)
| GenerationUnavailable (url : string)
                         (* ConnectionError raised by [_generate_with_ollama] *)
| External (what : string).  (* an exception raised by a library call *)

(** [str(e)] *)
Definition error_text (e : error) : string :=
  match e with
  | NotLoaded => "Index not loaded. Call load_index() or build_index()"
  | NoIndexFound =>
      "No indexes found. Make sure you ran build mode for the required parts (shards)."
  | GenerationUnavailable url => "Cannot connect to Ollama at " ++ url
  | External what => what
  end.

Inductive outcome (A : Type) : Type :=
| Returned (a : A)
| Raised (e : error).
Arguments Returned {A} a.
Arguments Raised {A} e.

(** What a call of a library or of a collaborator does: it returns, or it
    raises an exception of its own, which is none of the three that the
    methods below raise themselves. *)
Inductive external (A : Type) : Type :=
| Fine (a : A)
| Failed (what : string).
Arguments Fine {A} a.
Arguments Failed {A} what.

(** One element of what [model.search] returns: a bare string, or a mapping
    read with [get] at the keys text, content, score and rank. *)
Record raw_record : Type := {
  r_text : option string;
  r_content : option string;
  r_score : option Q;
  r_rank : option Z
}.

Inductive raw_result : Type :=
| RawText (s : string)
| RawRecord (r : raw_record).

(** A [RAGPretrainedModel] obtained from an index. *)
Record Model : Type := {
  model_search : string -> Z -> external (list raw_result)
}.

(** One value of chunks_metadata.json. *)
Record meta_entry : Type := {
  m_chunk_id : option string;
  m_source_id : option string;
  m_source_url : option string;
  m_title : option string;
  m_chunk_index : option nat;
  m_metadata : option dict;
  m_text : option string
}.

(** The empty mapping that [chunks_metadata.get(result_idx, {})] falls back
    to. *)
Definition no_entry : meta_entry :=
  {| m_chunk_id := None; m_source_id := None; m_source_url := None;
     m_title := None; m_chunk_index := None; m_metadata := None;
     m_text := None |}.

Definition chunks_metadata := list (string * meta_entry).

Fixpoint lookup (d : chunks_metadata) (k : string) : option meta_entry :=
  match d with
  | [] => None
  | (k', v) :: d' => if String.eqb k' k then Some v else lookup d' k
  end.

(** A formatted result of [_search_single_index]; what the compressor
    returns has no index_path. *)
Record SearchHit : Type := {
  h_chunk_id : string;
  h_text : string;
  h_score : Q;
  h_title : string;
  h_source_url : string;
  h_metadata : dict;
  h_index_path : option string
}.

(** One element of the sources of an answer. *)
Record Source : Type := {
  src_title : string;
  src_url : string;
  relevance_score : Q
}.

(** What [ask] returns. *)
Record Answer : Type := {
  answer : string;
  sources : list Source;
  search_results : list SearchHit
}.

Record DocumentCompressor : Type := {
  compress_documents : list SearchHit -> string -> external (list SearchHit)
}.

(** What lies outside the process: the file system, the index provider and
    the Ollama server. *)
Record World : Type := {
  path_exists : string -> bool;                (* os.path.exists *)
  abspath : string -> string;                  (* os.path.abspath *)
  relpath_cwd : string -> string;  (* os.path.relpath(p, os.getcwd()) *)
  isdir : string -> bool;                      (* os.path.isdir *)
  listdir : string -> external (list string);  (* os.listdir *)
  from_index : string -> external Model; (* RAGPretrainedModel.from_index *)
  load_json : string -> chunks_metadata;       (* json.load of a file *)
  read_jsonl : string -> external (list Document);
       (* the lines of a file, each through json.loads *)
  build_colbert : string -> list string -> external unit;
       (* from_pretrained, then index(collection, index_name) *)
  write_json : string -> chunks_metadata -> external unit;
       (* os.makedirs, then json.dump *)
  ollama_alive : bool;       (* GET /api/tags answers with status 200 *)
  ollama_generate : string -> string -> external (option string)
       (* POST /api/generate: model, prompt; the answer's response key *)
}.

(** What the process does that can be observed from outside, in order. *)
Inductive event : Type :=
| Printed (line : string)
| ListDir (path : string)
| ReadJsonl (path : string)
| FromIndex (index_path : string)
| ModelSearch (index_path : string) (query : string) (k : Z)
| Compress (query : string)
| OllamaTags
| OllamaGenerate (model : string) (prompt : string)
| BuildColbert (index_name : string)
| WriteJson (path : string).

(** The fields of the object that the methods read; [rag_model], which only
    [build_index] assigns and nothing reads, is left out. *)
Record SysAdminRAG : Type := {
  index_paths : list string;
  index_path : string;
  ollama_url : string;
  ollama_model : string;
  chunker : SmartChunker;
  index_loaded : bool;
  shard_models : list (string * Model);
  use_compression : bool;
  compressor : option DocumentCompressor
}.

Record state : Type := {
  self : SysAdminRAG;
  events : list event
}.

(** *** Statements: state, exceptions and output *)

Definition M (A : Type) : Type := state -> outcome A * state.

Definition ret {A} (a : A) : M A := fun s => (Returned a, s).

Definition bind {A B} (m : M A) (f : A -> M B) : M B :=
  fun s =>
    match m s with
    | (Returned a, s') => f a s'
    | (Raised e, s') => (Raised e, s')
    end.

Definition raise {A} (e : error) : M A := fun s => (Raised e, s).

(** [try: m  except Exception as e: handler(e)] *)
Definition try_except {A} (m : M A) (handler : error -> M A) : M A :=
  fun s =>
    match m s with
    | (Returned a, s') => (Returned a, s')
    | (Raised e, s') => handler e s'
    end.

Definition emit (e : event) : M unit :=
  fun s => (Returned tt, {| self := self s; events := events s ++ [e] |}).

Definition print (line : string) : M unit := emit (Printed line).

(** A call of a collaborator: the call is observed, then it returns or
    raises. *)
Definition call {A} (e : event) (x : external A) : M A :=
  fun s =>
    (match x with Fine a => Returned a | Failed what => Raised (External what) end,
     {| self := self s; events := events s ++ [e] |}).

Definition get_self : M SysAdminRAG := fun s => (Returned (self s), s).

Definition set_self (f : SysAdminRAG -> SysAdminRAG) : M unit :=
  fun s => (Returned tt, {| self := f (self s); events := events s |}).

Declare Scope stmt_scope.
Delimit Scope stmt_scope with stmt.
Notation "x <- m ;; k" := (bind m (fun x => k))
  (at level 61, m at next level, right associativity) : stmt_scope.
Notation "m ;; k" := (bind m (fun _ => k))
  (at level 61, right associativity) : stmt_scope.
Local Open Scope stmt_scope.

(** [for x in l: acc = body(acc, x)] *)
Fixpoint for_each {A B} (l : list A) (body : B -> A -> M B) (acc : B)
  : M B :=
  match l with
  | [] => ret acc
  | x :: l' => acc' <- body acc x ;; for_each l' body acc'
  end.

Definition with_index_paths (v : list string) (o : SysAdminRAG) :=
  {| index_paths := v; index_path := index_path o;
     ollama_url := ollama_url o; ollama_model := ollama_model o;
     chunker := chunker o;
     index_loaded := index_loaded o; shard_models := shard_models o;
     use_compression := use_compression o; compressor := compressor o |}.

Definition with_index_loaded (v : bool) (o : SysAdminRAG) :=
  {| index_paths := index_paths o; index_path := index_path o;
     ollama_url := ollama_url o; ollama_model := ollama_model o;
     chunker := chunker o;
     index_loaded := v; shard_models := shard_models o;
     use_compression := use_compression o; compressor := compressor o |}.

Definition with_shard_models (v : list (string * Model)) (o : SysAdminRAG) :=
  {| index_paths := index_paths o; index_path := index_path o;
     ollama_url := ollama_url o; ollama_model := ollama_model o;
     chunker := chunker o;
     index_loaded := index_loaded o; shard_models := v;
     use_compression := use_compression o; compressor := compressor o |}.

(** *** Paths *)

Definition is_slash (c : ascii) : bool := (N_of_ascii c =? 47)%N.

Fixpoint has_slash (p : string) : bool :=
  match p with
  | EmptyString => false
  | String c p' => is_slash c || has_slash p'
  end.

(** [os.path.basename]: what follows the last slash. *)
Fixpoint basename (p : string) : string :=
  match p with
  | EmptyString => EmptyString
  | String c p' =>
      if is_slash c || has_slash p' then basename p' else p
  end.

Fixpoint ends_with_slash (p : string) : bool :=
  match p with
  | EmptyString => false
  | String c EmptyString => is_slash c
  | String _ p' => ends_with_slash p'
  end.

(** [os.path.join(a, b)] *)
Definition path_join (a b : string) : string :=
  match b with
  | String c _ =>
      if is_slash c then b
      else if negb (Py.truthy a) || ends_with_slash a then (a ++ b)%string
      else (a ++ "/" ++ b)%string
  | EmptyString =>
      if negb (Py.truthy a) || ends_with_slash a then a
      else (a ++ "/")%string
  end.

(** [os.path.join(".ragatouille", "colbert", "indexes", name)] *)
Definition in_index_store (name : string) : string :=
  path_join (path_join (path_join ".ragatouille" "colbert") "indexes") name.

(** *** The methods of [SysAdminRAG] *)

Section Methods.

Variable W : World.

Definition _get_index_path (base_index_path : string) : option string :=
  let abs_base_path := abspath W base_index_path in
  let index_name := basename abs_base_path in
  let index_path := in_index_store index_name in
  if path_exists W index_path then Some index_path
  else if path_exists W abs_base_path then Some abs_base_path
  else None.

(** The body of [for item in os.listdir(base_dir)]. *)
Definition discover_step (base_dir : string) (discovered : list string)
           (item : string) : M (list string) :=
  let item_path := path_join base_dir item in
  print ("Checking directory: " ++ item_path) ;;
  if isdir W item_path then
    let has_index_path :=
      path_exists W (path_join item_path "index_path.txt") in
    let has_metadata :=
      path_exists W (path_join item_path "chunks_metadata.json") in
    let has_index_name :=
      path_exists W (path_join item_path "index_name.txt") in
    let abs_item_path := abspath W item_path in
    let index_name := relpath_cwd W abs_item_path in
    let has_ragatouille_index := path_exists W index_name in
    if has_index_path || has_metadata || has_index_name
       || has_ragatouille_index
    then ret (discovered ++ [item_path])
    else ret discovered
  else ret discovered.

Definition _discover_indexes (base_dir : string) : M (list string) :=
  let base_dir := in_index_store base_dir in
  if negb (path_exists W base_dir) then
    print ("Warning: directory " ++ base_dir ++ " not found") ;;
    ret []
  else
    items <- call (ListDir base_dir) (listdir W base_dir) ;;
    for_each items (discover_step base_dir) [].

(** The first part of [load_index]: [if auto_discover: ...]. *)
Definition auto_discovery : M unit :=
  o <- get_self ;;
  discovered_indexes <-
    for_each (index_paths o)
             (fun acc base_path =>
                discovered <- _discover_indexes base_path ;;
                ret (acc ++ discovered)) [] ;;
  if Py.nonempty discovered_indexes then
    set_self (with_index_paths discovered_indexes) ;;
    print ("Auto-discovered "
           ++ Py.str_of_nat (List.length discovered_indexes)
           ++ " indexes:") ;;
    for_each discovered_indexes
             (fun _ idx_path => print ("  - " ++ idx_path)) tt
  else print "Warning: auto-discovery found no indexes".

(** The body of [for base in self.index_paths] of [load_index]; [existing]
    is the local list of that name. *)
Definition load_step (existing : list (string * string)) (base : string)
  : M (list (string * string)) :=
  match _get_index_path base with
  | Some path =>
      if Py.truthy path then
        print ("Loading model from index " ++ abspath W path) ;;
        model <- call (FromIndex (abspath W path))
                      (from_index W (abspath W path)) ;;
        try_except
          (_ <- call (ModelSearch path " " 1) (model_search model " " 1) ;;
           ret tt)
          (fun e => print ("Warning: failed to preload index " ++ path
                           ++ ": " ++ error_text e)) ;;
        set_self (fun o =>
                    with_shard_models (shard_models o ++ [(path, model)])
                                      o) ;;
        ret (existing ++ [(base, path)])
      else ret existing
  | None => ret existing
  end.

Definition load_index (auto_discover : bool) : M unit :=
  (if auto_discover then auto_discovery else ret tt) ;;
  o <- get_self ;;
  existing <- for_each (index_paths o) load_step [] ;;
  o <- get_self ;;
  print ("RAG models from indexes are loaded, n="
         ++ Py.str_of_nat (List.length (shard_models o))) ;;
  if negb (Py.nonempty existing) then raise NoIndexFound
  else
    set_self (with_index_loaded true) ;;
    print "Found indexes for search:" ;;
    for_each existing
             (fun _ bp => print ("Base: " ++ fst bp ++ " -> index path: "
                                 ++ snd bp)) tt.

(** The body of [for idx, result in enumerate(results)]. *)
Definition format_result (index_path : string)
           (chunks_metadata : chunks_metadata)
           (item : nat * raw_result) : SearchHit :=
  let (idx, result) := item in
  let '(text, score, result_idx) :=
    match result with
    | RawText s => (s, 1%Q, Py.str_of_nat idx)
    | RawRecord r =>
        (get (r_text r) (get (r_content r) ""),
         get (r_score r) (get (option_map inject_Z (r_rank r)) 1%Q),
         get (option_map Py.str_of_Z (r_rank r)) (Py.str_of_nat idx))
    end in
  let metadata := get (lookup chunks_metadata result_idx) no_entry in
  {| h_chunk_id := get (m_chunk_id metadata) result_idx;
     h_text := if Py.truthy text then text else get (m_text metadata) "";
     h_score := score;
     h_title := get (m_title metadata) "";
     h_source_url := get (m_source_url metadata) "";
     h_metadata := get (m_metadata metadata) [];
     h_index_path := Some index_path |}.

Definition _search_single_index (index_path : string) (model : Model)
           (query : string) (k : Z) : M (list SearchHit) :=
  results <- call (ModelSearch index_path query k)
                  (model_search model query k) ;;
  let metadata_path := path_join index_path "chunks_metadata.json" in
  let chunks_metadata :=
    if path_exists W metadata_path then load_json W metadata_path
    else [] in
  ret (map (format_result index_path chunks_metadata)
           (Py.enumerate results)).

(** [all_results.sort(key=lambda r: r.get('score', 0.0), reverse=True)]:
    the sort is stable, so a hit goes in front of the later hits whose
    score is not greater. *)
Fixpoint insert_by_score (x : SearchHit) (l : list SearchHit)
  : list SearchHit :=
  match l with
  | [] => [x]
  | y :: l' =>
      if Qle_bool (h_score y) (h_score x) then x :: y :: l'
      else y :: insert_by_score x l'
  end.

Definition sort_by_score_desc (l : list SearchHit) : list SearchHit :=
  fold_right insert_by_score [] l.

(** The body of [for index_path, index_model in self.shard_models];
    [all_results] is the local list of that name. *)
Definition search_step (query : string) (all_results : list SearchHit)
           (shard : string * Model) : M (list SearchHit) :=
  let (index_path, index_model) := shard in
  shard_results <- _search_single_index index_path index_model query 2 ;;
  ret (all_results ++ shard_results).

Definition search (query : string) (k : Z) : M (list SearchHit) :=
  o <- get_self ;;
  if negb (index_loaded o) then raise NotLoaded
  else
    all_results <- for_each (shard_models o) (search_step query) [] ;;
    if negb (Py.nonempty all_results) then ret []
    else ret (Py.slice_to k (sort_by_score_desc all_results)).

Definition full_prompt (prompt context : string) : string :=
  "You are an experienced Linux system administrator specializing in Ubuntu Server.

Use ONLY information from the provided documentation below. Do not make up anything.

DOCUMENTATION:
" ++ context ++ "

USER QUESTION: " ++ prompt ++ "

INSTRUCTIONS:
1. Answer clearly and structured in English
2. Use only facts from the documentation above
3. If information is insufficient, honestly say so
4. Provide specific commands and examples from the documentation
5. Avoid general phrases, be specific

ANSWER:".

Definition _generate_with_ollama (prompt context : string) : M string :=
  alive <- call OllamaTags (Fine (ollama_alive W)) ;;
  o <- get_self ;;
  if negb alive then raise (GenerationUnavailable (ollama_url o))
  else
    try_except
      (response <-
         call (OllamaGenerate (ollama_model o) (full_prompt prompt context))
              (ollama_generate W (ollama_model o)
                               (full_prompt prompt context)) ;;
       ret (get response "Sorry, failed to generate answer."))
      (fun e => ret ("Error generating answer: " ++ error_text e)%string).

Definition no_information : Answer :=
  {| answer :=
       "Sorry, no relevant information found to answer your question.";
     sources := [];
     search_results := [] |}.

(** The [try] statement of [ask]: the value is that of the local
    [search_results] when the statement is left. *)
Definition compression (c : DocumentCompressor) (question : string)
           (k : Z) (search_results : list SearchHit)
  : M (list SearchHit) :=
  let original_count := List.length search_results in
  try_except
    (compressed <- call (Compress question)
                        (compress_documents c search_results question) ;;
     let compressed_count := List.length compressed in
     (if (compressed_count <? original_count)%nat then
        print ("Compression: " ++ Py.str_of_nat original_count ++ " -> "
               ++ Py.str_of_nat compressed_count ++ " documents")
      else ret tt) ;;
     if (compressed_count =? 0)%nat && (0 <? original_count)%nat then
       print "Warning: compressor filtered all documents. Using originals." ;;
       try_except
         (search question k)
         (fun e =>
            print ("Warning: error during document compression: "
                   ++ error_text e) ;;
            print "Using original documents." ;;
            ret compressed)
     else ret compressed)
    (fun e =>
       print ("Warning: error during document compression: "
              ++ error_text e) ;;
       print "Using original documents." ;;
       ret search_results).

Definition context_part (item : nat * SearchHit) : string :=
  let (i, result) := item in
  "[Document " ++ Py.str_of_nat (S i) ++ " - " ++ h_title result ++ "]
" ++ h_text result.

(** The context handed to the completion provider. *)
Definition context_of (search_results : list SearchHit) : string :=
  Py.join "

" (map context_part (Py.enumerate search_results)).

Definition source_of (r : SearchHit) : Source :=
  {| src_title := h_title r; src_url := h_source_url r;
     relevance_score := h_score r |}.

Definition ask (question : string) (k : Z) : M Answer :=
  search_results <- search question k ;;
  if negb (Py.nonempty search_results) then ret no_information
  else
    o <- get_self ;;
    search_results <-
      match use_compression o, compressor o with
      | true, Some c => compression c question k search_results
      | _, _ => ret search_results
      end ;;
    let context := context_of search_results in
    answer <- _generate_with_ollama question context ;;
    ret {| answer := answer;
           sources := map source_of search_results;
           search_results := search_results |}.

Definition metadata_of (item : nat * Chunk) : string * meta_entry :=
  let (idx, chunk) := item in
  (Py.str_of_nat idx,
   {| m_chunk_id := Some (chunk_id chunk);
      m_source_id := Some (source_id chunk);
      m_source_url := Some (source_url chunk);
      m_title := Some (title chunk);
      m_chunk_index := Some (chunk_index chunk);
      m_metadata := Some (metadata chunk);
      m_text := Some (text chunk) |}).

Definition build_index (jsonl_path : string) (force_rebuild : bool)
  : M unit :=
  o <- get_self ;;
  if path_exists W (index_path o) && negb force_rebuild then
    print ("Index already exists in " ++ index_path o
           ++ ". Use force_rebuild=True to rebuild.")
  else
    print "Splitting documents into chunks..." ;;
    docs <- call (ReadJsonl jsonl_path) (read_jsonl W jsonl_path) ;;
    let chunks := chunk_documents (chunker o) docs in
    print ("Created " ++ Py.str_of_nat (List.length chunks)
           ++ " chunks from documents") ;;
    print "Initializing RAGatouille model..." ;;
    print "Building ColBERT index..." ;;
    let texts := map text chunks in
    let abs_index_path := abspath W (index_path o) in
    let index_name := relpath_cwd W abs_index_path in
    print ("ColBERT index name: " ++ index_name) ;;
    call (BuildColbert index_name) (build_colbert W index_name texts) ;;
    let index_path_in_ragatouille := in_index_store index_name in
    let metadata_path :=
      path_join index_path_in_ragatouille "chunks_metadata.json" in
    let metadata := map metadata_of (Py.enumerate chunks) in
    call (WriteJson metadata_path) (write_json W metadata_path metadata) ;;
    print ("Metadata saved to: " ++ metadata_path) ;;
    set_self (with_index_loaded true) ;;
    print ("Index successfully built and saved to " ++ index_path o).

End Methods.

(** [SysAdminRAG(index_path, index_paths, ollama_url, ollama_model,
    chunk_size, chunk_overlap, use_document_compression)]; [langchain] is
    [None] when the import of the compressor module fails, and otherwise what
    the construction of the compressor does. *)
Definition init (index_path : string) (index_paths : option (list string))
           (ollama_url ollama_model : string) (chunk_size chunk_overlap : Z)
           (use_document_compression : bool)
           (langchain : option (external DocumentCompressor)) : state :=
  let paths :=
    match index_paths with
    | Some (p :: ps) => (p :: ps, p)
    | _ => ([index_path], index_path)
    end in
  let fresh (use : bool) (c : option DocumentCompressor) :=
    {| index_paths := fst paths; index_path := snd paths;
       ollama_url := ollama_url; ollama_model := ollama_model;
       chunker := {| chunk_size := chunk_size;
                     chunk_overlap := chunk_overlap;
                     min_chunk_size := 150;
                     respect_sentences := true;
                     respect_paragraphs := true |};
       index_loaded := false; shard_models := [];
       use_compression := use; compressor := c |} in
  match use_document_compression, langchain with
  | true, Some (Fine c) =>
      {| self := fresh true (Some c);
         events := [Printed "Document compressor initialized."] |}
  | true, Some (Failed what) =>
      {| self := fresh false None;
         events := [Printed ("Warning: failed to initialize compressor: "
                             ++ what)] |}
  | _, _ => {| self := fresh false None; events := [] |}
  end.

End Rag.

(** * Properties of the chunker *)

Module ChunkingFacts.

Import Chunking.

(** ** Lists and [enumerate] *)

Lemma fold_left_invariant {A B} (P : A -> Prop) (f : A -> B -> A)
      (l : list B) (a : A) :
  (forall acc x, P acc -> P (f acc x)) -> P a -> P (fold_left f l a).
Proof.
  intros Hstep. revert a.
  induction l as [|x l IH]; intros a Ha; simpl; auto.
Qed.

Lemma map_snd_combine_seq {A} (l : list A) (a : nat) :
  map snd (combine (seq a (List.length l)) l) = l.
Proof.
  revert a. induction l as [|x l IH]; intros a; simpl; [reflexivity|].
  now rewrite IH.
Qed.

Lemma map_fst_combine_seq {A} (l : list A) (a : nat) :
  map fst (combine (seq a (List.length l)) l) = seq a (List.length l).
Proof.
  revert a. induction l as [|x l IH]; intros a; simpl; [reflexivity|].
  now rewrite IH.
Qed.

Lemma map_snd_enumerate {A} (l : list A) : map snd (Py.enumerate l) = l.
Proof. apply map_snd_combine_seq. Qed.

Lemma in_combine_seq {A} (l : list A) (a i : nat) (x : A) :
  In (i, x) (combine (seq a (List.length l)) l) <->
  (a <= i)%nat /\ nth_error l (i - a) = Some x.
Proof.
  revert a. induction l as [|y l IH]; intros a; simpl.
  - split; [tauto|]. intros [_ H]. now destruct (i - a)%nat.
  - rewrite IH. split.
    + intros [H | [Hle H]].
      * inversion H; subst. split; [lia|]. now rewrite Nat.sub_diag.
      * split; [lia|]. replace (i - a)%nat with (S (i - S a)) by lia.
        exact H.
    + intros [Hle H]. destruct (Nat.eq_dec a i) as [->|Hne].
      * left. rewrite Nat.sub_diag in H. simpl in H. congruence.
      * right. split; [lia|].
        replace (i - a)%nat with (S (i - S a)) in H by lia. exact H.
Qed.

Lemma in_enumerate {A} (l : list A) (i : nat) (x : A) :
  In (i, x) (Py.enumerate l) <-> nth_error l i = Some x.
Proof.
  unfold Py.enumerate. rewrite in_combine_seq, Nat.sub_0_r.
  split; [tauto | intros H; split; [lia | exact H]].
Qed.

(** ** The filter of [chunk_document] *)

(** A candidate chunk is kept when its estimated size reaches
    [min_chunk_size]. *)
Definition kept (self : SmartChunker) (chunk_text : string) : bool :=
  negb (_estimate_tokens chunk_text <? min_chunk_size self).

(** The texts that the loops of [chunk_document] go through, before the
    filter: the output of [_split_paragraph] for every paragraph in turn,
    or for the whole text. *)
Definition candidate_chunks (self : SmartChunker) (doc : Document)
  : list string :=
  let text := get (doc_text doc) "" in
  if negb (Py.truthy text) then []
  else if respect_paragraphs self then
    flat_map (_split_paragraph self) (_split_into_paragraphs text)
  else _split_paragraph self text.

Lemma paragraph_chunks_text self doc para_idx total items acc :
  map text (fold_left (paragraph_chunk_step self doc para_idx total)
                      items acc)
  = map text acc ++ filter (kept self) (map snd items).
Proof.
  revert acc. induction items as [|[i t] items IH]; intros acc; simpl.
  - now rewrite app_nil_r.
  - rewrite IH. unfold kept at 2.
    destruct (_estimate_tokens t <? min_chunk_size self); simpl;
      [reflexivity|].
    now rewrite map_app, <- app_assoc.
Qed.

Lemma paragraphs_text self doc items acc :
  map text (fold_left (paragraph_step self doc) items acc)
  = map text acc
    ++ filter (kept self) (flat_map (_split_paragraph self) (map snd items)).
Proof.
  revert acc. induction items as [|[i p] items IH]; intros acc; simpl.
  - now rewrite app_nil_r.
  - rewrite IH, paragraph_chunks_text, map_snd_enumerate.
    now rewrite filter_app, app_assoc.
Qed.

Definition plain_chunk (doc : Document) (item : nat * string) : Chunk :=
  {| text := snd item;
     chunk_id := doc_id doc ++ "_chunk_" ++ Py.str_of_nat (fst item);
     source_id := doc_id doc;
     source_url := get (doc_source_url doc) "";
     title := get (doc_title doc) "";
     chunk_index := fst item;
     metadata := get (doc_meta doc) [] |}.

Lemma plain_chunks_filter self doc items acc :
  fold_left (plain_chunk_step self doc) items acc
  = acc ++ map (plain_chunk doc)
               (filter (fun item => kept self (snd item)) items).
Proof.
  revert acc. induction items as [|[i t] items IH]; intros acc; simpl.
  - now rewrite app_nil_r.
  - rewrite IH. unfold kept at 2. simpl.
    destruct (_estimate_tokens t <? min_chunk_size self); simpl;
      [reflexivity|].
    now rewrite <- app_assoc.
Qed.

Lemma filter_map_snd {A} (f : A -> bool) (l : list (nat * A)) :
  map snd (filter (fun item => f (snd item)) l) = filter f (map snd l).
Proof.
  induction l as [|[i x] l IH]; simpl; [reflexivity|].
  destruct (f x); simpl; now rewrite IH.
Qed.

Lemma chunk_document_texts self doc :
  map text (chunk_document self doc)
  = filter (kept self) (candidate_chunks self doc).
Proof.
  unfold chunk_document, candidate_chunks.
  destruct (negb (Py.truthy (get (doc_text doc) ""))); [reflexivity|].
  destruct (respect_paragraphs self).
  - now rewrite paragraphs_text, map_snd_enumerate.
  - rewrite plain_chunks_filter. simpl. rewrite map_map. simpl.
    rewrite <- (map_snd_enumerate (_split_paragraph _ _)) at 2.
    now rewrite <- filter_map_snd.
Qed.

(** C3.  Every chunk that [chunk_document] returns has an estimated size
    (the length of its text divided by 4, rounded down) of at least
    [min_chunk_size], and the texts returned are exactly the candidate
    chunks that reach it, in order: a candidate below [min_chunk_size] is
    left out, wherever it stands, and no text is changed or joined to
    another. *)
Theorem chunk_document_drops_small_chunks (self : SmartChunker)
        (doc : Document) :
  Forall (fun c => min_chunk_size self <= Py.len (text c) / 4)
         (chunk_document self doc)
  /\ map text (chunk_document self doc)
     = filter (fun t => min_chunk_size self <=? _estimate_tokens t)
              (candidate_chunks self doc).
Proof.
  assert (Hk : forall t, kept self t
                         = (min_chunk_size self <=? _estimate_tokens t)).
  { intros t. unfold kept.
    destruct (Z.ltb_spec (_estimate_tokens t) (min_chunk_size self));
      destruct (Z.leb_spec (min_chunk_size self) (_estimate_tokens t));
      simpl; auto; lia. }
  split.
  - apply Forall_forall. intros c Hc.
    assert (Hin : In (text c) (map text (chunk_document self doc)))
      by now apply in_map.
    rewrite chunk_document_texts in Hin.
    apply filter_In in Hin. destruct Hin as [_ Hkept].
    rewrite Hk in Hkept. apply Z.leb_le in Hkept. exact Hkept.
  - rewrite chunk_document_texts. apply filter_ext. exact Hk.
Qed.

(** ** Numbering *)

Definition numbered (acc : list Chunk) : Prop :=
  map chunk_index acc = seq 0 (List.length acc).

Lemma paragraph_chunk_step_numbered self doc para_idx total acc item :
  numbered acc ->
  numbered (paragraph_chunk_step self doc para_idx total acc item).
Proof.
  unfold numbered, paragraph_chunk_step. destruct item as [i t].
  destruct (_estimate_tokens t <? min_chunk_size self); [easy|].
  intros H. rewrite map_app, length_app, H. simpl.
  now rewrite Nat.add_1_r, seq_S.
Qed.

Lemma paragraph_step_numbered self doc acc item :
  numbered acc -> numbered (paragraph_step self doc acc item).
Proof.
  destruct item as [i p]. unfold paragraph_step.
  apply fold_left_invariant. intros acc' x.
  apply paragraph_chunk_step_numbered.
Qed.

(** C4.  In paragraph mode the [chunk_index] fields of the chunks returned
    are 0, 1, 2, ... in output order, whatever the number of candidate
    chunks that were dropped. *)
Theorem paragraph_mode_chunk_index_contiguous (self : SmartChunker)
        (doc : Document) :
  respect_paragraphs self = true ->
  map chunk_index (chunk_document self doc)
  = seq 0 (List.length (chunk_document self doc)).
Proof.
  intros Hpar. unfold chunk_document. rewrite Hpar.
  destruct (negb (Py.truthy (get (doc_text doc) ""))); [reflexivity|].
  apply (fold_left_invariant numbered); [|reflexivity].
  intros acc x. apply paragraph_step_numbered.
Qed.

(** ** Without paragraphs: the position before the filter *)

Lemma plain_mode_output self doc :
  respect_paragraphs self = false ->
  chunk_document self doc
  = map (plain_chunk doc)
        (filter (fun item => kept self (snd item))
                (Py.enumerate (candidate_chunks self doc))).
Proof.
  intros Hpar. unfold chunk_document, candidate_chunks. rewrite Hpar.
  destruct (negb (Py.truthy (get (doc_text doc) ""))); [reflexivity|].
  now rewrite plain_chunks_filter.
Qed.

(** The candidates that are kept come before those that are dropped. *)
Definition dropped_last (keep : string -> bool) (l : list string) : Prop :=
  forall i j ti tj,
    (i < j)%nat -> nth_error l i = Some ti -> nth_error l j = Some tj ->
    keep tj = true -> keep ti = true.

Lemma dropped_last_tail keep x l :
  dropped_last keep (x :: l) -> dropped_last keep l.
Proof.
  intros H i j ti tj Hij Hi Hj. apply (H (S i) (S j)); simpl; auto. lia.
Qed.

Lemma filter_none {A} (f : A -> bool) (l : list A) :
  (forall x, In x l -> f x = false) -> filter f l = [].
Proof.
  induction l as [|x l IH]; intros H; simpl; [reflexivity|].
  rewrite (H x) by now left. apply IH. intros y Hy. apply H. now right.
Qed.

Lemma kept_positions_prefix keep (l : list string) (a : nat) :
  dropped_last keep l ->
  let survivors :=
    filter (fun item : nat * string => keep (snd item))
           (combine (seq a (List.length l)) l) in
  map fst survivors = seq a (List.length survivors).
Proof.
  revert a. induction l as [|x l IH]; intros a Hl; simpl; [reflexivity|].
  destruct (keep x) eqn:Hx; simpl.
  - f_equal. apply IH. eapply dropped_last_tail; eauto.
  - rewrite filter_none; [reflexivity|].
    intros [i t] Hin. simpl.
    apply in_combine_r in Hin. apply In_nth_error in Hin.
    destruct Hin as [n Hn].
    destruct (keep t) eqn:Ht; [|reflexivity].
    rewrite <- Hx. symmetry.
    apply (Hl 0%nat (S n) x t); simpl; auto. lia.
Qed.

Lemma kept_iff self t :
  kept self t = true <-> min_chunk_size self <= _estimate_tokens t.
Proof.
  unfold kept. rewrite negb_true_iff, Z.ltb_ge. reflexivity.
Qed.

(** C10, as the code has it.  Without paragraphs every chunk returned
    carries the position that its text had in the output of the split,
    before the filter, as [chunk_index] and at the end of its [chunk_id].
    When a dropped candidate is followed by a kept one, the [chunk_index]
    values returned are therefore not 0, 1, 2, ...; when every dropped
    candidate comes after all the kept ones, they still are. *)
Theorem plain_mode_chunk_index_is_position (self : SmartChunker)
        (doc : Document) :
  respect_paragraphs self = false ->
  let candidates := candidate_chunks self doc in
  let out := chunk_document self doc in
  (forall c, In c out ->
     nth_error candidates (chunk_index c) = Some (text c)
     /\ chunk_id c
        = (doc_id doc ++ "_chunk_" ++ Py.str_of_nat (chunk_index c))%string)
  /\ map (fun c => (chunk_index c, text c)) out
     = filter (fun item => min_chunk_size self <=? _estimate_tokens (snd item))
              (Py.enumerate candidates)
  /\ (forall i j ti tj,
        (i < j)%nat ->
        nth_error candidates i = Some ti ->
        _estimate_tokens ti < min_chunk_size self ->
        nth_error candidates j = Some tj ->
        min_chunk_size self <= _estimate_tokens tj ->
        map chunk_index out <> seq 0 (List.length out))
  /\ ((forall i j ti tj,
         (i < j)%nat ->
         nth_error candidates i = Some ti ->
         nth_error candidates j = Some tj ->
         min_chunk_size self <= _estimate_tokens tj ->
         min_chunk_size self <= _estimate_tokens ti) ->
      map chunk_index out = seq 0 (List.length out)).
Proof.
  intros Hpar candidates out.
  assert (Hout : out = map (plain_chunk doc)
                           (filter (fun item => kept self (snd item))
                                   (Py.enumerate candidates)))
    by now apply plain_mode_output.
  assert (Hidx : map chunk_index out
                 = map fst (filter (fun item => kept self (snd item))
                                   (Py.enumerate candidates))).
  { rewrite Hout, map_map. reflexivity. }
  split; [|split; [|split]].
  - intros c Hc. rewrite Hout in Hc. apply in_map_iff in Hc.
    destruct Hc as [[i t] [<- Hin]]. apply filter_In in Hin.
    destruct Hin as [Hin _]. apply in_enumerate in Hin. simpl. auto.
  - rewrite Hout, map_map. simpl.
    rewrite (filter_ext (fun item => kept self (snd item))
                        (fun item => min_chunk_size self
                                     <=? _estimate_tokens (snd item))).
    + rewrite <- (map_id (filter _ _)) at 2. apply map_ext.
      now intros [i t].
    + intros [i t]. simpl. unfold kept.
      destruct (Z.ltb_spec (_estimate_tokens t) (min_chunk_size self));
        destruct (Z.leb_spec (min_chunk_size self) (_estimate_tokens t));
        simpl; auto; lia.
  - intros i j ti tj Hij Hi Hti Hj Htj Hseq.
    assert (Hjin : In j (map chunk_index out)).
    { rewrite Hidx. apply in_map_iff. exists (j, tj). split; [reflexivity|].
      apply filter_In. split; [now apply in_enumerate|].
      now apply kept_iff. }
    rewrite Hseq in Hjin. apply in_seq in Hjin.
    assert (Hiin : In i (map chunk_index out)).
    { rewrite Hseq. apply in_seq. lia. }
    rewrite Hidx in Hiin. apply in_map_iff in Hiin.
    destruct Hiin as [[i' t] [Hfst Hin]]. simpl in Hfst. subst i'.
    apply filter_In in Hin. destruct Hin as [Hin Hkept].
    apply in_enumerate in Hin. simpl in Hkept. apply kept_iff in Hkept.
    rewrite Hi in Hin. inversion Hin; subst. lia.
  - intros Hlast.
    assert (Hlen : List.length out
                   = List.length (filter (fun item => kept self (snd item))
                                         (Py.enumerate candidates))).
    { rewrite Hout. apply length_map. }
    rewrite Hidx, Hlen. apply (kept_positions_prefix (kept self)).
    intros i j ti tj Hij Hi Hj Hkj. apply kept_iff.
    apply (Hlast i j ti tj); auto. now apply kept_iff.
Qed.

(** ** Concrete documents *)

Definition newline : string := String (ascii_of_nat 10) EmptyString.

Definition d1_first : string := "Para one sentence. Para one second sentence.".

Definition d1_second : string := "Para two.".

(** [{id: "d1", text: "Para one sentence. Para one second sentence.\n\nPara two."}] *)
Definition d1 : Document :=
  {| doc_id := "d1"; doc_source_url := None; doc_title := None;
     doc_text := Some (d1_first ++ newline ++ newline ++ d1_second)%string;
     doc_meta := None |}.

Example split_blank_lines_example :
  Py.split_blank_lines
    ("a" ++ newline ++ " " ++ newline ++ newline ++ " b" ++ newline ++ "c"
         ++ newline ++ newline)
  = ["a"; (" b" ++ newline ++ "c")%string; ""].
Proof. vm_compute. reflexivity. Qed.

Example split_into_sentences_example :
  _split_into_sentences "Hello world. This is  A test! Is it? yes. No.  "
  = ["Hello world."; "This is  A test!"; "Is it? yes."; "No."].
Proof. vm_compute. reflexivity. Qed.

Example split_example : Py.split "  ab  cd e  " = ["ab"; "cd"; "e"].
Proof. vm_compute. reflexivity. Qed.

Lemma d1_paragraphs :
  _split_into_paragraphs (get (doc_text d1) "") = [d1_first; d1_second].
Proof. vm_compute. reflexivity. Qed.

Lemma d1_sizes :
  _estimate_tokens d1_first = 11 /\ _estimate_tokens d1_second = 2.
Proof. split; reflexivity. Qed.

(** C9, as stated, fails: the chunker built with no argument has a
    [chunk_size] of 900, far above the 11 and 2 estimated tokens of the two
    paragraphs, and returns no chunk for the document, because both
    paragraphs are below its [min_chunk_size] of 150. *)
Lemma d1_default_chunker_no_chunk :
  chunk_size default_chunker = 900
  /\ chunk_document default_chunker d1 = [].
Proof. split; vm_compute; reflexivity. Qed.

(** C9, as the code has it.  In paragraph mode, with a [chunk_size] of at
    least 11 (each paragraph is one chunk) and a [min_chunk_size] of at most
    2 (neither is dropped), [chunk_document] returns exactly two chunks for
    the document, one per paragraph, with the chunk_ids d1_chunk_0_0 and
    d1_chunk_1_0. *)
Theorem d1_two_chunks (self : SmartChunker) :
  respect_paragraphs self = true ->
  11 <= chunk_size self ->
  min_chunk_size self <= 2 ->
  map (fun c => (chunk_id c, text c, chunk_index c)) (chunk_document self d1)
  = [("d1_chunk_0_0", d1_first, 0%nat); ("d1_chunk_1_0", d1_second, 1%nat)].
Proof.
  intros Hpar Hsize Hmin.
  destruct d1_sizes as [H1 H2].
  assert (Hs1 : _split_paragraph self d1_first = [d1_first]).
  { unfold _split_paragraph. rewrite H1.
    destruct (Z.leb_spec 11 (chunk_size self)); [reflexivity | lia]. }
  assert (Hs2 : _split_paragraph self d1_second = [d1_second]).
  { unfold _split_paragraph. rewrite H2.
    destruct (Z.leb_spec 2 (chunk_size self)); [reflexivity | lia]. }
  unfold chunk_document. rewrite Hpar, d1_paragraphs.
  change (negb (Py.truthy (get (doc_text d1) ""))) with false.
  cbv beta iota.
  change (Py.enumerate [d1_first; d1_second])
    with [(0%nat, d1_first); (1%nat, d1_second)].
  unfold fold_left at 1, paragraph_step. rewrite Hs1, Hs2.
  change (Py.enumerate [d1_first]) with [(0%nat, d1_first)].
  change (Py.enumerate [d1_second]) with [(0%nat, d1_second)].
  unfold fold_left, paragraph_chunk_step. rewrite H1, H2.
  destruct (Z.ltb_spec 11 (min_chunk_size self)); [lia|].
  destruct (Z.ltb_spec 2 (min_chunk_size self)); [lia|].
  reflexivity.
Qed.

Definition d1_chunker : SmartChunker :=
  {| chunk_size := 900; chunk_overlap := 50; min_chunk_size := 0;
     respect_sentences := true; respect_paragraphs := true |}.

Lemma d1_two_chunks_witness :
  (respect_paragraphs d1_chunker = true
   /\ 11 <= chunk_size d1_chunker
   /\ min_chunk_size d1_chunker <= 2)
  /\ map (fun c => (chunk_id c, text c, chunk_index c))
         (chunk_document d1_chunker d1)
     = [("d1_chunk_0_0", d1_first, 0%nat); ("d1_chunk_1_0", d1_second, 1%nat)].
Proof.
  split.
  - split; [reflexivity | split; simpl; lia].
  - apply (d1_two_chunks d1_chunker); simpl; [reflexivity | lia | lia].
Defined.

(** A document of three paragraphs of which the second is short. *)
Definition three_paragraphs : Document :=
  {| doc_id := "doc"; doc_source_url := Some "http://example.org/doc";
     doc_title := Some "Title";
     doc_text := Some ("Alpha beta gamma delta." ++ newline ++ newline
                       ++ "Tiny." ++ newline ++ newline
                       ++ "Epsilon zeta eta theta.")%string;
     doc_meta := Some [("lang", VStr "en")] |}.

Definition small_paragraph_chunker : SmartChunker :=
  {| chunk_size := 900; chunk_overlap := 50; min_chunk_size := 3;
     respect_sentences := true; respect_paragraphs := true |}.

Example three_paragraphs_chunk_ids :
  map (fun c => (chunk_id c, chunk_index c))
      (chunk_document small_paragraph_chunker three_paragraphs)
  = [("doc_chunk_0_0", 0%nat); ("doc_chunk_2_0", 1%nat)].
Proof. vm_compute. reflexivity. Qed.

Lemma paragraph_mode_chunk_index_contiguous_witness :
  respect_paragraphs small_paragraph_chunker = true
  /\ map chunk_index (chunk_document small_paragraph_chunker three_paragraphs)
     = seq 0 (List.length
                (chunk_document small_paragraph_chunker three_paragraphs)).
Proof.
  split; [reflexivity|].
  apply (paragraph_mode_chunk_index_contiguous small_paragraph_chunker
                                               three_paragraphs).
  reflexivity.
Defined.

(** Word mode without paragraphs: a limit of one token, no overlap. *)
Definition word_chunker : SmartChunker :=
  {| chunk_size := 1; chunk_overlap := 0; min_chunk_size := 1;
     respect_sentences := false; respect_paragraphs := false |}.

Definition short_tail : Document :=
  {| doc_id := "t"; doc_source_url := None; doc_title := None;
     doc_text := Some "aaaa bbbb ccc"; doc_meta := None |}.

Definition short_middle : Document :=
  {| doc_id := "m"; doc_source_url := None; doc_title := None;
     doc_text := Some "aaaa ccc bbbb"; doc_meta := None |}.

(** C10, as stated, fails: without paragraphs, the last of the three candidate
    chunks of this document is dropped for being under [min_chunk_size], and
    the [chunk_index] values returned are still 0, 1. *)
Lemma plain_mode_dropped_tail_contiguous :
  respect_paragraphs word_chunker = false
  /\ candidate_chunks word_chunker short_tail = ["aaaa"; "bbbb"; "ccc"]
  /\ _estimate_tokens "ccc" < min_chunk_size word_chunker
  /\ map chunk_index (chunk_document word_chunker short_tail) = [0%nat; 1%nat]
  /\ map chunk_index (chunk_document word_chunker short_tail)
     = seq 0 (List.length (chunk_document word_chunker short_tail)).
Proof. repeat split; vm_compute; reflexivity. Qed.

Example short_middle_chunks :
  map (fun c => (chunk_id c, chunk_index c))
      (chunk_document word_chunker short_middle)
  = [("m_chunk_0", 0%nat); ("m_chunk_2", 2%nat)].
Proof. vm_compute. reflexivity. Qed.

Lemma plain_mode_chunk_index_is_position_witness :
  respect_paragraphs word_chunker = false
  /\ map (fun c => (chunk_index c, text c))
         (chunk_document word_chunker short_middle)
     = filter (fun item => min_chunk_size word_chunker
                           <=? _estimate_tokens (snd item))
              (Py.enumerate (candidate_chunks word_chunker short_middle))
  /\ map chunk_index (chunk_document word_chunker short_middle)
     <> seq 0 (List.length (chunk_document word_chunker short_middle)).
Proof.
  pose proof (plain_mode_chunk_index_is_position word_chunker short_middle
                                                 eq_refl) as H.
  cbv zeta in H. destruct H as [_ [Hpos [Hgap _]]].
  split; [reflexivity|]. split; [exact Hpos|].
  apply (Hgap 1%nat 2%nat "ccc" "bbbb").
  - lia.
  - reflexivity.
  - reflexivity.
  - reflexivity.
  - discriminate.
Defined.

End ChunkingFacts.

(** * The overlap between the chunks of a split paragraph *)

Module Overlap.

Import Chunking.

(** The last [min n (len b)] units of a buffer. *)
Definition last_units (n : nat) (b : list string) : list string :=
  skipn (List.length b - Nat.min n (List.length b)) b.

(** [R] holds between every element of a list and the next one. *)
Inductive adjacent {A} (R : A -> A -> Prop) : list A -> Prop :=
| adjacent_nil : adjacent R []
| adjacent_one : forall a, adjacent R [a]
| adjacent_cons : forall a b l,
    R a b -> adjacent R (b :: l) -> adjacent R (a :: b :: l).

(** The packing loops with the buffers kept as lists of units: the spec's
    "greedily pack units into a running buffer; flush; seed the new buffer
    with overlap followed by the unit that triggered the flush".  [carry]
    gives the overlap taken from the flushed buffer. *)
Section Buffers.

Variable size : string -> Z.
Variable limit : Z.
Variable carry : list string -> list string.

Record buffers : Type := {
  flushed : list (list string);
  current : list string;
  csize : Z
}.

Definition buffers_start : buffers :=
  {| flushed := []; current := []; csize := 0 |}.

Definition buffer_step (st : buffers) (u : string) : buffers :=
  if (csize st + size u >? limit) && Py.nonempty (current st) then
    {| flushed := flushed st ++ [current st];
       current := carry (current st) ++ [u];
       csize := Py.sum_map size (carry (current st) ++ [u]) |}
  else
    {| flushed := flushed st;
       current := current st ++ [u];
       csize := csize st + size u |}.

(** The buffers in the order in which they are flushed, the last one by the
    statement after the loop. *)
Definition all_buffers (st : buffers) : list (list string) :=
  if Py.nonempty (current st) then flushed st ++ [current st]
  else flushed st.

(** The state of the source's loop: the flushed buffers joined. *)
Definition joined (st : buffers) : packing :=
  {| chunks := map (Py.join " ") (flushed st);
     current_chunk := current st;
     current_size := csize st |}.

(** A buffer starts with the overlap of the one before it, then has at least
    one more unit. *)
Definition seeded (b b' : list string) : Prop :=
  exists u rest, b' = carry b ++ u :: rest.

(** The units of a buffer after the overlap it took from [prev], for each
    buffer of a list in turn. *)
Fixpoint fresh_from (prev : list string) (bufs : list (list string))
  : list string :=
  match bufs with
  | [] => []
  | b :: tl => skipn (List.length (carry prev)) b ++ fresh_from b tl
  end.

(** The first buffer, then the units that each later buffer adds to its
    overlap. *)
Definition units_of (bufs : list (list string)) : list string :=
  match bufs with
  | [] => []
  | b :: tl => b ++ fresh_from b tl
  end.

Lemma flush_rest_joined st :
  flush_rest (joined st) = map (Py.join " ") (all_buffers st).
Proof.
  unfold flush_rest, all_buffers, joined. simpl.
  destruct (Py.nonempty (current st)); [|reflexivity].
  now rewrite map_app.
Qed.

Lemma skipn_exact {A} (l1 l2 : list A) :
  skipn (List.length l1) (l1 ++ l2) = l2.
Proof. induction l1; simpl; auto. Qed.

Lemma adjacent_tail {A} (R : A -> A -> Prop) a l :
  adjacent R (a :: l) -> adjacent R l.
Proof. intros H. inversion H; subst; auto. constructor. Qed.

Lemma adjacent_grow_last {A} (R : A -> A -> Prop) l b b' :
  (forall a, R a b -> R a b') ->
  adjacent R (l ++ [b]) -> adjacent R (l ++ [b']).
Proof.
  intros HR. induction l as [|a l IH]; intros H; simpl in *.
  - constructor.
  - destruct l as [|a' l]; simpl in *.
    + inversion H; subst. constructor; [auto | constructor].
    + inversion H; subst. constructor; auto.
Qed.

Lemma adjacent_add_last {A} (R : A -> A -> Prop) l b c :
  R b c -> adjacent R (l ++ [b]) -> adjacent R (l ++ [b; c]).
Proof.
  intros HR. induction l as [|a l IH]; intros H; simpl in *.
  - constructor; [auto | constructor].
  - destruct l as [|a' l]; simpl in *.
    + inversion H; subst. constructor; auto.
    + inversion H; subst. constructor; auto.
Qed.

Lemma seeded_grow a b u : seeded a b -> seeded a (b ++ [u]).
Proof.
  intros [u0 [rest ->]]. exists u0, (rest ++ [u]).
  now rewrite <- app_assoc.
Qed.

Lemma fresh_from_grow prev l b u :
  adjacent seeded (prev :: l ++ [b]) ->
  fresh_from prev (l ++ [b ++ [u]]) = fresh_from prev (l ++ [b]) ++ [u].
Proof.
  revert prev. induction l as [|a l IH]; intros prev H; simpl in *.
  - inversion H as [| |? ? ? [u0 [rest ->]] ?]; subst.
    rewrite !app_nil_r, <- app_assoc, !skipn_exact. reflexivity.
  - rewrite IH by (eapply adjacent_tail; eauto).
    now rewrite app_assoc.
Qed.

Lemma fresh_from_add prev l b u :
  fresh_from prev (l ++ [b; carry b ++ [u]])
  = fresh_from prev (l ++ [b]) ++ [u].
Proof.
  revert prev. induction l as [|a l IH]; intros prev; simpl.
  - rewrite skipn_exact, !app_nil_r. reflexivity.
  - rewrite IH. now rewrite app_assoc.
Qed.

Lemma units_of_grow l b u :
  adjacent seeded (l ++ [b]) ->
  units_of (l ++ [b ++ [u]]) = units_of (l ++ [b]) ++ [u].
Proof.
  destruct l as [|a l]; intros H; simpl in *.
  - now rewrite !app_nil_r.
  - rewrite fresh_from_grow by exact H. now rewrite app_assoc.
Qed.

Lemma units_of_add l b u :
  units_of (l ++ [b; carry b ++ [u]]) = units_of (l ++ [b]) ++ [u].
Proof.
  destruct l as [|a l]; simpl.
  - now rewrite skipn_exact, !app_nil_r.
  - rewrite fresh_from_add. now rewrite app_assoc.
Qed.

(** What the loop maintains, [consumed] being the units read so far. *)
Definition packed (st : buffers) (consumed : list string) : Prop :=
  adjacent seeded (flushed st ++ [current st])
  /\ units_of (flushed st ++ [current st]) = consumed
  /\ (current st = [] -> flushed st = [] /\ consumed = []).

Lemma packed_start : packed buffers_start [].
Proof. repeat split; constructor. Qed.

Lemma packed_step st consumed u :
  packed st consumed -> packed (buffer_step st u) (consumed ++ [u]).
Proof.
  intros [Hadj [Hunits Hempty]]. unfold buffer_step.
  destruct ((csize st + size u >? limit) && Py.nonempty (current st));
    unfold packed; simpl; (split; [|split]).
  - rewrite <- app_assoc. simpl. apply adjacent_add_last; auto.
    exists u, []. reflexivity.
  - rewrite <- app_assoc. simpl. now rewrite units_of_add, Hunits.
  - intros H. apply app_eq_nil in H. now destruct H.
  - eapply adjacent_grow_last; [|exact Hadj].
    intros a. apply seeded_grow.
  - now rewrite units_of_grow, Hunits.
  - intros H. apply app_eq_nil in H. now destruct H.
Qed.

Lemma packed_fold units st consumed :
  packed st consumed ->
  packed (fold_left buffer_step units st) (consumed ++ units).
Proof.
  revert st consumed. induction units as [|u units IH]; intros st consumed H.
  - now rewrite app_nil_r.
  - simpl. replace (consumed ++ u :: units) with ((consumed ++ [u]) ++ units)
      by now rewrite <- app_assoc.
    apply IH, packed_step, H.
Qed.

Lemma adjacent_without_last {A} (R : A -> A -> Prop) l b :
  adjacent R (l ++ [b]) -> adjacent R l.
Proof.
  induction l as [|a l IH]; intros H; simpl in *; [constructor|].
  destruct l as [|a' l]; simpl in *; [constructor|].
  inversion H; subst. constructor; auto.
Qed.

Lemma all_buffers_packed units :
  let bufs := all_buffers (fold_left buffer_step units buffers_start) in
  adjacent seeded bufs /\ units_of bufs = units.
Proof.
  pose proof (packed_fold units buffers_start [] packed_start) as H.
  simpl in H. destruct H as [Hadj [Hunits Hempty]].
  unfold all_buffers.
  destruct (current (fold_left buffer_step units buffers_start)) eqn:Hc;
    simpl.
  - destruct (Hempty eq_refl) as [Hf Hu]. rewrite Hf, Hu.
    split; [constructor | reflexivity].
  - split; assumption.
Qed.

End Buffers.

Lemma fold_left_joined (step : packing -> string -> packing)
      (bstep : buffers -> string -> buffers) units st :
  (forall st u, step (joined st) u = joined (bstep st u)) ->
  fold_left step units (joined st) = joined (fold_left bstep units st).
Proof.
  intros Hstep. revert st.
  induction units as [|u units IH]; intros st; simpl; [reflexivity|].
  now rewrite Hstep, IH.
Qed.

Lemma slice_from_last (v : Z) (b : list string) :
  0 < v -> Z.of_nat (List.length b) >= v ->
  Py.slice_from (- v) b = last_units (Z.to_nat v) b.
Proof.
  intros Hv Hlen. unfold Py.slice_from, last_units.
  destruct (Z.ltb_spec (- v) 0); [|lia].
  f_equal. lia.
Qed.

Lemma last_units_whole (n : nat) (b : list string) :
  (List.length b <= n)%nat -> last_units n b = b.
Proof.
  intros H. unfold last_units.
  now replace (List.length b - Nat.min n (List.length b))%nat with 0%nat
    by lia.
Qed.

Lemma last_units_length (n : nat) (b : list string) :
  List.length (last_units n b) = Nat.min n (List.length b).
Proof. unfold last_units. rewrite length_skipn. lia. Qed.

Lemma sentence_step_joined self st sentence :
  0 < chunk_overlap self ->
  sentence_step self (joined st) sentence
  = joined (buffer_step _estimate_tokens (chunk_size self) (last_units 2)
                        st sentence).
Proof.
  intros Hv. unfold sentence_step, buffer_step, joined.
  cbn [chunks current_chunk current_size flushed current csize].
  destruct ((csize st + _estimate_tokens sentence >? chunk_size self)
            && Py.nonempty (current st)); [|reflexivity].
  destruct (Z.gtb_spec (chunk_overlap self) 0) as [_|]; [|lia].
  assert (Hcarry : (if (2 <=? List.length (current st))%nat
                    then Py.slice_from (-2) (current st)
                    else current st) = last_units 2 (current st)).
  { destruct (Nat.leb_spec 2 (List.length (current st))).
    - apply (slice_from_last 2); lia.
    - symmetry. apply last_units_whole. lia. }
  rewrite Hcarry. cbn [flushed current csize]. now rewrite map_app.
Qed.

Lemma word_step_joined self st word :
  0 < chunk_overlap self ->
  word_step self (joined st) word
  = joined (buffer_step word_tokens (chunk_size self)
                        (last_units (Z.to_nat (chunk_overlap self)))
                        st word).
Proof.
  intros Hv. unfold word_step, buffer_step, joined.
  cbn [chunks current_chunk current_size flushed current csize].
  destruct ((csize st + word_tokens word >? chunk_size self)
            && Py.nonempty (current st)); [|reflexivity].
  destruct (Z.gtb_spec (chunk_overlap self) 0) as [_|]; [|lia].
  assert (Hcarry : (if Z.of_nat (List.length (current st))
                       >=? chunk_overlap self
                    then Py.slice_from (- chunk_overlap self) (current st)
                    else current st)
                   = last_units (Z.to_nat (chunk_overlap self)) (current st)).
  { destruct (Z.geb_spec (Z.of_nat (List.length (current st)))
                         (chunk_overlap self)).
    - apply slice_from_last; lia.
    - symmetry. apply last_units_whole. lia. }
  rewrite Hcarry. cbn [flushed current csize]. now rewrite map_app.
Qed.

(** The number of units carried over a flush when [chunk_overlap] is
    positive: two in sentence mode, [chunk_overlap] in word mode. *)
Definition overlap_units (self : SmartChunker) : nat :=
  if respect_sentences self then 2%nat else Z.to_nat (chunk_overlap self).

(** The units that [_split_paragraph] packs. *)
Definition units (self : SmartChunker) (paragraph : string) : list string :=
  if respect_sentences self then _split_into_sentences paragraph
  else Py.split paragraph.

(** C5.  When [chunk_overlap] is positive and the paragraph is oversized,
    the chunks returned by [_split_paragraph] are buffers of units joined by
    a space such that every buffer after the first starts with the last
    [min(n, len)] units of the buffer before it, followed by at least one
    further unit, where [n] is 2 in sentence mode, whatever the value of
    [chunk_overlap], and [chunk_overlap] in word mode; the first buffer and
    the further units of the later ones are the units of the paragraph in
    order, so the unit that follows the overlap is the one that triggered the
    flush. *)
Theorem split_paragraph_overlap (self : SmartChunker) (paragraph : string) :
  0 < chunk_overlap self ->
  chunk_size self < _estimate_tokens paragraph ->
  exists bufs : list (list string),
    _split_paragraph self paragraph = map (Py.join " ") bufs
    /\ adjacent
         (fun b b' =>
            exists u rest,
              b' = last_units (overlap_units self) b ++ u :: rest)
         bufs
    /\ units_of (last_units (overlap_units self)) bufs = units self paragraph
    /\ (respect_sentences self = true ->
        forall b, (List.length (last_units (overlap_units self) b) <= 2)%nat).
Proof.
  intros Hv Hbig. unfold _split_paragraph, overlap_units, units.
  destruct (Z.leb_spec (_estimate_tokens paragraph) (chunk_size self));
    [lia|].
  change packing_start with (joined buffers_start).
  destruct (respect_sentences self).
  - exists (all_buffers
              (fold_left (buffer_step _estimate_tokens (chunk_size self)
                                      (last_units 2))
                         (_split_into_sentences paragraph) buffers_start)).
    rewrite (fold_left_joined (sentence_step self)
               (buffer_step _estimate_tokens (chunk_size self)
                            (last_units 2)))
      by (intros; now apply sentence_step_joined).
    split; [apply flush_rest_joined|].
    split; [apply all_buffers_packed|].
    split; [apply all_buffers_packed|].
    intros _ b. rewrite last_units_length. lia.
  - exists (all_buffers
              (fold_left (buffer_step word_tokens (chunk_size self)
                            (last_units (Z.to_nat (chunk_overlap self))))
                         (Py.split paragraph) buffers_start)).
    rewrite (fold_left_joined (word_step self)
               (buffer_step word_tokens (chunk_size self)
                            (last_units (Z.to_nat (chunk_overlap self)))))
      by (intros; now apply word_step_joined).
    split; [apply flush_rest_joined|].
    split; [apply all_buffers_packed|].
    split; [apply all_buffers_packed|].
    intros Hsent. discriminate Hsent.
Qed.

(** Sentence mode with an overlap of 50: the overlap is still two
    sentences. *)
Definition sentence_chunker : SmartChunker :=
  {| chunk_size := 6; chunk_overlap := 50; min_chunk_size := 0;
     respect_sentences := true; respect_paragraphs := true |}.

Definition four_sentences : string :=
  "One is here. Two is here. Three is here. Four is here. Five.".

Example four_sentences_chunks :
  _split_paragraph sentence_chunker four_sentences
  = ["One is here. Two is here."; "One is here. Two is here. Three is here.";
     "Two is here. Three is here. Four is here.";
     "Three is here. Four is here. Five."].
Proof. vm_compute. reflexivity. Qed.

(** Word mode with an overlap of one word. *)
Definition overlap_word_chunker : SmartChunker :=
  {| chunk_size := 3; chunk_overlap := 1; min_chunk_size := 0;
     respect_sentences := false; respect_paragraphs := true |}.

Definition six_words : string := "aaaa bbbb ccc dddd eeee ffff".

Example six_words_chunks :
  _split_paragraph overlap_word_chunker six_words
  = ["aaaa bbbb ccc"; "ccc dddd eeee"; "eeee ffff"].
Proof. vm_compute. reflexivity. Qed.

Definition overlap_statement (self : SmartChunker) (paragraph : string)
  : Prop :=
  exists bufs : list (list string),
    _split_paragraph self paragraph = map (Py.join " ") bufs
    /\ adjacent
         (fun b b' =>
            exists u rest,
              b' = last_units (overlap_units self) b ++ u :: rest)
         bufs
    /\ units_of (last_units (overlap_units self)) bufs = units self paragraph
    /\ (respect_sentences self = true ->
        forall b, (List.length (last_units (overlap_units self) b) <= 2)%nat).

Lemma split_paragraph_overlap_witness :
  (0 < chunk_overlap sentence_chunker
   /\ chunk_size sentence_chunker < _estimate_tokens four_sentences
   /\ overlap_statement sentence_chunker four_sentences)
  /\ (0 < chunk_overlap overlap_word_chunker
      /\ chunk_size overlap_word_chunker < _estimate_tokens six_words
      /\ overlap_statement overlap_word_chunker six_words).
Proof.
  split; (split; [reflexivity | split; [reflexivity|]]).
  - apply (split_paragraph_overlap sentence_chunker four_sentences);
      reflexivity.
  - apply (split_paragraph_overlap overlap_word_chunker six_words);
      reflexivity.
Defined.

End Overlap.

(** * Properties of the retrieval pipeline *)

Module RagFacts.

Import Chunking Rag.

(** ** Running statements *)

(** The state after more output. *)
Definition log (s : state) (ev : list event) : state :=
  {| self := self s; events := events s ++ ev |}.

Lemma log_nil s : log s [] = s.
Proof. destruct s. unfold log. simpl. now rewrite app_nil_r. Qed.

Lemma log_log s ev ev' : log (log s ev) ev' = log s (ev ++ ev').
Proof. unfold log. simpl. now rewrite app_assoc. Qed.

Lemma emit_run e s : emit e s = (Returned tt, log s [e]).
Proof. reflexivity. Qed.

Lemma call_run {A} e (x : external A) s :
  call e x s
  = (match x with Fine a => Returned a | Failed what => Raised (External what) end,
     log s [e]).
Proof. reflexivity. Qed.

(** ** Sorting by score *)

(** [a] may stand before [b]: its score is not smaller. *)
Definition score_ge (a b : SearchHit) : Prop := (h_score b <= h_score a)%Q.

Lemma insert_by_score_Forall (P : SearchHit -> Prop) x l :
  P x -> Forall P l -> Forall P (insert_by_score x l).
Proof.
  intros Hx Hl. induction Hl as [|y l Hy Hl IH]; simpl.
  - constructor; auto.
  - destruct (Qle_bool (h_score y) (h_score x)); repeat constructor; auto.
Qed.

Lemma insert_by_score_sorted x l :
  StronglySorted score_ge l -> StronglySorted score_ge (insert_by_score x l).
Proof.
  intros Hl. induction Hl as [|y l Hl IH Hy]; simpl.
  - repeat constructor.
  - destruct (Qle_bool (h_score y) (h_score x)) eqn:Hle.
    + apply Qle_bool_iff in Hle.
      constructor; [constructor; assumption|].
      constructor; [exact Hle|].
      eapply Forall_impl; [|exact Hy].
      intros z Hz. unfold score_ge in *. eapply Qle_trans; eauto.
    + constructor; [exact IH|].
      apply insert_by_score_Forall; [|exact Hy].
      unfold score_ge. apply Qlt_le_weak, Qnot_le_lt.
      intros Hc. apply Qle_bool_iff in Hc. congruence.
Qed.

Lemma sort_by_score_desc_sorted l :
  StronglySorted score_ge (sort_by_score_desc l).
Proof.
  induction l as [|x l IH]; simpl; [constructor|].
  now apply insert_by_score_sorted.
Qed.

Lemma insert_by_score_perm x l : Permutation (insert_by_score x l) (x :: l).
Proof.
  induction l as [|y l IH]; simpl; [reflexivity|].
  destruct (Qle_bool (h_score y) (h_score x)); [reflexivity|].
  rewrite IH. apply perm_swap.
Qed.

Lemma sort_by_score_desc_perm l : Permutation (sort_by_score_desc l) l.
Proof.
  induction l as [|x l IH]; simpl; [reflexivity|].
  rewrite insert_by_score_perm. now constructor.
Qed.

Lemma firstn_sorted {A} (R : A -> A -> Prop) n l :
  StronglySorted R l -> StronglySorted R (firstn n l).
Proof.
  intros Hl. revert n. induction Hl as [|x l Hl IH Hx]; intros [|n]; simpl;
    try constructor; auto.
  apply Forall_forall. intros y Hy.
  rewrite Forall_forall in Hx. apply Hx.
  apply (In_nth_error) in Hy. destruct Hy as [i Hi].
  rewrite nth_error_firstn in Hi.
  destruct (i <? n)%nat; [|discriminate].
  eapply nth_error_In; eauto.
Qed.

Lemma slice_to_firstn {A} (k : Z) (l : list A) :
  0 <= k -> Py.slice_to k l = firstn (Z.to_nat k) l.
Proof.
  intros Hk. unfold Py.slice_to.
  destruct (Z.ltb_spec k 0); [lia|].
  destruct (Z.le_ge_cases k (Z.of_nat (List.length l))).
  - now rewrite Z.min_l.
  - rewrite Z.min_r, Nat2Z.id, !firstn_all2 by lia. reflexivity.
Qed.

(** ** [search] *)

(** The meta data that [_search_single_index] reads for an index. *)
Definition metadata_for (W : World) (index_path : string) : chunks_metadata :=
  if path_exists W (path_join index_path "chunks_metadata.json")
  then load_json W (path_join index_path "chunks_metadata.json")
  else [].

(** The formatted hits of what a model returns. *)
Definition formatted (W : World) (index_path : string)
           (results : list raw_result) : list SearchHit :=
  map (format_result index_path (metadata_for W index_path))
      (Py.enumerate results).

(** The formatted hits of one shard for the fan-out of [search]. *)
Definition shard_hits (W : World) (query : string) (shard : string * Model)
  : list SearchHit :=
  match model_search (snd shard) query 2 with
  | Fine results => formatted W (fst shard) results
  | Failed _ => []
  end.

Lemma _search_single_index_run W index_path model query k s :
  _search_single_index W index_path model query k s
  = (match model_search model query k with
     | Fine results => Returned (formatted W index_path results)
     | Failed what => Raised (External what)
     end,
     log s [ModelSearch index_path query k]).
Proof.
  unfold _search_single_index, bind. rewrite call_run.
  destruct (model_search model query k); reflexivity.
Qed.

(** The loop of [search]: its value and its output. *)
Fixpoint gather (W : World) (query : string) (shards : list (string * Model))
         (acc : list SearchHit) : outcome (list SearchHit) * list event :=
  match shards with
  | [] => (Returned acc, [])
  | shard :: rest =>
      match model_search (snd shard) query 2 with
      | Fine results =>
          let (r, ev) :=
            gather W query rest (acc ++ formatted W (fst shard) results) in
          (r, ModelSearch (fst shard) query 2 :: ev)
      | Failed what =>
          (Raised (External what), [ModelSearch (fst shard) query 2])
      end
  end.

Lemma search_loop_run W query shards acc s :
  for_each shards (search_step W query) acc s
  = (fst (gather W query shards acc), log s (snd (gather W query shards acc))).
Proof.
  revert acc s.
  induction shards as [|[path model] rest IH]; intros acc s; simpl.
  - now rewrite log_nil.
  - unfold bind at 1. unfold search_step at 1. unfold bind at 1.
    rewrite _search_single_index_run.
    destruct (model_search model query 2) as [results|what]; simpl.
    + rewrite IH.
      destruct (gather W query rest (acc ++ formatted W path results))
        as [r ev].
      simpl. now rewrite log_log.
    + reflexivity.
Qed.

(** The value and the output of [search] for an object. *)
Definition search_result (W : World) (o : SysAdminRAG) (query : string)
           (k : Z) : outcome (list SearchHit) * list event :=
  if negb (index_loaded o) then (Raised NotLoaded, [])
  else
    let (r, ev) := gather W query (shard_models o) [] in
    (match r with
     | Returned all_results =>
         Returned (if negb (Py.nonempty all_results) then []
                   else Py.slice_to k (sort_by_score_desc all_results))
     | Raised e => Raised e
     end, ev).

Lemma search_run W query k s :
  search W query k s
  = (fst (search_result W (self s) query k),
     log s (snd (search_result W (self s) query k))).
Proof.
  unfold search, search_result, bind, get_self.
  destruct (index_loaded (self s)); simpl.
  - rewrite search_loop_run.
    destruct (gather W query (shard_models (self s)) []) as [[all|e] ev];
      simpl; [|reflexivity].
    destruct (Py.nonempty all); reflexivity.
  - unfold raise. now rewrite log_nil.
Qed.

Lemma gather_all_fine W query shards acc :
  (forall shard, In shard shards ->
                 exists results, model_search (snd shard) query 2 = Fine results) ->
  gather W query shards acc
  = (Returned (acc ++ flat_map (shard_hits W query) shards),
     map (fun shard => ModelSearch (fst shard) query 2) shards).
Proof.
  revert acc. induction shards as [|shard rest IH]; intros acc Hall; simpl.
  - now rewrite app_nil_r.
  - destruct (Hall shard (or_introl eq_refl)) as [results Hr].
    unfold shard_hits at 1. rewrite Hr.
    rewrite IH by (intros sh Hsh; apply Hall; now right).
    now rewrite <- app_assoc.
Qed.

Lemma gather_returned W query shards acc all :
  fst (gather W query shards acc) = Returned all ->
  forall shard, In shard shards ->
                exists results, model_search (snd shard) query 2 = Fine results.
Proof.
  revert acc. induction shards as [|[path model] rest IH]; intros acc Hret.
  - intros shard [].
  - simpl in Hret.
    destruct (model_search model query 2) as [results|what] eqn:Hm;
      [|discriminate].
    specialize (IH (acc ++ formatted W path results)).
    destruct (gather W query rest (acc ++ formatted W path results)).
    intros shard [<-|Hin]; [eauto | now apply IH].
Qed.

(** Every loaded shard answers the query of [search]. *)
Definition shards_answer (s : state) (query : string) : Prop :=
  forall shard, In shard (shard_models (self s)) ->
                exists results, model_search (snd shard) query 2 = Fine results.

(** C2.  When the index is loaded and [k] is not negative, [search] returns
    a list exactly when every loaded shard answers its query.  It then has
    asked every loaded shard, in order, for exactly 2 hits whatever [k] is,
    has done nothing else that can be observed, and returns the first [k]
    elements of a permutation of all the shards' formatted hits that is
    sorted by non-increasing score: a list of at most [k] hits in
    non-increasing order of score. *)
Theorem search_merges_and_ranks (W : World) (s : state) (query : string)
        (k : Z) :
  index_loaded (self s) = true ->
  0 <= k ->
  (shards_answer s query ->
   exists hits merged : list SearchHit,
     search W query k s
     = (Returned hits,
        log s (map (fun shard => ModelSearch (fst shard) query 2)
                   (shard_models (self s))))
     /\ Permutation merged
                    (flat_map (shard_hits W query) (shard_models (self s)))
     /\ StronglySorted score_ge merged
     /\ hits = firstn (Z.to_nat k) merged
     /\ Z.of_nat (List.length hits) <= k
     /\ StronglySorted (fun a b => (h_score b <= h_score a)%Q) hits)
  /\ (forall hits, fst (search W query k s) = Returned hits ->
                   shards_answer s query).
Proof.
  intros Hloaded Hk. split; [intros Hall|];
    [|intros hits; rewrite search_run; unfold search_result;
      rewrite Hloaded; cbn [negb];
      pose proof (gather_returned W query (shard_models (self s)) []) as Hg;
      destruct (gather W query (shard_models (self s)) []) as [[all|e] ev];
      cbn [fst]; [intros _; exact (Hg all eq_refl) | discriminate]].
  set (all := flat_map (shard_hits W query) (shard_models (self s))).
  exists (firstn (Z.to_nat k) (sort_by_score_desc all)),
         (sort_by_score_desc all).
  split; [|split; [|split; [|split; [|split]]]].
  - rewrite search_run. unfold search_result. rewrite Hloaded. simpl.
    rewrite gather_all_fine by exact Hall. simpl. fold all.
    f_equal. f_equal.
    destruct all as [|h all']; simpl Py.nonempty; cbv iota.
    + simpl. now rewrite firstn_nil.
    + simpl negb. cbv iota. now apply slice_to_firstn.
  - apply sort_by_score_desc_perm.
  - apply sort_by_score_desc_sorted.
  - reflexivity.
  - rewrite length_firstn. lia.
  - apply firstn_sorted, sort_by_score_desc_sorted.
Qed.

(** ** [ask] *)

(** The text that [_generate_with_ollama] returns once the server has been
    reached. *)
Definition generated (W : World) (model prompt context : string) : string :=
  match ollama_generate W model (full_prompt prompt context) with
  | Fine response => get response "Sorry, failed to generate answer."
  | Failed what => "Error generating answer: " ++ what
  end.

Lemma _generate_with_ollama_run W prompt context s :
  _generate_with_ollama W prompt context s
  = if ollama_alive W then
      (Returned (generated W (ollama_model (self s)) prompt context),
       log s [OllamaTags;
              OllamaGenerate (ollama_model (self s))
                             (full_prompt prompt context)])
    else (Raised (GenerationUnavailable (ollama_url (self s))),
          log s [OllamaTags]).
Proof.
  unfold _generate_with_ollama, generated, bind, try_except, get_self.
  rewrite call_run. destruct (ollama_alive W); cbn [negb]; [|reflexivity].
  rewrite call_run.
  destruct (ollama_generate W (ollama_model (self (log s [OllamaTags])))
                            (full_prompt prompt context)) eqn:Hgen;
    cbn [self log] in Hgen; rewrite Hgen; unfold ret; rewrite log_log;
    reflexivity.
Qed.

Lemma gather_events W query shards acc :
  Forall (fun e => exists index_path k, e = ModelSearch index_path query k)
         (snd (gather W query shards acc)).
Proof.
  revert acc. induction shards as [|[path model] rest IH]; intros acc; simpl.
  - constructor.
  - destruct (model_search model query 2) as [results|what].
    + specialize (IH (acc ++ formatted W path results)).
      destruct (gather W query rest (acc ++ formatted W path results)).
      simpl in *. constructor; eauto.
    + simpl. constructor; eauto.
Qed.

Lemma search_events W o query k :
  Forall (fun e => exists index_path k', e = ModelSearch index_path query k')
         (snd (search_result W o query k)).
Proof.
  unfold search_result. destruct (negb (index_loaded o)); [constructor|].
  pose proof (gather_events W query (shard_models o) []) as H.
  destruct (gather W query (shard_models o) []). exact H.
Qed.

Lemma search_returns W query k s r s1 :
  search W query k s = (r, s1) ->
  search_result W (self s) query k
  = (r, snd (search_result W (self s) query k))
  /\ s1 = log s (snd (search_result W (self s) query k)).
Proof.
  rewrite search_run. intros H. inversion H; subst.
  destruct (search_result W (self s) query k). split; reflexivity.
Qed.

(** A call of the completion provider: the probe of the server or the
    request for a completion. *)
Definition completion_call (e : event) : bool :=
  match e with
  | OllamaTags | OllamaGenerate _ _ => true
  | _ => false
  end.

(** C8.  When [search] returns an empty list, [ask] returns the fixed
    answer that no relevant information was found, with no source and no
    search result, and leaves the state as [search] left it: between the
    call and the return only shard queries are made, and the completion
    provider is not called. *)
Theorem ask_without_results (W : World) (s s1 : state) (question : string)
        (k : Z) :
  search W question k s = (Returned [], s1) ->
  ask W question k s
  = (Returned
       {| answer :=
            "Sorry, no relevant information found to answer your question.";
          sources := []; search_results := [] |},
     s1)
  /\ exists made : list event,
       s1 = log s made
       /\ forallb (fun e => negb (completion_call e)) made = true.
Proof.
  intros Hsearch. split.
  - unfold ask, bind. rewrite Hsearch. reflexivity.
  - apply search_returns in Hsearch. destruct Hsearch as [_ ->].
    eexists. split; [reflexivity|].
    apply forallb_forall. intros e He.
    pose proof (search_events W (self s) question k) as Hev.
    rewrite Forall_forall in Hev.
    destruct (Hev e He) as [p [k' ->]]. reflexivity.
Qed.

Definition compression_notice (original : nat) : string :=
  "Compression: " ++ Py.str_of_nat original ++ " -> " ++ Py.str_of_nat 0
  ++ " documents".

Definition all_filtered_warning : string :=
  "Warning: compressor filtered all documents. Using originals.".

(** C7.  When compression is on, [search] has returned a list that is not
    empty and the compressor returns an empty list for it, [ask] runs
    [search] once more with the same question and [k] (the shard queries
    [made] are made a second time, after the warning), drops the empty list,
    and builds the context, the sources and the search results of the answer
    from what [search] returned; the completion provider is called with that
    context. *)
Theorem ask_recovers_from_empty_compression (W : World) (s s1 : state)
        (question : string) (k : Z) (found : list SearchHit)
        (c : DocumentCompressor) :
  search W question k s = (Returned found, s1) ->
  found <> [] ->
  use_compression (self s) = true ->
  compressor (self s) = Some c ->
  compress_documents c found question = Fine [] ->
  exists made : list event,
    s1 = log s made
    /\ ask W question k s
       = if ollama_alive W then
           (Returned
              {| answer := generated W (ollama_model (self s)) question
                                     (context_of found);
                 sources := map source_of found;
                 search_results := found |},
            log s (made
                   ++ [Compress question;
                       Printed (compression_notice (List.length found));
                       Printed all_filtered_warning]
                   ++ made
                   ++ [OllamaTags;
                       OllamaGenerate (ollama_model (self s))
                                      (full_prompt question
                                                   (context_of found))]))
         else
           (Raised (GenerationUnavailable (ollama_url (self s))),
            log s (made
                   ++ [Compress question;
                       Printed (compression_notice (List.length found));
                       Printed all_filtered_warning]
                   ++ made ++ [OllamaTags])).
Proof.
  intros Hsearch Hfound Huse Hc Hcompress.
  pose proof (search_returns _ _ _ _ _ _ Hsearch) as [Hres Hs1].
  set (made := snd (search_result W (self s) question k)) in *.
  exists made. split; [exact Hs1|].
  unfold ask. unfold bind at 1. rewrite Hsearch.
  destruct found as [|hit rest]; [contradiction|].
  set (found := hit :: rest) in *.
  change (negb (Py.nonempty found)) with false. cbv iota.
  unfold bind at 1. unfold get_self at 1.
  subst s1. cbn [self log]. rewrite Huse, Hc.
  unfold bind at 1.
  assert (Hcomp : compression W c question k found (log s made)
                  = (Returned found,
                     log s (made
                            ++ [Compress question;
                                Printed (compression_notice
                                           (List.length found));
                                Printed all_filtered_warning]
                            ++ made))).
  { unfold compression. unfold try_except at 1. unfold bind at 1.
    rewrite call_run, Hcompress.
    change (List.length (@nil SearchHit)) with 0%nat.
    change (0 <? List.length found)%nat with true.
    change (0 =? 0)%nat with true. cbn [andb].
    unfold bind at 1. unfold print at 1. rewrite emit_run.
    unfold bind at 1. unfold print at 1. rewrite emit_run.
    unfold try_except. rewrite search_run. cbn [self log].
    rewrite Hres. cbn [fst snd]. rewrite !log_log. reflexivity. }
  rewrite Hcomp. cbv beta iota. unfold bind at 1.
  rewrite _generate_with_ollama_run. cbn [self log].
  destruct (ollama_alive W); unfold ret; rewrite log_log, <- !app_assoc;
    reflexivity.
Qed.

(** ** [load_index]: the loop over the candidate paths *)

(** The path that a candidate resolves to, as [load_index] tests it with
    [if path:]. *)
Definition resolved (W : World) (base : string) : option string :=
  match _get_index_path W base with
  | Some path => if Py.truthy path then Some path else None
  | None => None
  end.

Lemma resolved_get_index_path W base :
  (forall p, abspath W p <> EmptyString) ->
  resolved W base = _get_index_path W base.
Proof.
  intros Habs. unfold resolved, _get_index_path.
  destruct (path_exists W (in_index_store (basename (abspath W base)))).
  - destruct (in_index_store (basename (abspath W base))) eqn:H;
      [|reflexivity].
    unfold in_index_store in H.
    destruct (basename (abspath W base)) as [|c b]; [discriminate|].
    simpl in H. unfold path_join in H. destruct (is_slash c).
    + discriminate.
    + simpl in H. discriminate.
  - destruct (path_exists W (abspath W base)); [|reflexivity].
    destruct (abspath W base) eqn:H; [|reflexivity].
    now apply Habs in H.
Qed.

(** The candidates that resolve, each with its path, in order. *)
Definition candidates_resolved (W : World) (bases : list string)
  : list (string * string) :=
  flat_map (fun base =>
              match resolved W base with
              | Some path => [(base, path)]
              | None => []
              end) bases.

Definition preload_warning (path what : string) : string :=
  "Warning: failed to preload index " ++ path ++ ": " ++ what.

(** What the warm-up query of a shard leaves in the output. *)
Definition warmup_events (path : string) (model : Model) : list event :=
  ModelSearch path " " 1
  :: match model_search model " " 1 with
     | Fine _ => []
     | Failed what => [Printed (preload_warning path what)]
     end.

(** The state after shards have been appended and output written. *)
Definition add_shards (shards : list (string * Model)) (ev : list event)
           (s : state) : state :=
  {| self := with_shard_models (shard_models (self s) ++ shards) (self s);
     events := events s ++ ev |}.

Lemma add_shards_nil s : add_shards [] [] s = s.
Proof.
  destruct s as [o ev]. destruct o. unfold add_shards, with_shard_models.
  simpl. now rewrite !app_nil_r.
Qed.

Lemma add_shards_nil_log ev s : add_shards [] ev s = log s ev.
Proof.
  destruct s as [o ev0]. destruct o. unfold add_shards, with_shard_models, log.
  simpl. now rewrite !app_nil_r.
Qed.

Lemma add_shards_add_shards sh ev sh' ev' s :
  add_shards sh' ev' (add_shards sh ev s) = add_shards (sh ++ sh') (ev ++ ev') s.
Proof.
  unfold add_shards, with_shard_models. simpl. now rewrite !app_assoc.
Qed.

(** One turn of the loop: its value, the shards it appends, its output. *)
Definition shard_load (W : World) (existing : list (string * string))
           (base : string)
  : outcome (list (string * string)) * list (string * Model) * list event :=
  match resolved W base with
  | None => (Returned existing, [], [])
  | Some path =>
      let loading :=
        [Printed ("Loading model from index " ++ abspath W path);
         FromIndex (abspath W path)] in
      match from_index W (abspath W path) with
      | Failed what => (Raised (External what), [], loading)
      | Fine model =>
          (Returned (existing ++ [(base, path)]), [(path, model)],
           loading ++ warmup_events path model)
      end
  end.

Lemma load_step_run W existing base s :
  load_step W existing base s
  = let '(r, shards, ev) := shard_load W existing base in
    (r, add_shards shards ev s).
Proof.
  unfold load_step, shard_load, resolved.
  destruct (_get_index_path W base) as [path|];
    [|unfold ret; now rewrite add_shards_nil].
  destruct (Py.truthy path); [|unfold ret; now rewrite add_shards_nil].
  unfold bind at 1. unfold print at 1. rewrite emit_run.
  unfold bind at 1. rewrite call_run.
  destruct (from_index W (abspath W path)) as [model|what].
  - unfold bind at 1. unfold try_except, bind at 1. rewrite call_run.
    unfold warmup_events.
    destruct (model_search model " " 1) as [results|what];
      unfold ret, print, bind, set_self; rewrite ?emit_run;
      unfold add_shards, log; simpl; rewrite <- ?app_assoc; reflexivity.
  - rewrite log_log, add_shards_nil_log. reflexivity.
Qed.

(** The whole loop. *)
Fixpoint shards_load (W : World) (bases : list string)
         (existing : list (string * string))
  : outcome (list (string * string)) * list (string * Model) * list event :=
  match bases with
  | [] => (Returned existing, [], [])
  | base :: rest =>
      match shard_load W existing base with
      | (Returned existing', shards, ev) =>
          let '(r, shards', ev') := shards_load W rest existing' in
          (r, shards ++ shards', ev ++ ev')
      | (Raised e, shards, ev) => (Raised e, shards, ev)
      end
  end.

Lemma load_loop_run W bases existing s :
  for_each bases (load_step W) existing s
  = let '(r, shards, ev) := shards_load W bases existing in
    (r, add_shards shards ev s).
Proof.
  revert existing s. induction bases as [|base rest IH]; intros existing s.
  - simpl. unfold ret. now rewrite add_shards_nil.
  - simpl. unfold bind. rewrite load_step_run.
    destruct (shard_load W existing base) as [[[existing'|e] shards] ev].
    + rewrite IH.
      destruct (shards_load W rest existing') as [[r shards'] ev'].
      now rewrite add_shards_add_shards.
    + reflexivity.
Qed.

(** A shard whose handle the provider has constructed from its path. *)
Definition constructed (W : World) (shard : string * Model) : Prop :=
  from_index W (abspath W (fst shard)) = Fine (snd shard).

Lemma shards_load_sound W bases existing :
  let '(r, shards, ev) := shards_load W bases existing in
  Forall (constructed W) shards
  /\ (exists rest,
         map snd (candidates_resolved W bases) = map fst shards ++ rest)
  /\ (forall shard what,
         In shard shards ->
         model_search (snd shard) " " 1 = Failed what ->
         In (Printed (preload_warning (fst shard) what)) ev)
  /\ (forall existing',
         r = Returned existing' ->
         existing' = existing ++ candidates_resolved W bases
         /\ map fst shards = map snd (candidates_resolved W bases))
  /\ (forall e, r = Raised e -> exists what, e = External what).
Proof.
  revert existing. induction bases as [|base rest IH]; intros existing.
  - simpl. split; [|split; [|split; [|split]]].
    + constructor.
    + exists []. reflexivity.
    + intros shard what [].
    + intros existing' H. inversion H. now rewrite app_nil_r.
    + intros e H. discriminate.
  - simpl. unfold shard_load.
    destruct (resolved W base) as [path|] eqn:Hres.
    + destruct (from_index W (abspath W path)) as [model|what] eqn:Hfrom.
      * specialize (IH (existing ++ [(base, path)])).
        destruct (shards_load W rest (existing ++ [(base, path)]))
          as [[r shards'] ev'].
        destruct IH as [Hcons [[tail Hpre] [Hwarm [Hret Hraise]]]].
        split; [|split; [|split; [|split]]].
        -- constructor; [exact Hfrom | exact Hcons].
        -- exists tail. simpl. now rewrite Hpre.
        -- intros shard what [<-|Hin] Hfail.
           ++ simpl in *. unfold warmup_events. rewrite Hfail.
              right. right. right. left. reflexivity.
           ++ apply in_or_app. right. eauto.
        -- intros existing' Hr. destruct (Hret _ Hr) as [-> Hfst].
           split; [now rewrite <- app_assoc|]. simpl. now rewrite Hfst.
        -- exact Hraise.
      * split; [|split; [|split; [|split]]].
        -- constructor.
        -- eexists. reflexivity.
        -- intros shard what' [].
        -- intros existing' H. discriminate.
        -- intros e H. inversion H. eauto.
    + specialize (IH existing).
      destruct (shards_load W rest existing) as [[r shards'] ev'].
      simpl. exact IH.
Qed.

(** ** [load_index]: the whole method *)

Definition loaded_line (n : nat) : string :=
  "RAG models from indexes are loaded, n=" ++ Py.str_of_nat n.

Definition found_lines (existing : list (string * string)) : list event :=
  Printed "Found indexes for search:"
  :: map (fun bp => Printed ("Base: " ++ fst bp ++ " -> index path: "
                             ++ snd bp)) existing.

Lemma print_loop_run {A} (f : A -> string) (l : list A) s :
  for_each l (fun _ x => print (f x)) tt s
  = (Returned tt, log s (map (fun x => Printed (f x)) l)).
Proof.
  revert s. induction l as [|x l IH]; intros s; simpl.
  - unfold ret. now rewrite log_nil.
  - unfold bind, print. rewrite emit_run.
    change (fun (_ : unit) (x0 : A) => emit (Printed (f x0)))
      with (fun (_ : unit) (x0 : A) => print (f x0)).
    rewrite IH, log_log. reflexivity.
Qed.

(** [load_index] once the candidate paths are settled. *)
Definition load_result (W : World) (s : state) : outcome unit * state :=
  let '(r, shards, ev) := shards_load W (index_paths (self s)) [] in
  match r with
  | Raised e => (Raised e, add_shards shards ev s)
  | Returned existing =>
      let s1 :=
        add_shards shards
          (ev ++ [Printed (loaded_line
                             (List.length (shard_models (self s) ++ shards)))])
          s in
      if Py.nonempty existing then
        (Returned tt,
         {| self := with_index_loaded true (self s1);
            events := events s1 ++ found_lines existing |})
      else (Raised NoIndexFound, s1)
  end.

Lemma load_index_run W s : load_index W false s = load_result W s.
Proof.
  unfold load_index, load_result.
  unfold bind at 1. unfold ret at 1. cbv beta iota.
  unfold bind at 1. unfold get_self at 1. cbv beta iota.
  unfold bind at 1. rewrite load_loop_run.
  destruct (shards_load W (index_paths (self s)) [])
    as [[[existing|e] shards] ev]; [|reflexivity].
  unfold bind at 1. unfold get_self at 1. cbv beta iota.
  unfold bind at 1. unfold print at 1. rewrite emit_run.
  destruct existing as [|bp existing]; cbn [Py.nonempty negb].
  - unfold raise, add_shards, log, loaded_line. simpl.
    now rewrite <- app_assoc.
  - unfold bind at 1. unfold set_self at 1. cbv beta iota.
    unfold bind at 1. unfold print at 1. rewrite emit_run.
    rewrite (print_loop_run
               (fun bp => "Base: " ++ fst bp ++ " -> index path: " ++ snd bp)%string).
    unfold add_shards, log, found_lines, loaded_line. simpl.
    rewrite <- !app_assoc. reflexivity.
Qed.

(** The first part of [load_index]. *)
Definition discovery (W : World) (auto_discover : bool) : M unit :=
  if auto_discover then auto_discovery W else ret tt.

Lemma load_index_phases W auto_discover s :
  load_index W auto_discover s
  = match discovery W auto_discover s with
    | (Returned _, s0) => load_index W false s0
    | (Raised e, s0) => (Raised e, s0)
    end.
Proof. reflexivity. Qed.

(** A statement that leaves the shard list and the loaded flag alone. *)
Definition keeps_shards {A} (m : M A) : Prop :=
  forall s,
    shard_models (self (snd (m s))) = shard_models (self s)
    /\ index_loaded (self (snd (m s))) = index_loaded (self s).

Lemma keeps_ret {A} (a : A) : keeps_shards (ret a).
Proof. intros s. split; reflexivity. Qed.

Lemma keeps_emit e : keeps_shards (emit e).
Proof. intros s. split; reflexivity. Qed.

Lemma keeps_call {A} e (x : external A) : keeps_shards (call e x).
Proof. intros s. split; reflexivity. Qed.

Lemma keeps_bind {A B} (m : M A) (f : A -> M B) :
  keeps_shards m -> (forall a, keeps_shards (f a)) -> keeps_shards (bind m f).
Proof.
  intros Hm Hf s. unfold bind. specialize (Hm s).
  destruct (m s) as [[a|e] s']; simpl in *; [|exact Hm].
  destruct (Hf a s') as [H1 H2]. destruct Hm as [H3 H4].
  split; congruence.
Qed.

Lemma keeps_for_each {A B} (l : list A) (body : B -> A -> M B) acc :
  (forall acc x, keeps_shards (body acc x)) ->
  keeps_shards (for_each l body acc).
Proof.
  intros Hbody. revert acc. induction l as [|x l IH]; intros acc; simpl.
  - apply keeps_ret.
  - apply keeps_bind; auto.
Qed.

Lemma keeps_discover_step W base_dir discovered item :
  keeps_shards (discover_step W base_dir discovered item).
Proof.
  unfold discover_step. apply keeps_bind; [apply keeps_emit|].
  intros _. destruct (isdir W _); [|apply keeps_ret].
  destruct (_ || _); apply keeps_ret.
Qed.

Lemma keeps_discover_indexes W base_dir :
  keeps_shards (_discover_indexes W base_dir).
Proof.
  unfold _discover_indexes. destruct (negb _).
  - apply keeps_bind; [apply keeps_emit | intros; apply keeps_ret].
  - apply keeps_bind; [apply keeps_call|]. intros items.
    apply keeps_for_each. intros. apply keeps_discover_step.
Qed.

Lemma keeps_auto_discovery W : keeps_shards (auto_discovery W).
Proof.
  unfold auto_discovery. apply keeps_bind.
  - intros s. split; reflexivity.
  - intros o. apply keeps_bind.
    + apply keeps_for_each. intros acc x.
      apply keeps_bind; [apply keeps_discover_indexes|].
      intros. apply keeps_ret.
    + intros found. destruct (Py.nonempty found); [|apply keeps_emit].
      apply keeps_bind; [intros s; split; reflexivity|]. intros _.
      apply keeps_bind; [apply keeps_emit|]. intros _.
      apply keeps_for_each. intros. apply keeps_emit.
Qed.

Lemma keeps_discovery W auto_discover :
  keeps_shards (discovery W auto_discover).
Proof.
  destruct auto_discover; [apply keeps_auto_discovery | apply keeps_ret].
Qed.

(** A statement that raises nothing but the exceptions of the library calls
    it makes. *)
Definition library_errors_only {A} (m : M A) : Prop :=
  forall s e, fst (m s) = Raised e -> exists what, e = External what.

Lemma library_ret {A} (a : A) : library_errors_only (ret a).
Proof. intros s e H. discriminate. Qed.

Lemma library_emit e : library_errors_only (emit e).
Proof. intros s e' H. discriminate. Qed.

Lemma library_call {A} e (x : external A) : library_errors_only (call e x).
Proof.
  intros s e' H. rewrite call_run in H. destruct x; simpl in H;
    [discriminate|]. inversion H. eauto.
Qed.

Lemma library_bind {A B} (m : M A) (f : A -> M B) :
  library_errors_only m -> (forall a, library_errors_only (f a)) ->
  library_errors_only (bind m f).
Proof.
  intros Hm Hf s e. unfold bind. specialize (Hm s).
  destruct (m s) as [[a|e'] s']; simpl in *; [apply Hf|].
  intros H. inversion H; subst. now apply Hm.
Qed.

Lemma library_for_each {A B} (l : list A) (body : B -> A -> M B) acc :
  (forall acc x, library_errors_only (body acc x)) ->
  library_errors_only (for_each l body acc).
Proof.
  intros Hbody. revert acc. induction l as [|x l IH]; intros acc; simpl.
  - apply library_ret.
  - apply library_bind; auto.
Qed.

Lemma library_discover_indexes W base_dir :
  library_errors_only (_discover_indexes W base_dir).
Proof.
  unfold _discover_indexes. destruct (negb _).
  - apply library_bind; [apply library_emit | intros; apply library_ret].
  - apply library_bind; [apply library_call|]. intros items.
    apply library_for_each. intros acc item. unfold discover_step.
    apply library_bind; [apply library_emit|].
    intros _. destruct (isdir W _); [|apply library_ret].
    destruct (_ || _); apply library_ret.
Qed.

Lemma library_discovery W auto_discover :
  library_errors_only (discovery W auto_discover).
Proof.
  destruct auto_discover; [|apply library_ret].
  unfold discovery, auto_discovery. apply library_bind.
  - intros s e H. discriminate.
  - intros o. apply library_bind.
    + apply library_for_each. intros acc x.
      apply library_bind; [apply library_discover_indexes|].
      intros. apply library_ret.
    + intros found. destruct (Py.nonempty found); [|apply library_emit].
      apply library_bind; [intros s e H; discriminate|]. intros _.
      apply library_bind; [apply library_emit|]. intros _.
      apply library_for_each. intros. apply library_emit.
Qed.

Lemma load_result_index_paths W s :
  index_paths (self (snd (load_result W s))) = index_paths (self s).
Proof.
  unfold load_result.
  destruct (shards_load W (index_paths (self s)) [])
    as [[[existing|e] shards] ev]; [|reflexivity].
  destruct (Py.nonempty existing); reflexivity.
Qed.

Lemma in_candidates_resolved W bases base path :
  In (base, path) (candidates_resolved W bases)
  <-> In base bases /\ resolved W base = Some path.
Proof.
  unfold candidates_resolved. rewrite in_flat_map. split.
  - intros [b [Hb Hin]]. destruct (resolved W b) as [p|] eqn:Hres.
    + destruct Hin as [Heq|[]]. inversion Heq; subst. auto.
    + destruct Hin.
  - intros [Hb Hres]. exists base. rewrite Hres. split; [exact Hb|].
    now left.
Qed.

Lemma candidates_resolved_nil W bases :
  candidates_resolved W bases = []
  <-> forall base, In base bases -> resolved W base = None.
Proof.
  split.
  - intros Hnil base Hb. destruct (resolved W base) as [path|] eqn:Hres;
      [|reflexivity].
    assert (Hin : In (base, path) (candidates_resolved W bases))
      by now apply in_candidates_resolved.
    rewrite Hnil in Hin. destruct Hin.
  - intros Hnone. destruct (candidates_resolved W bases) as [|[b p] l] eqn:Hc;
      [reflexivity|].
    assert (Hin : In (b, p) (candidates_resolved W bases))
      by (rewrite Hc; now left).
    apply in_candidates_resolved in Hin. destruct Hin as [Hb Hres].
    rewrite (Hnone b Hb) in Hres. discriminate.
Qed.

(** A candidate for which the provider constructs a handle. *)
Definition constructs (W : World) (candidate : string * string) : Prop :=
  exists model, from_index W (abspath W (snd candidate)) = Fine model.

(** When every handle can be constructed the loop comes to its end, whatever
    the warm-up queries do. *)
Lemma shards_load_all W bases existing :
  Forall (constructs W) (candidates_resolved W bases) ->
  exists shards ev,
    shards_load W bases existing
    = (Returned (existing ++ candidates_resolved W bases), shards, ev).
Proof.
  revert existing. induction bases as [|base rest IH]; intros existing Hall.
  - exists [], []. simpl. now rewrite app_nil_r.
  - change (candidates_resolved W (base :: rest))
      with (match resolved W base with
            | Some path => [(base, path)]
            | None => []
            end ++ candidates_resolved W rest) in *.
    cbn [shards_load]. unfold shard_load.
    destruct (resolved W base) as [path|].
    + apply Forall_app in Hall. destruct Hall as [Hhere Hrest].
      inversion Hhere as [|? ? [model Hmodel] _]; subst.
      cbn [snd] in Hmodel. rewrite Hmodel.
      destruct (IH (existing ++ [(base, path)]) Hrest) as [shards [ev Heq]].
      rewrite Heq. cbn [app]. rewrite <- app_assoc.
      eexists. eexists. reflexivity.
    + destruct (IH existing Hall) as [shards [ev Heq]].
      rewrite Heq. eexists. eexists. reflexivity.
Qed.

(** The loop stops at the first candidate whose handle cannot be
    constructed, with the shards of the candidates before it. *)
Lemma shards_load_first_failure W bases existing before base path after what :
  candidates_resolved W bases = before ++ (base, path) :: after ->
  Forall (constructs W) before ->
  from_index W (abspath W path) = Failed what ->
  exists shards ev,
    shards_load W bases existing = (Raised (External what), shards, ev)
    /\ map fst shards = map snd before.
Proof.
  revert existing before.
  induction bases as [|base0 rest IH]; intros existing before Hsplit Hbefore Hfail.
  - simpl in Hsplit. destruct before; discriminate.
  - change (candidates_resolved W (base0 :: rest))
      with (match resolved W base0 with
            | Some path => [(base0, path)]
            | None => []
            end ++ candidates_resolved W rest) in Hsplit.
    cbn [shards_load]. unfold shard_load.
    destruct (resolved W base0) as [path0|].
    + destruct before as [|first before]; cbn [app] in Hsplit;
        inversion Hsplit; subst.
      * rewrite Hfail. eexists. eexists. split; reflexivity.
      * inversion Hbefore as [|? ? [model Hmodel] Hrest]; subst.
        cbn [snd] in Hmodel. rewrite Hmodel.
        destruct (IH (existing ++ [(base0, path0)]) before H1 Hrest Hfail)
          as [shards [ev [Heq Hpaths]]].
        rewrite Heq. eexists. eexists. split; [reflexivity|].
        cbn [app map fst snd]. now rewrite Hpaths.
    + cbn [app] in Hsplit.
      destruct (IH existing before Hsplit Hbefore Hfail)
        as [shards [ev [Heq Hpaths]]].
      rewrite Heq. eexists. eexists. split; [reflexivity | exact Hpaths].
Qed.

(** C1, as the code has it.  [load_index] appends to the shard list, in
    order, a shard for candidate paths that resolve, each with the handle
    that the provider constructed from its path, and removes nothing; for a
    shard in the list whose warm-up query failed the warning is in the
    output.  Once the candidate paths are settled there are two cases.  When
    the handle of every candidate that resolves can be constructed, every
    such candidate is appended, whatever its warm-up query does: a
    candidate whose warm-up query fails is in the list, with the warning in
    the output, and the failure does not end the load, which returns and
    marks the object as loaded when there is a candidate at all.  When
    the handle of some candidate cannot be constructed, [load_index] raises
    the exception of the provider at the first such candidate: the shards of
    the candidates before it are appended and stay, no later one is, and
    the loaded flag is left as it was. *)
Theorem load_index_shards (W : World) (auto_discover : bool) (s : state) :
  let r := fst (load_index W auto_discover s) in
  let s' := snd (load_index W auto_discover s) in
  let candidates := candidates_resolved W (index_paths (self s')) in
  exists loaded : list (string * Model),
    shard_models (self s') = shard_models (self s) ++ loaded
    /\ Forall (fun shard =>
                 from_index W (abspath W (fst shard)) = Fine (snd shard))
              loaded
    /\ (exists rest, map snd candidates = map fst loaded ++ rest)
    /\ (forall shard what,
           In shard loaded ->
           model_search (snd shard) " " 1 = Failed what ->
           In (Printed (preload_warning (fst shard) what)) (events s'))
    /\ (r = Returned tt -> map fst loaded = map snd candidates)
    /\ (forall base path what,
           In (base, path) candidates ->
           from_index W (abspath W path) = Failed what ->
           exists e, r = Raised e)
    /\ (fst (discovery W auto_discover s) = Returned tt ->
        Forall (constructs W) candidates ->
        map fst loaded = map snd candidates
        /\ (forall base path model what,
               In (base, path) candidates ->
               from_index W (abspath W path) = Fine model ->
               model_search model " " 1 = Failed what ->
               In (path, model) loaded
               /\ In (Printed (preload_warning path what)) (events s'))
        /\ (candidates <> [] ->
            r = Returned tt /\ index_loaded (self s') = true)
        /\ (candidates = [] ->
            r = Raised NoIndexFound
            /\ index_loaded (self s') = index_loaded (self s)))
    /\ (fst (discovery W auto_discover s) = Returned tt ->
        forall before base path after what,
          candidates = before ++ (base, path) :: after ->
          Forall (constructs W) before ->
          from_index W (abspath W path) = Failed what ->
          r = Raised (External what)
          /\ map fst loaded = map snd before
          /\ index_loaded (self s') = index_loaded (self s)).
Proof.
  cbv zeta. rewrite load_index_phases.
  pose proof (keeps_discovery W auto_discover s) as [Hkeep Hflag].
  destruct (discovery W auto_discover s) as [[[]|e] s0];
    simpl in Hkeep, Hflag.
  - rewrite load_index_run.
    rewrite load_result_index_paths. unfold load_result.
    pose proof (shards_load_sound W (index_paths (self s0)) []) as Hsound.
    pose proof (shards_load_all W (index_paths (self s0)) []) as Hall.
    pose proof (shards_load_first_failure W (index_paths (self s0)) [])
      as Hfirst.
    destruct (shards_load W (index_paths (self s0)) [])
      as [[[existing|e] shards] ev].
    + destruct Hsound as [Hcons [Hpre [Hwarm [Hret _]]]].
      destruct (Hret existing eq_refl) as [Hex Hfst].
      exists shards.
      assert (Hfatal : forall base path what,
                 In (base, path)
                    (candidates_resolved W (index_paths (self s0))) ->
                 from_index W (abspath W path) = Failed what -> False).
      { intros base path what Hin Hfail.
        assert (Hp : In path (map fst shards)).
        { rewrite Hfst. apply in_map_iff. exists (base, path). auto. }
        apply in_map_iff in Hp. destruct Hp as [[p m] [Heq Hsh]].
        simpl in Heq. subst p.
        rewrite Forall_forall in Hcons. specialize (Hcons _ Hsh).
        unfold constructed in Hcons. simpl in Hcons. congruence. }
      assert (Hkept : forall base path model,
                 In (base, path)
                    (candidates_resolved W (index_paths (self s0))) ->
                 from_index W (abspath W path) = Fine model ->
                 In (path, model) shards).
      { intros base path model Hin Hmodel.
        assert (Hp : In path (map fst shards)).
        { rewrite Hfst. apply in_map_iff. exists (base, path). auto. }
        apply in_map_iff in Hp. destruct Hp as [[p m] [Heq Hsh]].
        simpl in Heq. subst p.
        rewrite Forall_forall in Hcons. pose proof (Hcons _ Hsh) as Hm.
        unfold constructed in Hm. simpl in Hm.
        assert (m = model) by congruence. now subst m. }
      simpl in Hex. subst existing.
      destruct (candidates_resolved W (index_paths (self s0)))
        as [|candidate others] eqn:Hcand; cbn [Py.nonempty snd fst self].
      * split; [simpl; now rewrite Hkeep|]. split; [exact Hcons|].
        split; [exact Hpre|]. split.
        { intros shard what Hin Hfail. simpl.
          apply in_or_app. right. apply in_or_app. left. eauto. }
        split; [discriminate|]. split; [intros base path what []|].
        split.
        { intros _ _. split; [exact Hfst|]. split; [intros ? ? ? ? []|].
          split; [intros Hne; now destruct Hne|].
          intros _. split; [reflexivity|]. cbn. exact Hflag. }
        { intros _ before base path after what Hsplit.
          destruct before; discriminate. }
      * split; [simpl; now rewrite Hkeep|]. split; [exact Hcons|].
        split; [exact Hpre|]. split.
        { intros shard what Hin Hfail. simpl.
          apply in_or_app. left. apply in_or_app. right.
          apply in_or_app. left. eauto. }
        split; [intros _; exact Hfst|].
        split; [intros base path what Hin Hfail; exfalso; eauto|].
        split.
        { intros _ _. split; [exact Hfst|]. split.
          - intros base path model what Hin Hmodel Hfail.
            pose proof (Hkept base path model Hin Hmodel) as Hsh.
            split; [exact Hsh|]. simpl.
            apply in_or_app. left. apply in_or_app. right.
            apply in_or_app. left. apply (Hwarm (path, model) what Hsh Hfail).
          - split; [intros _; split; reflexivity | discriminate]. }
        { intros _ before base path after what Hsplit Hbefore Hfail.
          exfalso. apply (Hfatal base path what); [|exact Hfail].
          rewrite Hsplit. apply in_or_app. right. now left. }
    + destruct Hsound as [Hcons [Hpre [Hwarm _]]]. exists shards.
      cbn [snd fst self].
      split; [simpl; now rewrite Hkeep|]. split; [exact Hcons|].
      split; [exact Hpre|]. split.
      { intros shard what Hin Hfail. simpl. apply in_or_app. right. eauto. }
      split; [discriminate|]. split; [eauto|]. split.
      { intros _ Hevery. destruct (Hall Hevery) as [sh [ev' Heq]].
        discriminate. }
      { intros _ before base path after what Hsplit Hbefore Hfail.
        destruct (Hfirst before base path after what Hsplit Hbefore Hfail)
          as [sh [ev' [Heq Hpaths]]].
        inversion Heq; subst. split; [reflexivity|].
        split; [exact Hpaths|]. simpl. exact Hflag. }
  - exists []. simpl. split; [now rewrite app_nil_r, Hkeep|].
    split; [constructor|]. split; [eexists; reflexivity|].
    split; [intros shard what []|]. split; [discriminate|].
    split; [eauto|]. split; discriminate.
Qed.

(** ** The two errors *)

Lemma shards_load_none W bases existing :
  candidates_resolved W bases = [] ->
  shards_load W bases existing = (Returned existing, [], []).
Proof.
  induction bases as [|base rest IH]; intros Hnil; simpl; [reflexivity|].
  simpl in Hnil. apply app_eq_nil in Hnil. destruct Hnil as [Hbase Hrest].
  unfold shard_load. destruct (resolved W base); [discriminate|].
  now rewrite IH.
Qed.

Lemma gather_raises W query shards acc e :
  fst (gather W query shards acc) = Raised e -> exists what, e = External what.
Proof.
  revert acc. induction shards as [|[path model] rest IH]; intros acc; simpl.
  - discriminate.
  - destruct (model_search model query 2) as [results|what].
    + specialize (IH (acc ++ formatted W path results)).
      destruct (gather W query rest (acc ++ formatted W path results)).
      exact IH.
    + simpl. intros H. inversion H. eauto.
Qed.

(** The flag after a statement that leaves it alone and does not return
    normally. *)
Ltac flag_unchanged :=
  split; [auto|];
  let H := fresh in
  intros [H|H]; [exact H | first [discriminate H | destruct H; discriminate]].

Lemma build_index_effect W jsonl_path force_rebuild s :
  let r := fst (build_index W jsonl_path force_rebuild s) in
  let s' := snd (build_index W jsonl_path force_rebuild s) in
  shard_models (self s') = shard_models (self s)
  /\ (index_loaded (self s') = true <->
      index_loaded (self s) = true
      \/ (r = Returned tt
          /\ path_exists W (index_path (self s)) && negb force_rebuild
             = false)).
Proof.
  cbv zeta.
  remember (build_index W jsonl_path force_rebuild s) as res eqn:Hres.
  unfold build_index, bind, print, emit, call, set_self, get_self, ret
    in Hres.
  destruct (path_exists W (index_path (self s)) && negb force_rebuild).
  - subst res. simpl. split; [reflexivity | flag_unchanged].
  - destruct (read_jsonl W jsonl_path) as [docs|what];
      [|subst res; simpl; split; [reflexivity | flag_unchanged]].
    destruct (build_colbert W _ _);
      [|subst res; simpl; split; [reflexivity | flag_unchanged]].
    destruct (write_json W _ _);
      [|subst res; simpl; split; [reflexivity | flag_unchanged]].
    subst res. simpl. split; [reflexivity|]. split; auto.
Qed.

(** C6, as the code has it.  [search] raises NotLoaded exactly when the
    loaded flag of the object is unset.  The flag is unset on a new object,
    which has no shard; [load_index] sets it exactly when it returns, and
    then at least one shard is loaded; [build_index] sets it exactly when it
    builds and returns, and loads no shard.  Once the candidate paths are
    settled, [load_index] raises NoIndexFound exactly when none of them
    resolves to an existing index; whatever else it raises is an exception of
    a library call (the listing of a directory, the construction of a
    handle). *)
Theorem search_and_load_errors (W : World) :
  (forall s query k,
      fst (search W query k s) = Raised NotLoaded
      <-> index_loaded (self s) = false)
  /\ (forall index_path index_paths ollama_url ollama_model chunk_size
             chunk_overlap use_document_compression langchain,
         let s := init index_path index_paths ollama_url ollama_model
                       chunk_size chunk_overlap use_document_compression
                       langchain in
         index_loaded (self s) = false /\ shard_models (self s) = [])
  /\ (forall auto_discover s,
         let r := fst (load_index W auto_discover s) in
         let s' := snd (load_index W auto_discover s) in
         (index_loaded (self s') = true
          <-> index_loaded (self s) = true \/ r = Returned tt)
         /\ (r = Returned tt -> shard_models (self s') <> []))
  /\ (forall jsonl_path force_rebuild s,
         let r := fst (build_index W jsonl_path force_rebuild s) in
         let s' := snd (build_index W jsonl_path force_rebuild s) in
         shard_models (self s') = shard_models (self s)
         /\ (index_loaded (self s') = true
             <-> index_loaded (self s) = true
                 \/ (r = Returned tt
                     /\ path_exists W (index_path (self s))
                        && negb force_rebuild = false)))
  /\ (forall auto_discover s s0,
         discovery W auto_discover s = (Returned tt, s0) ->
         (fst (load_index W auto_discover s) = Raised NoIndexFound
          <-> forall base, In base (index_paths (self s0)) ->
                           resolved W base = None))
  /\ (forall auto_discover s e,
         fst (load_index W auto_discover s) = Raised e ->
         e = NoIndexFound \/ exists what, e = External what).
Proof.
  split; [|split; [|split; [|split; [|split]]]].
  - intros s query k. rewrite search_run. unfold search_result.
    destruct (index_loaded (self s)); simpl.
    + split; [|discriminate]. intros H. exfalso.
      pose proof (gather_raises W query (shard_models (self s)) []) as Hg.
      destruct (gather W query (shard_models (self s)) []) as [[all|e] ev];
        simpl in *; [discriminate|].
      inversion H; subst. destruct (Hg NotLoaded eq_refl). discriminate.
    + split; reflexivity.
  - intros ip ips ou om cs co uc lc. cbv zeta. unfold init.
    destruct uc; [destruct lc as [[c|what]|]|]; split; reflexivity.
  - intros auto_discover s. cbv zeta. rewrite load_index_phases.
    pose proof (keeps_discovery W auto_discover s) as [Hshards Hflag].
    destruct (discovery W auto_discover s) as [[[]|e] s0]; simpl in *.
    + rewrite load_index_run. unfold load_result.
      pose proof (shards_load_sound W (index_paths (self s0)) []) as Hsound.
      destruct (shards_load W (index_paths (self s0)) [])
        as [[[existing|e] shards] ev].
      * destruct Hsound as [_ [_ [_ [Hret _]]]].
        destruct (Hret existing eq_refl) as [Hex Hfst].
        destruct existing as [|bp existing]; simpl.
        -- rewrite Hflag. split; [flag_unchanged | discriminate].
        -- split; [split; auto|]. intros _.
           destruct shards as [|shard shards];
             [|intros H; now apply app_eq_nil in H].
           simpl in Hex, Hfst. rewrite <- Hex in Hfst. discriminate.
      * simpl. rewrite Hflag. split; [flag_unchanged | discriminate].
    + rewrite Hflag. split; [flag_unchanged | discriminate].
  - intros jsonl_path force_rebuild s. apply build_index_effect.
  - intros auto_discover s s0 Hd. rewrite load_index_phases, Hd.
    rewrite load_index_run. unfold load_result.
    rewrite <- candidates_resolved_nil.
    pose proof (shards_load_sound W (index_paths (self s0)) []) as Hsound.
    destruct (shards_load W (index_paths (self s0)) [])
      as [[[existing|e] shards] ev] eqn:Hload.
    + destruct Hsound as [_ [_ [_ [Hret _]]]].
      destruct (Hret existing eq_refl) as [Hex _]. simpl in Hex. subst.
      destruct (candidates_resolved W (index_paths (self s0))); simpl.
      * split; reflexivity.
      * split; discriminate.
    + destruct Hsound as [_ [_ [_ [_ Hraise]]]].
      destruct (Hraise e eq_refl) as [what ->]. simpl.
      split; [discriminate|]. intros Hnil.
      rewrite (shards_load_none W _ [] Hnil) in Hload. discriminate.
  - intros auto_discover s e. rewrite load_index_phases.
    pose proof (library_discovery W auto_discover s) as Hlib.
    destruct (discovery W auto_discover s) as [[[]|e'] s0]; simpl in *.
    + rewrite load_index_run. unfold load_result.
      pose proof (shards_load_sound W (index_paths (self s0)) []) as Hsound.
      destruct (shards_load W (index_paths (self s0)) [])
        as [[[existing|e'] shards] ev].
      * destruct (Py.nonempty existing); simpl; [discriminate|].
        intros H. inversion H. now left.
      * destruct Hsound as [_ [_ [_ [_ Hraise]]]]. simpl.
        intros H. inversion H; subst. right. now apply Hraise.
    + intros H. inversion H; subst. right. now apply Hlib.
Qed.

(** ** A concrete installation *)

(** Two indexes, docs and wiki, under the index store of the working
    directory /srv/rag; docs has its meta data file. *)
Definition docs_path : string := ".ragatouille/colbert/indexes/docs".

Definition wiki_path : string := ".ragatouille/colbert/indexes/wiki".

Definition docs_model : Model :=
  {| model_search := fun query k =>
       if String.eqb query "zzz" then Fine []
       else
         Fine [RawRecord {| r_text := Some "Install Bacula with apt.";
                            r_content := None;
                            r_score := Some (7 # 2);
                            r_rank := Some 0 |};
               RawText "Bacula is a backup tool."] |}.

(** The wiki model fails on the blank query of the warm-up. *)
Definition wiki_model : Model :=
  {| model_search := fun query k =>
       if String.eqb query " " then Failed "empty query"
       else if String.eqb query "zzz" then Fine []
       else
         Fine [RawRecord {| r_text := None;
                            r_content := Some "Backups are copies.";
                            r_score := None;
                            r_rank := Some 2 |}] |}.

Definition docs_metadata : chunks_metadata :=
  [("0", {| m_chunk_id := Some "d1_chunk_0_0"; m_source_id := Some "d1";
            m_source_url := Some "http://example.org/bacula";
            m_title := Some "Bacula"; m_chunk_index := Some 0%nat;
            m_metadata := Some []; m_text := Some "Install Bacula." |})].

(** The compressor that keeps nothing. *)
Definition strict_compressor : DocumentCompressor :=
  {| compress_documents := fun _ _ => Fine [] |}.

Definition installation (wiki : external Model) : World :=
  {| path_exists := fun p =>
       String.eqb p docs_path || String.eqb p wiki_path
       || String.eqb p (docs_path ++ "/chunks_metadata.json")%string;
     abspath := fun p => ("/srv/rag/" ++ p)%string;
     relpath_cwd := fun p => p;
     isdir := fun _ => false;
     listdir := fun _ => Fine [];
     from_index := fun p =>
       if String.eqb p ("/srv/rag/" ++ docs_path)%string then Fine docs_model
       else if String.eqb p ("/srv/rag/" ++ wiki_path)%string then wiki
       else Failed "no index";
     load_json := fun _ => docs_metadata;
     read_jsonl := fun _ => Fine [ChunkingFacts.d1];
     build_colbert := fun _ _ => Fine tt;
     write_json := fun _ _ => Fine tt;
     ollama_alive := true;
     ollama_generate := fun _ _ => Fine (Some "Run apt install bacula.") |}.

Definition sound_world : World := installation (Fine wiki_model).

(** The same installation with a wiki index that the provider cannot
    open. *)
Definition broken_world : World := installation (Failed "corrupt index").

(** [SysAdminRAG(index_paths=["docs", "wiki"], use_document_compression=True)] *)
Definition fresh_rag : state :=
  init "" (Some ["docs"; "wiki"]) "http://localhost:11434" "gemma:2b" 500 100
       true
       (Some (Fine strict_compressor)).

(** The object after [load_index()]. *)
Definition loaded_rag : state := snd (load_index sound_world false fresh_rag).

Example loaded_rag_shards :
  fst (load_index sound_world false fresh_rag) = Returned tt
  /\ map fst (shard_models (self loaded_rag)) = [docs_path; wiki_path]
  /\ index_loaded (self loaded_rag) = true.
Proof. repeat split; vm_compute; reflexivity. Qed.

(** C1, as stated, fails twice.  In the first installation the warm-up query
    of the wiki shard fails; the failure is logged and the shard is in the
    loaded list all the same.  In the second the handle of the wiki shard
    cannot be constructed: the exception leaves [load_index], the object is
    not marked as loaded and a later [search] raises, although the docs shard
    was loaded. *)
Lemma load_index_keeps_cold_shard_and_aborts_on_broken_one :
  (fst (load_index sound_world false fresh_rag) = Returned tt
   /\ (exists model,
          nth_error (shard_models (self loaded_rag)) 1 = Some (wiki_path, model)
          /\ model_search model " " 1 = Failed "empty query")
   /\ In (Printed (preload_warning wiki_path "empty query"))
         (events loaded_rag))
  /\ (resolved broken_world "docs" = Some docs_path
      /\ from_index broken_world (abspath broken_world docs_path)
         = Fine docs_model
      /\ fst (load_index broken_world false fresh_rag)
         = Raised (External "corrupt index")
      /\ map fst (shard_models
                    (self (snd (load_index broken_world false fresh_rag))))
         = [docs_path]
      /\ fst (search broken_world "How to install Bacula?" 5
                     (snd (load_index broken_world false fresh_rag)))
         = Raised NotLoaded).
Proof.
  split; [split; [|split]|].
  - vm_compute. reflexivity.
  - exists wiki_model. split; vm_compute; reflexivity.
  - vm_compute. tauto.
  - repeat split; vm_compute; reflexivity.
Qed.

Example loaded_rag_search :
  match fst (search sound_world "How to install Bacula?" 2 loaded_rag) with
  | Returned hits => map (fun h => (h_chunk_id h, h_title h)) hits
  | Raised _ => []
  end
  = [("d1_chunk_0_0", "Bacula"); ("2", "")].
Proof. vm_compute. reflexivity. Qed.

Lemma search_merges_and_ranks_witness :
  (index_loaded (self loaded_rag) = true
   /\ 0 <= 2
   /\ shards_answer loaded_rag "How to install Bacula?")
  /\ exists hits merged : list SearchHit,
       search sound_world "How to install Bacula?" 2 loaded_rag
       = (Returned hits,
          log loaded_rag
              (map (fun shard =>
                      ModelSearch (fst shard) "How to install Bacula?" 2)
                   (shard_models (self loaded_rag))))
       /\ Permutation merged
                      (flat_map (shard_hits sound_world "How to install Bacula?")
                                (shard_models (self loaded_rag)))
       /\ StronglySorted score_ge merged
       /\ hits = firstn (Z.to_nat 2) merged
       /\ Z.of_nat (List.length hits) <= 2
       /\ StronglySorted (fun a b => (h_score b <= h_score a)%Q) hits.
Proof.
  assert (H1 : index_loaded (self loaded_rag) = true) by reflexivity.
  assert (H2 : 0 <= 2) by lia.
  assert (H3 : shards_answer loaded_rag "How to install Bacula?").
  { intros shard [<-|[<-|[]]]; eexists; reflexivity. }
  split; [split; [exact H1 | split; [exact H2 | exact H3]]|].
  exact (proj1 (search_merges_and_ranks sound_world loaded_rag
                                        "How to install Bacula?" 2 H1 H2)
               H3).
Defined.

(** C6, as stated, fails: after [build_index] has built an index no shard is
    loaded, and [search] returns an empty list instead of raising
    NotLoaded.  Nor is the absence of every index the only way for
    [load_index] to fail: with a candidate that resolves, it fails when the
    provider cannot construct a handle. *)
Lemma search_after_build_index_returns_nothing :
  let built := build_index sound_world "data/parsed.jsonl" false
                           (init "colbert_index" None "http://localhost:11434"
                                 "gemma:2b" 500 100 false None) in
  (fst built = Returned tt
   /\ shard_models (self (snd built)) = []
   /\ fst (search sound_world "How to install Bacula?" 5 (snd built))
      = Returned [])
  /\ (candidates_resolved broken_world (index_paths (self fresh_rag))
      = [("docs", docs_path); ("wiki", wiki_path)]
      /\ fst (load_index broken_world false fresh_rag)
         = Raised (External "corrupt index")).
Proof. repeat split; vm_compute; reflexivity. Qed.

(** The installation without any index. *)
Definition bare_world : World :=
  {| path_exists := fun _ => false;
     abspath := fun p => ("/srv/rag/" ++ p)%string;
     relpath_cwd := fun p => p;
     isdir := fun _ => false;
     listdir := fun _ => Fine [];
     from_index := fun _ => Failed "no index";
     load_json := fun _ => [];
     read_jsonl := fun _ => Fine [];
     build_colbert := fun _ _ => Fine tt;
     write_json := fun _ _ => Fine tt;
     ollama_alive := false;
     ollama_generate := fun _ _ => Failed "unreachable" |}.

Example load_index_without_index :
  fst (load_index bare_world true fresh_rag) = Raised NoIndexFound
  /\ fst (search bare_world "How to install Bacula?" 5
                 (snd (load_index bare_world true fresh_rag)))
     = Raised NotLoaded.
Proof. split; vm_compute; reflexivity. Qed.

(** What [search] finds for the question, and the state it leaves. *)
Definition found_hits : list SearchHit :=
  match fst (search sound_world "How to install Bacula?" 2 loaded_rag) with
  | Returned hits => hits
  | Raised _ => []
  end.

Definition searched_rag : state :=
  snd (search sound_world "How to install Bacula?" 2 loaded_rag).

Definition recovery_statement : Prop :=
  exists made : list event,
    searched_rag = log loaded_rag made
    /\ ask sound_world "How to install Bacula?" 2 loaded_rag
       = if ollama_alive sound_world then
           (Returned
              {| answer := generated sound_world
                                     (ollama_model (self loaded_rag))
                                     "How to install Bacula?"
                                     (context_of found_hits);
                 sources := map source_of found_hits;
                 search_results := found_hits |},
            log loaded_rag
                (made
                 ++ [Compress "How to install Bacula?";
                     Printed (compression_notice (List.length found_hits));
                     Printed all_filtered_warning]
                 ++ made
                 ++ [OllamaTags;
                     OllamaGenerate (ollama_model (self loaded_rag))
                                    (full_prompt "How to install Bacula?"
                                                 (context_of found_hits))]))
         else
           (Raised (GenerationUnavailable (ollama_url (self loaded_rag))),
            log loaded_rag
                (made
                 ++ [Compress "How to install Bacula?";
                     Printed (compression_notice (List.length found_hits));
                     Printed all_filtered_warning]
                 ++ made ++ [OllamaTags])).

Lemma ask_recovers_from_empty_compression_witness :
  (search sound_world "How to install Bacula?" 2 loaded_rag
   = (Returned found_hits, searched_rag)
   /\ found_hits <> []
   /\ use_compression (self loaded_rag) = true
   /\ compressor (self loaded_rag) = Some strict_compressor
   /\ compress_documents strict_compressor found_hits "How to install Bacula?"
      = Fine [])
  /\ recovery_statement.
Proof.
  assert (H1 : search sound_world "How to install Bacula?" 2 loaded_rag
               = (Returned found_hits, searched_rag))
    by (vm_compute; reflexivity).
  assert (H2 : found_hits <> []) by (vm_compute; discriminate).
  assert (H3 : use_compression (self loaded_rag) = true) by reflexivity.
  assert (H4 : compressor (self loaded_rag) = Some strict_compressor)
    by reflexivity.
  assert (H5 : compress_documents strict_compressor found_hits
                                  "How to install Bacula?" = Fine [])
    by reflexivity.
  split; [repeat split; assumption|].
  exact (ask_recovers_from_empty_compression
           sound_world loaded_rag searched_rag "How to install Bacula?" 2
           found_hits strict_compressor H1 H2 H3 H4 H5).
Defined.

Example ask_answers_after_empty_compression :
  match fst (ask sound_world "How to install Bacula?" 2 loaded_rag) with
  | Returned a => (answer a, List.length (sources a))
  | Raised _ => (EmptyString, 0%nat)
  end
  = ("Run apt install bacula.", 2%nat).
Proof. vm_compute. reflexivity. Qed.

Lemma ask_without_results_witness :
  search sound_world "zzz" 5 loaded_rag
  = (Returned [], snd (search sound_world "zzz" 5 loaded_rag))
  /\ ask sound_world "zzz" 5 loaded_rag
     = (Returned
          {| answer :=
               "Sorry, no relevant information found to answer your question.";
             sources := []; search_results := [] |},
        snd (search sound_world "zzz" 5 loaded_rag))
  /\ exists made : list event,
       snd (search sound_world "zzz" 5 loaded_rag) = log loaded_rag made
       /\ forallb (fun e => negb (completion_call e)) made = true.
Proof.
  assert (H : search sound_world "zzz" 5 loaded_rag
              = (Returned [], snd (search sound_world "zzz" 5 loaded_rag)))
    by (vm_compute; reflexivity).
  split; [exact H|].
  exact (ask_without_results sound_world loaded_rag
                             (snd (search sound_world "zzz" 5 loaded_rag))
                             "zzz" 5 H).
Defined.

End RagFacts.

(** * Further properties of the splitters *)

From Stdlib Require Import DecimalNat.

Module SplitFacts.

Import Chunking.

(** ** [strip] *)

Lemma rstrip_idempotent s : Py.rstrip (Py.rstrip s) = Py.rstrip s.
Proof.
  induction s as [|c s IH]; simpl; [reflexivity|].
  destruct (Py.isspace c && negb (Py.truthy (Py.rstrip s))) eqn:Hc;
    [reflexivity|].
  simpl. now rewrite IH, Hc.
Qed.

Lemma lstrip_head s :
  match Py.lstrip s with
  | EmptyString => True
  | String c _ => Py.isspace c = false
  end.
Proof.
  induction s as [|c s IH]; simpl; [exact I|].
  destruct (Py.isspace c) eqn:Hc; [exact IH | exact Hc].
Qed.

Lemma strip_idempotent s : Py.strip (Py.strip s) = Py.strip s.
Proof.
  unfold Py.strip. pose proof (lstrip_head s) as Hhead.
  destruct (Py.lstrip s) as [|c t]; [reflexivity|].
  simpl. rewrite Hhead. simpl. rewrite Hhead. simpl.
  rewrite Hhead. simpl. now rewrite rstrip_idempotent.
Qed.

(** A string with something in it and no white space at either end. *)
Definition trimmed (s : string) : Prop := s <> EmptyString /\ Py.strip s = s.

Lemma stripped_nonempty_trimmed parts :
  Forall trimmed (stripped_nonempty parts).
Proof.
  unfold stripped_nonempty. apply Forall_forall. intros p Hp.
  apply in_map_iff in Hp. destruct Hp as [q [<- Hq]].
  apply filter_In in Hq. destruct Hq as [_ Hq].
  split; [|apply strip_idempotent].
  intros H. rewrite H in Hq. discriminate.
Qed.

(** X1.  Every paragraph that [_split_into_paragraphs] returns, and every
    sentence that [_split_into_sentences] returns, has at least one
    character and has no white space at its start or at its end. *)
Theorem paragraphs_and_sentences_trimmed (text : string) :
  Forall trimmed (_split_into_paragraphs text)
  /\ Forall trimmed (_split_into_sentences text).
Proof. split; apply stripped_nonempty_trimmed. Qed.

(** ** [split] and [join] *)

(** A word: at least one character, none of them white space. *)
Fixpoint no_space (s : string) : bool :=
  match s with
  | EmptyString => true
  | String c s' => negb (Py.isspace c) && no_space s'
  end.

Definition is_word (w : string) : bool := Py.truthy w && no_space w.

Lemma push_word c ws :
  Py.isspace c = false -> Forall (fun w => is_word w = true) ws ->
  Forall (fun w => is_word w = true) (Py.push c ws).
Proof.
  intros Hc Hws. destruct Hws as [|w ws Hw Hws]; simpl.
  - constructor; [|constructor]. unfold is_word. simpl. now rewrite Hc.
  - constructor; [|exact Hws]. unfold is_word in *. simpl. rewrite Hc.
    apply andb_true_iff in Hw. now destruct Hw.
Qed.

Lemma split_words s : Forall (fun w => is_word w = true) (Py.split s).
Proof.
  induction s as [|c s IH]; simpl; [constructor|].
  destruct (Py.isspace c) eqn:Hc; [exact IH|].
  destruct s as [|c' s'].
  - constructor; [|constructor]. unfold is_word. simpl. now rewrite Hc.
  - destruct (Py.isspace c') eqn:Hc'.
    + constructor; [|exact IH]. unfold is_word. simpl. now rewrite Hc.
    + now apply push_word.
Qed.

(** What follows a word: nothing, or white space first. *)
Definition word_end (t : string) : Prop :=
  match t with
  | EmptyString => True
  | String c _ => Py.isspace c = true
  end.

Lemma split_word_first w t :
  is_word w = true -> word_end t -> Py.split (w ++ t) = w :: Py.split t.
Proof.
  revert t. induction w as [|c w IH]; intros t Hw Ht; [discriminate|].
  unfold is_word in Hw. simpl in Hw. apply andb_true_iff in Hw.
  destruct Hw as [Hc Hw]. apply negb_true_iff in Hc.
  destruct w as [|c2 w2].
  - simpl. rewrite Hc. destruct t as [|c' t']; [reflexivity|].
    simpl in Ht. now rewrite Ht.
  - change ((String c (String c2 w2) ++ t)%string)
      with (String c (String c2 w2 ++ t)%string).
    simpl in Hw. apply andb_true_iff in Hw. destruct Hw as [Hc2 Hw2].
    assert (Hword : is_word (String c2 w2) = true).
    { unfold is_word. simpl. now rewrite Hc2, Hw2. }
    specialize (IH t Hword Ht).
    apply negb_true_iff in Hc2.
    cbn [Py.split]. rewrite Hc.
    change ((String c2 w2 ++ t)%string) with (String c2 (w2 ++ t)%string)
      in *.
    cbv iota beta. rewrite Hc2. rewrite IH. reflexivity.
Qed.

Lemma join_cons w w' ws :
  Py.join " " (w :: w' :: ws) = (w ++ String " " (Py.join " " (w' :: ws)))%string.
Proof. reflexivity. Qed.

Lemma string_app_nil_r (s : string) : (s ++ "")%string = s.
Proof. induction s; simpl; congruence. Qed.

(** Joining words by a space and splitting again gives the words back. *)
Lemma split_join ws :
  Forall (fun w => is_word w = true) ws -> Py.split (Py.join " " ws) = ws.
Proof.
  induction 1 as [|w ws Hw Hws IH]; [reflexivity|].
  destruct ws as [|w' ws'].
  - simpl. rewrite <- (string_app_nil_r w) at 1.
    now rewrite split_word_first.
  - rewrite join_cons, split_word_first; auto; [|reflexivity].
    change (Py.split (String " " (Py.join " " (w' :: ws'))))
      with (Py.split (Py.join " " (w' :: ws'))).
    now rewrite IH.
Qed.

End SplitFacts.

(** * Further properties of the packing loops *)

Module PackingFacts.

Import Chunking Overlap SplitFacts.

Lemma sum_map_snoc {A} (f : A -> Z) (l : list A) (x : A) :
  Py.sum_map f (l ++ [x]) = Py.sum_map f l + f x.
Proof. unfold Py.sum_map. now rewrite fold_left_app. Qed.

(** The size that the loops of [_split_paragraph] count for a unit. *)
Definition unit_size (self : SmartChunker) : string -> Z :=
  if respect_sentences self then _estimate_tokens else word_tokens.

(** The overlap that the loops take from a flushed buffer. *)
Definition carried (self : SmartChunker) (b : list string) : list string :=
  if chunk_overlap self >? 0 then last_units (overlap_units self) b else [].

Lemma sentence_step_carried self st sentence :
  respect_sentences self = true ->
  sentence_step self (joined st) sentence
  = joined (buffer_step (unit_size self) (chunk_size self) (carried self)
                        st sentence).
Proof.
  intros Hs. unfold carried, unit_size, overlap_units. rewrite Hs.
  destruct (Z.gtb_spec (chunk_overlap self) 0) as [Hv|Hv].
  - rewrite sentence_step_joined by lia. unfold buffer_step.
    destruct (_ && _); reflexivity.
  - unfold sentence_step, buffer_step, joined.
    cbn [chunks current_chunk current_size flushed current csize].
    destruct ((csize st + _estimate_tokens sentence >? chunk_size self)
              && Py.nonempty (current st)); [|reflexivity].
    destruct (Z.gtb_spec (chunk_overlap self) 0); [lia|].
    cbn [flushed current csize]. now rewrite map_app.
Qed.

Lemma word_step_carried self st word :
  respect_sentences self = false ->
  word_step self (joined st) word
  = joined (buffer_step (unit_size self) (chunk_size self) (carried self)
                        st word).
Proof.
  intros Hs. unfold carried, unit_size, overlap_units. rewrite Hs.
  destruct (Z.gtb_spec (chunk_overlap self) 0) as [Hv|Hv].
  - rewrite word_step_joined by lia. unfold buffer_step.
    destruct (_ && _); reflexivity.
  - unfold word_step, buffer_step, joined.
    cbn [chunks current_chunk current_size flushed current csize].
    destruct ((csize st + word_tokens word >? chunk_size self)
              && Py.nonempty (current st)); [|reflexivity].
    destruct (Z.gtb_spec (chunk_overlap self) 0); [lia|].
    cbn [flushed current csize]. now rewrite map_app.
Qed.

(** The buffers that [_split_paragraph] flushes for an oversized
    paragraph. *)
Definition paragraph_buffers (self : SmartChunker) (paragraph : string)
  : list (list string) :=
  all_buffers
    (fold_left (buffer_step (unit_size self) (chunk_size self) (carried self))
               (units self paragraph) buffers_start).

Lemma split_paragraph_buffers self paragraph :
  chunk_size self < _estimate_tokens paragraph ->
  _split_paragraph self paragraph
  = map (Py.join " ") (paragraph_buffers self paragraph).
Proof.
  intros Hbig. unfold _split_paragraph, paragraph_buffers, units.
  destruct (Z.leb_spec (_estimate_tokens paragraph) (chunk_size self));
    [lia|].
  change packing_start with (joined buffers_start).
  destruct (respect_sentences self) eqn:Hs.
  - rewrite (fold_left_joined (sentence_step self)
               (buffer_step (unit_size self) (chunk_size self)
                            (carried self)))
      by (intros; now apply sentence_step_carried).
    apply flush_rest_joined.
  - rewrite (fold_left_joined (word_step self)
               (buffer_step (unit_size self) (chunk_size self)
                            (carried self)))
      by (intros; now apply word_step_carried).
    apply flush_rest_joined.
Qed.

(** ** What the loops keep, whatever the overlap *)

Section Loop.

Variable size : string -> Z.
Variable limit : Z.
Variable carry : list string -> list string.
Hypothesis carry_incl : forall b, incl (carry b) b.

(** Every buffer has a unit in it, and only units that were read. *)
Definition filled (seen : list string) (b : list string) : Prop :=
  b <> [] /\ incl b seen.

Definition filling (st : buffers) (seen : list string) : Prop :=
  Forall (filled seen) (flushed st)
  /\ incl (current st) seen
  /\ csize st = Py.sum_map size (current st).

Lemma filled_more seen u b : filled seen b -> filled (seen ++ [u]) b.
Proof.
  intros [Hne Hin]. split; [exact Hne|].
  intros x Hx. apply in_or_app. left. now apply Hin.
Qed.

Lemma filling_step st seen u :
  filling st seen -> filling (buffer_step size limit carry st u) (seen ++ [u]).
Proof.
  intros [Hfl [Hcur Hsize]]. unfold buffer_step.
  destruct ((csize st + size u >? limit) && Py.nonempty (current st)) eqn:Hg;
    unfold filling; cbn [flushed current csize].
  - apply andb_true_iff in Hg. destruct Hg as [_ Hne].
    split; [|split; [|reflexivity]].
    + apply Forall_app. split.
      * eapply Forall_impl; [|exact Hfl]. intros b. apply filled_more.
      * constructor; [|constructor]. split.
        -- intros H. rewrite H in Hne. discriminate.
        -- intros x Hx. apply in_or_app. left. now apply Hcur.
    + intros x Hx. apply in_app_or in Hx. apply in_or_app.
      destruct Hx as [Hx|Hx]; [left | right; exact Hx].
      apply Hcur. now apply carry_incl.
  - split; [|split].
    + eapply Forall_impl; [|exact Hfl]. intros b. apply filled_more.
    + intros x Hx. apply in_app_or in Hx. apply in_or_app.
      destruct Hx as [Hx|Hx]; [left; now apply Hcur | right; exact Hx].
    + now rewrite sum_map_snoc, Hsize.
Qed.

Lemma filling_fold us st seen :
  filling st seen ->
  filling (fold_left (buffer_step size limit carry) us st) (seen ++ us).
Proof.
  revert st seen. induction us as [|u us IH]; intros st seen H.
  - now rewrite app_nil_r.
  - simpl. replace (seen ++ u :: us) with ((seen ++ [u]) ++ us)
      by now rewrite <- app_assoc.
    apply IH, filling_step, H.
Qed.

Lemma all_buffers_filled us :
  Forall (filled us)
         (all_buffers (fold_left (buffer_step size limit carry) us
                                 buffers_start)).
Proof.
  assert (H0 : filling buffers_start []).
  { split; [constructor|]. split; [intros x []|reflexivity]. }
  pose proof (filling_fold us buffers_start [] H0) as [Hfl [Hcur _]].
  simpl in Hfl, Hcur. unfold all_buffers.
  destruct (current (fold_left (buffer_step size limit carry) us
                               buffers_start)) eqn:Hc; simpl;
    [exact Hfl|].
  apply Forall_app. split; [exact Hfl|].
  constructor; [|constructor]. split; [discriminate | exact Hcur].
Qed.

End Loop.

Lemma carried_incl self b : incl (carried self b) b.
Proof.
  unfold carried, last_units. destruct (chunk_overlap self >? 0).
  - intros x Hx. rewrite <- (firstn_skipn
                               (List.length b
                                - Nat.min (overlap_units self) (List.length b))
                               b).
    apply in_or_app. now right.
  - intros x [].
Qed.

(** ** Without overlap: a partition within the budget *)

Section NoCarry.

Variable size : string -> Z.
Variable limit : Z.

Definition no_carry (b : list string) : list string := [].






Lemma fresh_from_no_carry prev bufs :
  fresh_from no_carry prev bufs = List.concat bufs.
Proof.
  revert prev. induction bufs as [|b bufs IH]; intros prev; simpl;
    [reflexivity|]. now rewrite IH.
Qed.

Lemma units_of_no_carry bufs : units_of no_carry bufs = List.concat bufs.
Proof.
  destruct bufs as [|b bufs]; simpl; [reflexivity|].
  now rewrite fresh_from_no_carry.
Qed.

End NoCarry.

Lemma paragraph_buffers_no_overlap self paragraph :
  chunk_overlap self <= 0 ->
  paragraph_buffers self paragraph
  = all_buffers
      (fold_left (buffer_step (unit_size self) (chunk_size self) no_carry)
                 (units self paragraph) buffers_start).
Proof.
  intros Hv. unfold paragraph_buffers. f_equal.
  assert (Hstep : forall st u,
             buffer_step (unit_size self) (chunk_size self) (carried self) st u
             = buffer_step (unit_size self) (chunk_size self) no_carry st u).
  { intros st u. unfold buffer_step, carried, no_carry.
    destruct (Z.gtb_spec (chunk_overlap self) 0); [lia | reflexivity]. }
  generalize buffers_start.
  induction (units self paragraph) as [|u us IH]; intros st; simpl;
    [reflexivity|]. now rewrite Hstep, IH.
Qed.

(** *** The size of a chunk and the sizes that the loops count *)







Lemma flat_map_split_join groups :
  Forall (Forall (fun w => is_word w = true)) groups ->
  flat_map Py.split (map (Py.join " ") groups) = List.concat groups.
Proof.
  induction 1 as [|g groups Hg Hgs IH]; simpl; [reflexivity|].
  now rewrite split_join, IH.
Qed.

(** X3.  In word mode with a [chunk_overlap] that is not positive,
    [_split_paragraph] loses no word: the words of its chunks, chunk after
    chunk, are the words of the paragraph in order, whether the paragraph is
    oversized or not. *)
Theorem word_mode_keeps_every_word (self : SmartChunker) (paragraph : string) :
  respect_sentences self = false ->
  chunk_overlap self <= 0 ->
  flat_map Py.split (_split_paragraph self paragraph) = Py.split paragraph.
Proof.
  intros Hs Hv.
  destruct (Z.leb_spec (_estimate_tokens paragraph) (chunk_size self))
    as [Hfit|Hbig].
  - unfold _split_paragraph.
    destruct (Z.leb_spec (_estimate_tokens paragraph) (chunk_size self));
      [|lia]. simpl. now rewrite app_nil_r.
  - rewrite split_paragraph_buffers by exact Hbig.
    assert (Hunits : units self paragraph = Py.split paragraph)
      by (unfold units; now rewrite Hs).
    assert (Hcat : List.concat (paragraph_buffers self paragraph)
                   = Py.split paragraph).
    { rewrite paragraph_buffers_no_overlap by exact Hv.
      rewrite <- units_of_no_carry, <- Hunits. apply all_buffers_packed. }
    rewrite flat_map_split_join; [exact Hcat|].
    pose proof (all_buffers_filled (unit_size self) (chunk_size self)
                                   (carried self) (carried_incl self)
                                   (units self paragraph)) as H.
    eapply Forall_impl; [|exact H]. intros g [_ Hin].
    apply Forall_forall. intros w Hw. apply Hin in Hw. rewrite Hunits in Hw.
    pose proof (split_words paragraph) as Hwords.
    rewrite Forall_forall in Hwords. now apply Hwords.
Qed.

End PackingFacts.

(** * Further properties of [chunk_document] *)

Module DocumentFacts.

Import Chunking ChunkingFacts Overlap SplitFacts PackingFacts.

(** ** No chunk of paragraph mode starts or ends with white space *)

Lemma trimmed_first s :
  trimmed s -> exists c t, s = String c t /\ Py.isspace c = false.
Proof.
  intros [Hne Hstrip]. unfold Py.strip in Hstrip.
  pose proof (lstrip_head s) as Hhead.
  destruct (Py.lstrip s) as [|c t].
  - simpl in Hstrip. congruence.
  - simpl in Hstrip. rewrite Hhead in Hstrip. simpl in Hstrip.
    exists c, (Py.rstrip t). split; [congruence | exact Hhead].
Qed.

Lemma trimmed_rstrip s : trimmed s -> Py.rstrip s = s.
Proof.
  intros H. destruct (trimmed_first s H) as [c [t [-> Hc]]].
  destruct H as [_ Hstrip]. unfold Py.strip in Hstrip. simpl in Hstrip.
  now rewrite Hc in Hstrip.
Qed.

Lemma trimmed_intro c t :
  Py.isspace c = false -> Py.rstrip (String c t) = String c t ->
  trimmed (String c t).
Proof.
  intros Hc Hr. split; [discriminate|].
  unfold Py.strip. simpl Py.lstrip. now rewrite Hc.
Qed.

Lemma no_space_rstrip s : no_space s = true -> Py.rstrip s = s.
Proof.
  induction s as [|c s IH]; simpl; [reflexivity|].
  intros H. apply andb_true_iff in H. destruct H as [Hc Hs].
  apply negb_true_iff in Hc. rewrite Hc. simpl. now rewrite IH.
Qed.

Lemma word_trimmed w : is_word w = true -> trimmed w.
Proof.
  unfold is_word. intros H. apply andb_true_iff in H. destruct H as [Hne Hs].
  destruct w as [|c t]; [discriminate|].
  apply trimmed_intro; [|now apply no_space_rstrip].
  simpl in Hs. apply andb_true_iff in Hs. destruct Hs as [Hc _].
  now apply negb_true_iff in Hc.
Qed.

Lemma rstrip_app a b :
  Py.rstrip b <> EmptyString -> Py.rstrip (a ++ b) = (a ++ Py.rstrip b)%string.
Proof.
  intros Hb. induction a as [|c a IH]; simpl; [reflexivity|].
  rewrite IH. destruct (a ++ Py.rstrip b)%string eqn:Hab.
  - destruct a; simpl in Hab; [contradiction | discriminate].
  - simpl. now rewrite andb_false_r.
Qed.

Lemma join_trimmed l :
  l <> [] -> Forall trimmed l -> trimmed (Py.join " " l).
Proof.
  intros Hne Hl. induction Hl as [|w l Hw Hl IH]; [contradiction|].
  destruct l as [|w' l']; [exact Hw|].
  assert (HJ : trimmed (Py.join " " (w' :: l'))) by (apply IH; discriminate).
  rewrite join_cons.
  destruct (trimmed_first w Hw) as [c [t [-> Hc]]].
  apply (trimmed_intro c (t ++ String " " (Py.join " " (w' :: l')))%string
                       Hc).
  change (String c (t ++ String " " (Py.join " " (w' :: l'))))%string
    with (String c t ++ String " " (Py.join " " (w' :: l')))%string.
  assert (Hsp : Py.rstrip (String " " (Py.join " " (w' :: l')))
                = String " " (Py.join " " (w' :: l'))).
  { change (String " " (Py.join " " (w' :: l')))
      with (" " ++ Py.join " " (w' :: l'))%string.
    rewrite rstrip_app; rewrite (trimmed_rstrip _ HJ);
      [reflexivity | apply HJ]. }
  rewrite rstrip_app; rewrite Hsp; [reflexivity | discriminate].
Qed.

Lemma units_trimmed self paragraph : Forall trimmed (units self paragraph).
Proof.
  unfold units. destruct (respect_sentences self).
  - apply stripped_nonempty_trimmed.
  - eapply Forall_impl; [|apply split_words]. intros w. apply word_trimmed.
Qed.

Lemma split_paragraph_trimmed self paragraph :
  trimmed paragraph -> Forall trimmed (_split_paragraph self paragraph).
Proof.
  intros Hp.
  destruct (Z.leb_spec (_estimate_tokens paragraph) (chunk_size self))
    as [Hfit|Hbig].
  - unfold _split_paragraph.
    destruct (Z.leb_spec (_estimate_tokens paragraph) (chunk_size self));
      [|lia]. constructor; [exact Hp | constructor].
  - rewrite split_paragraph_buffers by exact Hbig.
    pose proof (all_buffers_filled (unit_size self) (chunk_size self)
                                   (carried self) (carried_incl self)
                                   (units self paragraph)) as H.
    apply Forall_forall. intros t Ht. apply in_map_iff in Ht.
    destruct Ht as [g [<- Hg]]. rewrite Forall_forall in H.
    destruct (H g Hg) as [Hne Hin]. apply join_trimmed; [exact Hne|].
    apply Forall_forall. intros u Hu. apply Hin in Hu.
    pose proof (units_trimmed self paragraph) as Hunits.
    rewrite Forall_forall in Hunits. now apply Hunits.
Qed.

(** X4.  In paragraph mode no chunk that [chunk_document] returns is empty,
    and none starts or ends with white space, whatever the configuration
    (the text of a document chunked without paragraphs is not stripped). *)
Theorem paragraph_mode_chunks_trimmed (self : SmartChunker) (doc : Document) :
  respect_paragraphs self = true ->
  Forall (fun c => text c <> EmptyString /\ Py.strip (text c) = text c)
         (chunk_document self doc).
Proof.
  intros Hpar. apply Forall_forall. intros c Hc.
  assert (Hin : In (text c) (map text (chunk_document self doc)))
    by now apply in_map.
  rewrite chunk_document_texts in Hin. apply filter_In in Hin.
  destruct Hin as [Hin _]. unfold candidate_chunks in Hin. rewrite Hpar in Hin.
  destruct (negb (Py.truthy (get (doc_text doc) ""))); [destruct Hin|].
  apply in_flat_map in Hin. destruct Hin as [p [Hp Ht]].
  pose proof (stripped_nonempty_trimmed
                (Py.split_blank_lines (get (doc_text doc) ""))) as Hps.
  rewrite Forall_forall in Hps.
  pose proof (split_paragraph_trimmed self p (Hps p Hp)) as Hts.
  rewrite Forall_forall in Hts. exact (Hts _ Ht).
Qed.

(** ** Where a chunk of paragraph mode comes from *)

(** [d.get(k)] *)
Fixpoint dict_get (d : dict) (k : string) : option value :=
  match d with
  | [] => None
  | (k', v) :: d' => if String.eqb k' k then Some v else dict_get d' k
  end.

Lemma dict_get_set_same d k v : dict_get (dict_set d k v) k = Some v.
Proof.
  induction d as [|[k' v'] d IH]; simpl.
  - now rewrite String.eqb_refl.
  - destruct (String.eqb_spec k' k) as [->|Hne]; simpl.
    + now rewrite String.eqb_refl.
    + destruct (String.eqb_spec k' k); [contradiction | exact IH].
Qed.

Lemma dict_get_set_other d k v k' :
  k <> k' -> dict_get (dict_set d k v) k' = dict_get d k'.
Proof.
  intros Hne. induction d as [|[k0 v0] d IH]; simpl.
  - destruct (String.eqb_spec k k'); [contradiction | reflexivity].
  - destruct (String.eqb_spec k0 k) as [->|Hk]; simpl.
    + destruct (String.eqb_spec k k'); [contradiction | reflexivity].
    + destruct (String.eqb_spec k0 k'); [reflexivity | exact IH].
Qed.

(** A candidate chunk of paragraph mode: the paragraph, the position in the
    output of its split, the length of that output, the text. *)
Record candidate : Type := {
  c_paragraph : nat;
  c_position : nat;
  c_total : nat;
  c_text : string
}.

Definition paragraph_candidates (self : SmartChunker) (item : nat * string)
  : list candidate :=
  map (fun ct => {| c_paragraph := fst item; c_position := fst ct;
                    c_total := List.length (_split_paragraph self (snd item));
                    c_text := snd ct |})
      (Py.enumerate (_split_paragraph self (snd item))).

(** The chunk that a candidate becomes, but for its [chunk_index]. *)
Definition candidate_chunk (doc : Document) (cand : candidate) : Chunk :=
  {| text := c_text cand;
     chunk_id := doc_id doc ++ "_chunk_" ++ Py.str_of_nat (c_paragraph cand)
                 ++ "_" ++ Py.str_of_nat (c_position cand);
     source_id := doc_id doc;
     source_url := get (doc_source_url doc) "";
     title := get (doc_title doc) "";
     chunk_index := 0;
     metadata :=
       dict_set
         (dict_set
            (dict_set (get (doc_meta doc) [])
                      "paragraph_index" (VInt (Z.of_nat (c_paragraph cand))))
            "chunk_in_paragraph" (VInt (Z.of_nat (c_position cand))))
         "total_chunks" (VInt (Z.of_nat (c_total cand))) |}.

Definition without_index (c : Chunk) : Chunk :=
  {| text := text c; chunk_id := chunk_id c; source_id := source_id c;
     source_url := source_url c; title := title c; chunk_index := 0;
     metadata := metadata c |}.

Definition kept_candidate (self : SmartChunker) (cand : candidate) : bool :=
  kept self (c_text cand).

Lemma paragraph_chunk_step_candidates self doc para_idx total items acc :
  map without_index
      (fold_left (paragraph_chunk_step self doc para_idx total) items acc)
  = map without_index acc
    ++ map (candidate_chunk doc)
           (filter (kept_candidate self)
                   (map (fun ct => {| c_paragraph := para_idx;
                                      c_position := fst ct;
                                      c_total := total;
                                      c_text := snd ct |}) items)).
Proof.
  revert acc. induction items as [|[i t] items IH]; intros acc; simpl.
  - now rewrite app_nil_r.
  - rewrite IH. unfold kept_candidate at 2, kept. simpl.
    destruct (_estimate_tokens t <? min_chunk_size self); simpl;
      [reflexivity|].
    now rewrite map_app, <- app_assoc.
Qed.

Lemma paragraph_step_candidates self doc items acc :
  map without_index (fold_left (paragraph_step self doc) items acc)
  = map without_index acc
    ++ map (candidate_chunk doc)
           (filter (kept_candidate self)
                   (flat_map (paragraph_candidates self) items)).
Proof.
  revert acc. induction items as [|[i p] items IH]; intros acc.
  - simpl. now rewrite app_nil_r.
  - cbn [fold_left flat_map]. rewrite IH. unfold paragraph_step.
    rewrite paragraph_chunk_step_candidates.
    rewrite filter_app, map_app, <- app_assoc. reflexivity.
Qed.

(** The candidates of a document in paragraph mode. *)
Definition document_candidates (self : SmartChunker) (doc : Document)
  : list candidate :=
  if negb (Py.truthy (get (doc_text doc) "")) then []
  else flat_map (paragraph_candidates self)
                (Py.enumerate (_split_into_paragraphs (get (doc_text doc) ""))).

Lemma paragraph_mode_output self doc :
  respect_paragraphs self = true ->
  map without_index (chunk_document self doc)
  = map (candidate_chunk doc)
        (filter (kept_candidate self) (document_candidates self doc)).
Proof.
  intros Hpar. unfold chunk_document, document_candidates. rewrite Hpar.
  destruct (negb (Py.truthy (get (doc_text doc) ""))); [reflexivity|].
  now rewrite paragraph_step_candidates.
Qed.

Lemma in_document_candidates self doc cand :
  In cand (document_candidates self doc) ->
  exists paragraph,
    nth_error (_split_into_paragraphs (get (doc_text doc) ""))
              (c_paragraph cand) = Some paragraph
    /\ nth_error (_split_paragraph self paragraph) (c_position cand)
       = Some (c_text cand)
    /\ c_total cand = List.length (_split_paragraph self paragraph).
Proof.
  unfold document_candidates.
  destruct (negb (Py.truthy (get (doc_text doc) ""))); [intros []|].
  intros H. apply in_flat_map in H. destruct H as [[i p] [Hp Hc]].
  apply in_enumerate in Hp. unfold paragraph_candidates in Hc.
  apply in_map_iff in Hc. destruct Hc as [[j t] [<- Hj]].
  apply in_enumerate in Hj. simpl. eauto.
Qed.

(** X5.  In paragraph mode every chunk returned is the text at some
    position of the split of some paragraph of the document; its [chunk_id]
    is made of the document's id and these two positions, its [source_id] is
    the document's id, and its metadata give the paragraph, the position and
    the number of chunks that the split of the paragraph produced (counted
    before the filter), overriding keys of the same names in the document's
    [meta] and leaving the other keys as they are. *)
Theorem paragraph_mode_chunk_provenance (self : SmartChunker) (doc : Document)
        (c : Chunk) :
  respect_paragraphs self = true ->
  In c (chunk_document self doc) ->
  exists (para_idx chunk_idx : nat) (paragraph : string),
    nth_error (_split_into_paragraphs (get (doc_text doc) "")) para_idx
    = Some paragraph
    /\ nth_error (_split_paragraph self paragraph) chunk_idx = Some (text c)
    /\ chunk_id c
       = (doc_id doc ++ "_chunk_" ++ Py.str_of_nat para_idx ++ "_"
                 ++ Py.str_of_nat chunk_idx)%string
    /\ source_id c = doc_id doc
    /\ dict_get (metadata c) "paragraph_index"
       = Some (VInt (Z.of_nat para_idx))
    /\ dict_get (metadata c) "chunk_in_paragraph"
       = Some (VInt (Z.of_nat chunk_idx))
    /\ dict_get (metadata c) "total_chunks"
       = Some (VInt (Z.of_nat (List.length (_split_paragraph self paragraph))))
    /\ (forall k,
           k <> "paragraph_index" -> k <> "chunk_in_paragraph" ->
           k <> "total_chunks" ->
           dict_get (metadata c) k = dict_get (get (doc_meta doc) []) k).
Proof.
  intros Hpar Hc.
  assert (Hin : In (without_index c)
                   (map without_index (chunk_document self doc)))
    by now apply in_map.
  rewrite paragraph_mode_output in Hin by exact Hpar.
  apply in_map_iff in Hin. destruct Hin as [cand [Heq Hcand]].
  apply filter_In in Hcand. destruct Hcand as [Hcand _].
  destruct (in_document_candidates self doc cand Hcand)
    as [paragraph [Hp [Ht Htotal]]].
  exists (c_paragraph cand), (c_position cand), paragraph.
  assert (Htext : text c = c_text cand)
    by (change (text c) with (text (without_index c)); now rewrite <- Heq).
  assert (Hid : chunk_id c = chunk_id (candidate_chunk doc cand))
    by (change (chunk_id c) with (chunk_id (without_index c));
        now rewrite <- Heq).
  assert (Hsrc : source_id c = doc_id doc)
    by (change (source_id c) with (source_id (without_index c));
        now rewrite <- Heq).
  assert (Hmeta : metadata c = metadata (candidate_chunk doc cand))
    by (change (metadata c) with (metadata (without_index c));
        now rewrite <- Heq).
  split; [exact Hp|]. split; [now rewrite Htext|].
  split; [exact Hid|]. split; [exact Hsrc|].
  rewrite Hmeta. unfold candidate_chunk. cbn [metadata].
  split; [|split; [|split]].
  - rewrite !dict_get_set_other by discriminate. apply dict_get_set_same.
  - rewrite dict_get_set_other by discriminate. apply dict_get_set_same.
  - rewrite dict_get_set_same, Htotal. reflexivity.
  - intros k H1 H2 H3. now rewrite !dict_get_set_other by congruence.
Qed.

End DocumentFacts.

(** * Positions written in decimal: chunk ids and metadata keys *)

Module IdentityFacts.

Import Chunking ChunkingFacts DocumentFacts Rag.

Lemma string_of_uint_inj d d' :
  NilEmpty.string_of_uint d = NilEmpty.string_of_uint d' -> d = d'.
Proof.
  intros H. apply (f_equal NilEmpty.uint_of_string) in H.
  rewrite !NilEmpty.usu in H. congruence.
Qed.

Lemma str_of_nat_inj n m : Py.str_of_nat n = Py.str_of_nat m -> n = m.
Proof.
  unfold Py.str_of_nat. intros H.
  apply DecimalNat.Unsigned.to_uint_inj, string_of_uint_inj, H.
Qed.

Definition is_digit (c : ascii) : bool :=
  let n := N_of_ascii c in ((48 <=? n) && (n <=? 57))%N.

Fixpoint all_digits (s : string) : bool :=
  match s with
  | EmptyString => true
  | String c s' => is_digit c && all_digits s'
  end.

Lemma str_of_nat_digits n : all_digits (Py.str_of_nat n) = true.
Proof.
  unfold Py.str_of_nat. generalize (Nat.to_uint n). intros d.
  induction d; simpl; auto.
Qed.

Lemma string_app_inv_head (p x y : string) :
  (p ++ x)%string = (p ++ y)%string -> x = y.
Proof. induction p as [|c p IH]; simpl; intros H; [exact H|]. inversion H. auto. Qed.

(** Two runs of digits, each followed by an underscore: the runs end at the
    same place. *)
Lemma digits_then_underscore a b x y :
  all_digits a = true -> all_digits b = true ->
  (a ++ String "_" x)%string = (b ++ String "_" y)%string ->
  a = b /\ x = y.
Proof.
  revert b. induction a as [|c a IH]; intros [|c' b] Ha Hb H; simpl in *.
  - inversion H. auto.
  - inversion H; subst. apply andb_true_iff in Hb. destruct Hb as [Hd _].
    discriminate.
  - inversion H; subst. apply andb_true_iff in Ha. destruct Ha as [Hd _].
    discriminate.
  - inversion H; subst. apply andb_true_iff in Ha, Hb.
    destruct Ha as [_ Ha], Hb as [_ Hb].
    destruct (IH b Ha Hb H2) as [-> ->]. auto.
Qed.

(** Dropping items of a list leaves their keys distinct. *)
Lemma kept_keys_distinct {Item Key : Type} (key_of : Item -> Key)
      (keep : Item -> bool) (items : list Item) :
  NoDup (map key_of items) -> NoDup (map key_of (filter keep items)).
Proof.
  intros Hdistinct. induction items as [|item items IH]; [constructor|].
  cbn [map] in Hdistinct. apply NoDup_cons_iff in Hdistinct.
  destruct Hdistinct as [Hfresh Hrest]. cbn [filter].
  destruct (keep item); [|now apply IH].
  cbn [map]. apply NoDup_cons; [|now apply IH].
  intros Hin. apply Hfresh. apply in_map_iff in Hin.
  destruct Hin as [other [Hsame Hin]]. apply filter_In in Hin.
  apply in_map_iff. exists other. tauto.
Qed.

(** The paragraph and the position of a candidate. *)
Definition key (cand : candidate) : nat * nat :=
  (c_paragraph cand, c_position cand).

Lemma paragraph_candidates_keys self i p :
  map key (paragraph_candidates self (i, p))
  = map (pair i) (seq 0 (List.length (_split_paragraph self p))).
Proof.
  unfold paragraph_candidates, Py.enumerate. rewrite map_map. simpl.
  rewrite <- (map_fst_combine_seq (_split_paragraph self p) 0) at 2.
  now rewrite map_map.
Qed.

Lemma candidates_keys_from self (a : nat) (ps : list string) :
  NoDup (map key (flat_map (paragraph_candidates self)
                           (combine (seq a (List.length ps)) ps)))
  /\ forall k,
       In k (map key (flat_map (paragraph_candidates self)
                               (combine (seq a (List.length ps)) ps))) ->
       (a <= fst k)%nat.
Proof.
  revert a. induction ps as [|p ps IH]; intros a; simpl.
  - split; [constructor | intros k []].
  - destruct (IH (S a)) as [Hnd Hge].
    rewrite map_app, paragraph_candidates_keys. split.
    + apply NoDup_app.
      * apply Finite.Injective_map_NoDup; [|apply seq_NoDup].
        intros x y H. now inversion H.
      * exact Hnd.
      * intros k Hk Hk'. apply in_map_iff in Hk. destruct Hk as [j [<- _]].
        apply Hge in Hk'. simpl in Hk'. lia.
    + intros k Hk. apply in_app_or in Hk. destruct Hk as [Hk|Hk].
      * apply in_map_iff in Hk. destruct Hk as [j [<- _]]. simpl. lia.
      * apply Hge in Hk. lia.
Qed.

Definition paragraph_id (doc : Document) (k : nat * nat) : string :=
  doc_id doc ++ "_chunk_" ++ Py.str_of_nat (fst k) ++ "_"
  ++ Py.str_of_nat (snd k).

Lemma paragraph_id_inj doc k k' :
  paragraph_id doc k = paragraph_id doc k' -> k = k'.
Proof.
  unfold paragraph_id. intros H.
  apply string_app_inv_head in H.
  apply (string_app_inv_head "_chunk_") in H.
  apply digits_then_underscore in H; try apply str_of_nat_digits.
  destruct H as [H1 H2]. apply str_of_nat_inj in H1, H2.
  destruct k, k'. simpl in *. congruence.
Qed.

(** X6.  The chunks that [chunk_document] returns for a document have
    pairwise different [chunk_id]s, with or without paragraphs. *)
Theorem chunk_ids_unique (self : SmartChunker) (doc : Document) :
  NoDup (map chunk_id (chunk_document self doc)).
Proof.
  destruct (respect_paragraphs self) eqn:Hpar.
  - assert (Hids : map chunk_id (chunk_document self doc)
                   = map (paragraph_id doc)
                         (map key (filter (kept_candidate self)
                                          (document_candidates self doc)))).
    { transitivity (map chunk_id (map without_index (chunk_document self doc))).
      - rewrite map_map. reflexivity.
      - rewrite paragraph_mode_output by exact Hpar.
        rewrite !map_map. reflexivity. }
    rewrite Hids. apply Finite.Injective_map_NoDup.
    + intros k k'. apply paragraph_id_inj.
    + apply kept_keys_distinct. unfold document_candidates.
      destruct (negb (Py.truthy (get (doc_text doc) ""))); [constructor|].
      apply candidates_keys_from.
  - rewrite plain_mode_output by exact Hpar. rewrite map_map.
    change (fun x : nat * string => chunk_id (plain_chunk doc x))
      with (fun x : nat * string =>
              (doc_id doc ++ "_chunk_" ++ Py.str_of_nat (fst x))%string).
    rewrite <- (map_map fst (fun i => (doc_id doc ++ "_chunk_"
                                               ++ Py.str_of_nat i)%string)).
    apply Finite.Injective_map_NoDup.
    + intros i j H. apply string_app_inv_head in H.
      apply (string_app_inv_head "_chunk_") in H. now apply str_of_nat_inj.
    + apply kept_keys_distinct. unfold Py.enumerate.
      rewrite map_fst_combine_seq. apply seq_NoDup.
Qed.

(** ** The metadata table that [build_index] writes *)

(** The table for a list of chunks. *)
Definition metadata_table (chunks : list Chunk) : chunks_metadata :=
  map metadata_of (Py.enumerate chunks).

Lemma lookup_table_from (chunks : list Chunk) (a i : nat) :
  lookup (map metadata_of (combine (seq a (List.length chunks)) chunks))
         (Py.str_of_nat (a + i))
  = option_map (fun chunk => snd (metadata_of (0%nat, chunk)))
               (nth_error chunks i).
Proof.
  revert a i. induction chunks as [|c chunks IH]; intros a i; simpl.
  - now destruct i.
  - destruct (String.eqb_spec (Py.str_of_nat a) (Py.str_of_nat (a + i)))
      as [Heq|Hne].
    + apply str_of_nat_inj in Heq. assert (i = 0%nat) by lia. now subst.
    + destruct i as [|i]; [rewrite Nat.add_0_r in Hne; contradiction|].
      replace (a + S i)%nat with (S a + i)%nat by lia. apply IH.
Qed.

(** X7.  In the table that [build_index] writes next to the index, the key
    that is the decimal writing of a position gives the record of the chunk
    at that position in the list of all chunks, with its [chunk_id], source,
    title, [chunk_index], metadata and text; the writing of a position past
    the end is not a key. *)
Theorem metadata_table_lookup (chunks : list Chunk) (i : nat) :
  lookup (metadata_table chunks) (Py.str_of_nat i)
  = option_map
      (fun chunk =>
         {| m_chunk_id := Some (chunk_id chunk);
            m_source_id := Some (source_id chunk);
            m_source_url := Some (source_url chunk);
            m_title := Some (title chunk);
            m_chunk_index := Some (chunk_index chunk);
            m_metadata := Some (metadata chunk);
            m_text := Some (text chunk) |})
      (nth_error chunks i).
Proof.
  unfold metadata_table, Py.enumerate.
  exact (lookup_table_from chunks 0 i).
Qed.

End IdentityFacts.

(** * Further properties of the retrieval pipeline *)

Module PipelineFacts.

Import Chunking Rag RagFacts.

(** ** The merge of [search] *)

(** The hits whose score is [c]. *)
Definition scored (c : Q) (h : SearchHit) : bool := Qeq_bool (h_score h) c.

Lemma insert_by_score_stable c x l :
  filter (scored c) (insert_by_score x l) = filter (scored c) (x :: l).
Proof.
  induction l as [|y l IH]; [reflexivity|].
  cbn [insert_by_score].
  destruct (Qle_bool (h_score y) (h_score x)) eqn:Hle; [reflexivity|].
  cbn [filter] in *. rewrite IH.
  destruct (scored c x) eqn:Hx; destruct (scored c y) eqn:Hy; try reflexivity.
  exfalso. unfold scored in *. apply Qeq_bool_iff in Hx, Hy.
  assert (Hyx : (h_score y <= h_score x)%Q) by (rewrite Hx, Hy; apply Qle_refl).
  apply Qle_bool_iff in Hyx. congruence.
Qed.

Lemma sort_by_score_desc_stable c l :
  filter (scored c) (sort_by_score_desc l) = filter (scored c) l.
Proof.
  induction l as [|x l IH]; [reflexivity|].
  cbn [sort_by_score_desc fold_right].
  change (fold_right insert_by_score [] l) with (sort_by_score_desc l).
  rewrite insert_by_score_stable. cbn [filter]. now rewrite IH.
Qed.

Lemma filter_firstn_prefix {A} (p : A -> bool) (n : nat) (l : list A) :
  exists rest, filter p l = filter p (firstn n l) ++ rest.
Proof.
  exists (filter p (skipn n l)).
  now rewrite <- filter_app, firstn_skipn.
Qed.

(** What [search] returns when it returns: a slice of the sorted merge. *)
Lemma search_returned W s query k hits :
  fst (search W query k s) = Returned hits ->
  hits = Py.slice_to k
           (sort_by_score_desc
              (flat_map (shard_hits W query) (shard_models (self s)))).
Proof.
  rewrite search_run. unfold search_result.
  destruct (index_loaded (self s)); cbn [negb]; [|discriminate].
  pose proof (gather_returned W query (shard_models (self s)) []) as Hfine.
  pose proof (gather_all_fine W query (shard_models (self s)) []) as Hall.
  destruct (gather W query (shard_models (self s)) []) as [[all|e] ev]
    eqn:Hg; cbn [fst]; [|discriminate].
  specialize (Hall (Hfine all eq_refl)). cbn [app] in Hall.
  assert (Hsame : all = flat_map (shard_hits W query) (shard_models (self s)))
    by congruence.
  rewrite <- Hsame. clear. intros H. inversion H.
  destruct all; cbn [Py.nonempty negb]; [|reflexivity].
  unfold Py.slice_to. simpl. now rewrite firstn_nil.
Qed.

Lemma slice_to_firstn_any {A} (k : Z) (l : list A) :
  exists n, Py.slice_to k l = firstn n l.
Proof. unfold Py.slice_to. eexists. reflexivity. Qed.

(** X9.  The merge of [search] is stable: among the hits of one score,
    those that [search] returns are the first ones in the order in which the
    shards, taken in the order of the shard list, returned them. *)
Theorem search_keeps_order_of_equal_scores (W : World) (s : state)
        (query : string) (k : Z) (hits : list SearchHit) (c : Q) :
  fst (search W query k s) = Returned hits ->
  exists rest,
    filter (fun h => Qeq_bool (h_score h) c)
           (flat_map (shard_hits W query) (shard_models (self s)))
    = filter (fun h => Qeq_bool (h_score h) c) hits ++ rest.
Proof.
  intros H. apply search_returned in H. subst hits.
  destruct (slice_to_firstn_any
              k (sort_by_score_desc
                   (flat_map (shard_hits W query) (shard_models (self s)))))
    as [n ->].
  rewrite <- (sort_by_score_desc_stable c).
  apply (filter_firstn_prefix (scored c)).
Qed.

(** X10.  The number of hits that [search] returns, for any integer [k]:
    with [n] hits in all, it is the smaller of [k] and [n] when [k] is not
    negative, and [n + k], or 0 if that is negative, when [k] is negative
    (the slice then drops the last hits). *)
Theorem search_result_length (W : World) (s : state) (query : string) (k : Z)
        (hits : list SearchHit) :
  fst (search W query k s) = Returned hits ->
  let n := Z.of_nat (List.length
                       (flat_map (shard_hits W query) (shard_models (self s)))) in
  Z.of_nat (List.length hits)
  = if k <? 0 then Z.max 0 (n + k) else Z.min k n.
Proof.
  intros H. apply search_returned in H. subst hits. cbv zeta.
  unfold Py.slice_to. rewrite length_firstn.
  rewrite (Permutation_length (sort_by_score_desc_perm _)).
  destruct (k <? 0) eqn:Hk; lia.
Qed.

(** X11.  Every hit that [search] returns is one of the formatted hits of a
    loaded shard and carries the path of that shard. *)
Theorem search_hits_come_from_shards (W : World) (s : state) (query : string)
        (k : Z) (hits : list SearchHit) :
  fst (search W query k s) = Returned hits ->
  Forall (fun h =>
            exists shard,
              In shard (shard_models (self s))
              /\ In h (shard_hits W query shard)
              /\ h_index_path h = Some (fst shard))
         hits.
Proof.
  intros H. apply search_returned in H. subst hits.
  apply Forall_forall. intros h Hh.
  destruct (slice_to_firstn_any
              k (sort_by_score_desc
                   (flat_map (shard_hits W query) (shard_models (self s)))))
    as [n Hn].
  rewrite Hn in Hh.
  assert (Hh' : In h (sort_by_score_desc
                        (flat_map (shard_hits W query)
                                  (shard_models (self s)))))
    by (rewrite <- (firstn_skipn n); apply in_or_app; now left).
  clear Hh. rename Hh' into Hh.
  apply (Permutation_in _ (sort_by_score_desc_perm _)) in Hh.
  apply in_flat_map in Hh. destruct Hh as [shard [Hshard Hin]].
  exists shard. split; [exact Hshard|]. split; [exact Hin|].
  unfold shard_hits in Hin.
  destruct (model_search (snd shard) query 2); [|destruct Hin].
  unfold formatted in Hin. apply in_map_iff in Hin.
  destruct Hin as [[i r] [<- _]]. unfold format_result.
  destruct r; reflexivity.
Qed.

(** ** Discovery *)

(** One of the four signs of an index in a directory. *)
Definition index_marker (W : World) (item_path : string) : bool :=
  path_exists W (path_join item_path "index_path.txt")
  || path_exists W (path_join item_path "chunks_metadata.json")
  || path_exists W (path_join item_path "index_name.txt")
  || path_exists W (relpath_cwd W (abspath W item_path)).

(** An entry of the listing that [_discover_indexes] keeps. *)
Definition is_candidate (W : World) (base_dir item : string) : bool :=
  isdir W (path_join base_dir item) && index_marker W (path_join base_dir item).

Definition checking_line (base_dir item : string) : event :=
  Printed ("Checking directory: " ++ path_join base_dir item).

Lemma discover_step_run W base_dir discovered item s :
  discover_step W base_dir discovered item s
  = (Returned (if is_candidate W base_dir item
               then discovered ++ [path_join base_dir item]
               else discovered),
     log s [checking_line base_dir item]).
Proof.
  unfold discover_step, is_candidate, index_marker, bind, print.
  rewrite emit_run.
  destruct (isdir W (path_join base_dir item)); cbn [andb]; [|reflexivity].
  destruct (_ || _); reflexivity.
Qed.

Lemma discover_loop_run W base_dir items acc s :
  for_each items (discover_step W base_dir) acc s
  = (Returned (acc ++ map (path_join base_dir)
                          (filter (is_candidate W base_dir) items)),
     log s (map (checking_line base_dir) items)).
Proof.
  revert acc s. induction items as [|item items IH]; intros acc s; simpl.
  - unfold ret. now rewrite app_nil_r, log_nil.
  - unfold bind. rewrite discover_step_run, IH, log_log.
    destruct (is_candidate W base_dir item); simpl;
      [now rewrite <- app_assoc | reflexivity].
Qed.

Lemma discover_indexes_run_lemma W base_dir s :
  _discover_indexes W base_dir s
  = if path_exists W (in_index_store base_dir) then
      match listdir W (in_index_store base_dir) with
      | Fine items =>
          (Returned (map (path_join (in_index_store base_dir))
                         (filter (is_candidate W (in_index_store base_dir))
                                 items)),
           log s (ListDir (in_index_store base_dir)
                  :: map (checking_line (in_index_store base_dir)) items))
      | Failed what =>
          (Raised (External what), log s [ListDir (in_index_store base_dir)])
      end
    else
      (Returned [],
       log s [Printed ("Warning: directory " ++ in_index_store base_dir
                       ++ " not found")]).
Proof.
  unfold _discover_indexes.
  destruct (path_exists W (in_index_store base_dir)); cbn [negb].
  - unfold bind. rewrite call_run.
    destruct (listdir W (in_index_store base_dir)) as [items|what];
      [|reflexivity].
    rewrite discover_loop_run, log_log. reflexivity.
  - unfold bind, print. rewrite emit_run. reflexivity.
Qed.

(** X12.  [_discover_indexes] looks under the index store.  When the
    directory is missing it returns an empty list after a warning, without
    listing anything.  Otherwise it lists the directory once and returns, in
    the order of the listing, the paths of the entries that are directories
    and show one of the four signs of an index; an entry that is not a
    directory is never returned, and the only exception it can raise is that
    of the listing. *)
Theorem discover_indexes_run (W : World) (base_dir : string) (s : state) :
  let dir := in_index_store base_dir in
  _discover_indexes W base_dir s
  = if path_exists W dir then
      match listdir W dir with
      | Fine items =>
          (Returned (map (path_join dir) (filter (is_candidate W dir) items)),
           log s (ListDir dir :: map (checking_line dir) items))
      | Failed what => (Raised (External what), log s [ListDir dir])
      end
    else
      (Returned [],
       log s [Printed ("Warning: directory " ++ dir ++ " not found")]).
Proof. cbv zeta. apply discover_indexes_run_lemma. Qed.

(** What discovery finds for one configured path when the listing
    succeeds. *)
Definition discovered (W : World) (base_dir : string) : list string :=
  let dir := in_index_store base_dir in
  if path_exists W dir then
    match listdir W dir with
    | Fine items => map (path_join dir) (filter (is_candidate W dir) items)
    | Failed _ => []
    end
  else [].

Definition discover_body (W : World) (acc : list string) (base_path : string)
  : M (list string) :=
  bind (_discover_indexes W base_path) (fun found => ret (acc ++ found)).

Lemma discover_all_run W paths acc s r s' :
  for_each paths (discover_body W) acc s = (r, s') ->
  self s' = self s
  /\ forall found, r = Returned found ->
                   found = acc ++ flat_map (discovered W) paths.
Proof.
  revert acc s. induction paths as [|base paths IH]; intros acc s; simpl.
  - unfold ret. intros H. inversion H; subst. split; [reflexivity|].
    intros found Hf. inversion Hf. now rewrite app_nil_r.
  - unfold bind at 1. unfold discover_body at 1. unfold bind at 1.
    pose proof (discover_indexes_run_lemma W base s) as Hrun.
    rewrite Hrun. unfold discovered at 1.
    destruct (path_exists W (in_index_store base)).
    + destruct (listdir W (in_index_store base)) as [items|what].
      * unfold ret. intros H. apply IH in H. destruct H as [Hself Hfound].
        split; [exact Hself|]. intros found Hf.
        rewrite (Hfound found Hf). now rewrite <- app_assoc.
      * intros H. inversion H; subst. split; [reflexivity | discriminate].
    + unfold ret. intros H. apply IH in H. destruct H as [Hself Hfound].
      split; [exact Hself|]. intros found Hf.
      rewrite (Hfound found Hf). now rewrite <- app_assoc.
Qed.

Lemma discovery_index_paths W auto_discover s s0 :
  discovery W auto_discover s = (Returned tt, s0) ->
  index_paths (self s0)
  = if auto_discover
       && Py.nonempty (flat_map (discovered W) (index_paths (self s)))
    then flat_map (discovered W) (index_paths (self s))
    else index_paths (self s).
Proof.
  destruct auto_discover; cbn [andb discovery];
    [|unfold ret; intros H; now inversion H].
  unfold auto_discovery. unfold bind at 1. unfold get_self at 1.
  cbv beta iota. unfold bind at 1.
  change (fun (acc : list string) (base_path : string) =>
            bind (_discover_indexes W base_path)
                 (fun discovered => ret (acc ++ discovered)))
    with (discover_body W).
  destruct (for_each (index_paths (self s)) (discover_body W) [] s)
    as [[found|e] s1] eqn:Hloop; [|discriminate].
  apply discover_all_run in Hloop. destruct Hloop as [Hself Hfound].
  rewrite (Hfound found eq_refl). cbn [app].
  destruct (Py.nonempty (flat_map (discovered W) (index_paths (self s)))).
  - unfold bind at 1. unfold set_self at 1. cbv beta iota.
    unfold bind at 1. unfold print at 1. rewrite emit_run.
    rewrite (print_loop_run (fun idx_path => "  - " ++ idx_path)%string).
    intros H. inversion H. reflexivity.
  - unfold print. rewrite emit_run. intros H. inversion H. simpl.
    now rewrite Hself.
Qed.

(** X13.  After a [load_index] that returns, the paths of the object are the
    discovered ones when auto-discovery was asked for and found at least one
    index under the configured paths, and the configured paths otherwise:
    a discovery that finds nothing leaves the configuration in place. *)
Theorem load_index_paths_after_discovery (W : World) (auto_discover : bool)
        (s : state) :
  fst (load_index W auto_discover s) = Returned tt ->
  index_paths (self (snd (load_index W auto_discover s)))
  = if auto_discover
       && Py.nonempty (flat_map (discovered W) (index_paths (self s)))
    then flat_map (discovered W) (index_paths (self s))
    else index_paths (self s).
Proof.
  rewrite load_index_phases.
  destruct (discovery W auto_discover s) as [[[]|e] s0] eqn:Hd;
    [|discriminate].
  intros _. rewrite load_index_run, load_result_index_paths.
  now apply discovery_index_paths.
Qed.

(** ** Loading *)

Lemma resolved_exists W base path :
  resolved W base = Some path ->
  path_exists W path = true
  /\ (path = in_index_store (basename (abspath W base))
      \/ (path = abspath W base
          /\ path_exists W (in_index_store (basename (abspath W base)))
             = false)).
Proof.
  unfold resolved, _get_index_path.
  destruct (path_exists W (in_index_store (basename (abspath W base))))
    eqn:Hstore.
  - destruct (Py.truthy _); [|discriminate]. intros H. inversion H; subst.
    auto.
  - destruct (path_exists W (abspath W base)) eqn:Habs; [|discriminate].
    destruct (Py.truthy _); [|discriminate]. intros H. inversion H; subst.
    auto.
Qed.

(** X14.  Every shard that [load_index] appends stands under a path that
    exists: the directory of that name in the index store for some candidate
    path or, only when the store has none, the candidate path itself made
    absolute. *)
Theorem loaded_shards_exist (W : World) (auto_discover : bool) (s : state) :
  let s' := snd (load_index W auto_discover s) in
  exists loaded : list (string * Model),
    shard_models (self s') = shard_models (self s) ++ loaded
    /\ Forall
         (fun shard =>
            path_exists W (fst shard) = true
            /\ exists base,
                 In base (index_paths (self s'))
                 /\ (fst shard = in_index_store (basename (abspath W base))
                     \/ (fst shard = abspath W base
                         /\ path_exists
                              W (in_index_store (basename (abspath W base)))
                            = false)))
         loaded.
Proof.
  cbv zeta. rewrite load_index_phases.
  pose proof (keeps_discovery W auto_discover s) as [Hkeep _].
  destruct (discovery W auto_discover s) as [[[]|e] s0]; simpl in Hkeep.
  - rewrite load_index_run, load_result_index_paths. unfold load_result.
    pose proof (shards_load_sound W (index_paths (self s0)) []) as Hsound.
    destruct (shards_load W (index_paths (self s0)) [])
      as [[r shards] ev].
    destruct Hsound as [_ [[rest Hpre] _]].
    exists shards. split.
    + destruct r as [existing|e]; [destruct (Py.nonempty existing)|];
        simpl; now rewrite Hkeep.
    + apply Forall_forall. intros shard Hshard.
      assert (Hin : In (fst shard)
                       (map snd (candidates_resolved
                                   W (index_paths (self s0))))).
      { rewrite Hpre. apply in_or_app. left. now apply in_map. }
      apply in_map_iff in Hin. destruct Hin as [[base path] [Heq Hin]].
      simpl in Heq. subst path.
      apply in_candidates_resolved in Hin. destruct Hin as [Hbase Hres].
      apply resolved_exists in Hres. destruct Hres as [Hex Hform].
      split; [exact Hex|]. exists base. auto.
  - exists []. simpl. split; [now rewrite app_nil_r, Hkeep | constructor].
Qed.

Lemma load_result_returns W s existing shards ev :
  shards_load W (index_paths (self s)) [] = (Returned existing, shards, ev) ->
  Py.nonempty existing = true ->
  fst (load_result W s) = Returned tt
  /\ shard_models (self (snd (load_result W s)))
     = shard_models (self s) ++ shards.
Proof.
  intros Hload Hne. unfold load_result. rewrite Hload, Hne.
  split; reflexivity.
Qed.

(** X15.  [load_index] is not idempotent.  When a call has returned, with
    or without discovery, a further call without discovery returns too and
    appends the same shards once more, so that every shard of the first call
    is then in the list twice.  (A further call with discovery starts from
    the paths that the first call left and is not covered.) *)
Theorem load_index_twice (W : World) (auto_discover : bool) (s : state) :
  fst (load_index W auto_discover s) = Returned tt ->
  let s1 := snd (load_index W auto_discover s) in
  let s2 := snd (load_index W false s1) in
  exists loaded : list (string * Model),
    loaded <> []
    /\ shard_models (self s1) = shard_models (self s) ++ loaded
    /\ fst (load_index W false s1) = Returned tt
    /\ shard_models (self s2) = shard_models (self s) ++ loaded ++ loaded.
Proof.
  cbv zeta. rewrite load_index_phases.
  pose proof (keeps_discovery W auto_discover s) as [Hkeep _].
  destruct (discovery W auto_discover s) as [[[]|e] s0];
    cbn [snd] in Hkeep; [|discriminate].
  rewrite !load_index_run. intros Hret1.
  pose proof (load_result_index_paths W s0) as Hpaths.
  pose proof (shards_load_sound W (index_paths (self s0)) []) as Hsound.
  destruct (shards_load W (index_paths (self s0)) [])
    as [[[existing|e] shards] ev] eqn:Hload.
  - destruct Hsound as [_ [_ [_ [Hret _]]]].
    destruct (Hret existing eq_refl) as [Hex Hfst].
    assert (Hne : Py.nonempty existing = true).
    { unfold load_result in Hret1. rewrite Hload in Hret1.
      destruct (Py.nonempty existing); [reflexivity | discriminate]. }
    destruct (load_result_returns W s0 existing shards ev Hload Hne)
      as [_ Hs1].
    assert (Hload1 : shards_load
                       W (index_paths (self (snd (load_result W s0)))) []
                     = (Returned existing, shards, ev))
      by now rewrite Hpaths.
    destruct (load_result_returns W _ existing shards ev Hload1 Hne)
      as [Hr2 Hs2].
    exists shards. split; [|split; [|split; [exact Hr2|]]].
    + intros ->. simpl in Hex, Hfst. rewrite <- Hex in Hfst.
      destruct existing; discriminate.
    + now rewrite Hs1, Hkeep.
    + rewrite Hs2, Hs1, Hkeep. now rewrite app_assoc.
  - unfold load_result in Hret1. rewrite Hload in Hret1. discriminate.
Qed.

(** ** [_generate_with_ollama] *)

(** X16.  [_generate_with_ollama] probes the server first.  When the server
    does not answer, it raises the connection error and sends no request for
    a completion.  When it answers, the method always returns a text: the
    response of the server, a fixed apology when the answer has no response
    field, and the description of the error when the request fails; a failed
    request is never raised further. *)
Theorem generate_never_raises_request_errors (W : World) (prompt context : string)
        (s : state) :
  let model := ollama_model (self s) in
  let request := OllamaGenerate model (full_prompt prompt context) in
  if ollama_alive W then
    exists text,
      _generate_with_ollama W prompt context s
      = (Returned text, log s [OllamaTags; request])
      /\ text
         = match ollama_generate W model (full_prompt prompt context) with
           | Fine (Some response) => response
           | Fine None => "Sorry, failed to generate answer."
           | Failed what => ("Error generating answer: " ++ what)%string
           end
  else
    _generate_with_ollama W prompt context s
    = (Raised (GenerationUnavailable (ollama_url (self s))),
       log s [OllamaTags]).
Proof.
  cbv zeta. rewrite _generate_with_ollama_run.
  destruct (ollama_alive W); [|reflexivity].
  eexists. split; [reflexivity|]. unfold generated.
  destruct (ollama_generate W _ _) as [[r|]|what]; reflexivity.
Qed.

(** ** [ask] *)

Definition shrink_notice (original compressed : nat) : list event :=
  if (compressed <? original)%nat then
    [Printed ("Compression: " ++ Py.str_of_nat original ++ " -> "
              ++ Py.str_of_nat compressed ++ " documents")]
  else [].

Definition compression_failed (what : string) : list event :=
  [Printed ("Warning: error during document compression: " ++ what);
   Printed "Using original documents."].

(** The results that [ask] goes on with after the compression step, and the
    output of that step; [made] is the output of a run of [search]. *)
Definition compressed (o : SysAdminRAG) (question : string)
           (found : list SearchHit) (made : list event)
  : list SearchHit * list event :=
  match use_compression o, compressor o with
  | true, Some c =>
      match compress_documents c found question with
      | Failed what => (found, Compress question :: compression_failed what)
      | Fine [] =>
          (found,
           Compress question
           :: shrink_notice (List.length found) 0
              ++ Printed all_filtered_warning :: made)
      | Fine kept =>
          (kept,
           Compress question
           :: shrink_notice (List.length found) (List.length kept))
      end
  | _, _ => (found, [])
  end.

(** The value and the output of [ask] for an object. *)
Definition ask_result (W : World) (o : SysAdminRAG) (question : string)
           (k : Z) : outcome Answer * list event :=
  match search_result W o question k with
  | (Raised e, made) => (Raised e, made)
  | (Returned [], made) => (Returned no_information, made)
  | (Returned found, made) =>
      let (results, cev) := compressed o question found made in
      if ollama_alive W then
        (Returned {| answer := generated W (ollama_model o) question
                                         (context_of results);
                     sources := map source_of results;
                     search_results := results |},
         made ++ cev
         ++ [OllamaTags;
             OllamaGenerate (ollama_model o)
                            (full_prompt question (context_of results))])
      else
        (Raised (GenerationUnavailable (ollama_url o)),
         made ++ cev ++ [OllamaTags])
  end.

Lemma compression_run W c question k found made s :
  search_result W (self s) question k = (Returned found, made) ->
  found <> [] ->
  use_compression (self s) = true ->
  compressor (self s) = Some c ->
  compression W c question k found s
  = (Returned (fst (compressed (self s) question found made)),
     log s (snd (compressed (self s) question found made))).
Proof.
  intros Hres Hfound Huse Hc. unfold compressed. rewrite Huse, Hc.
  unfold compression. unfold try_except at 1. unfold bind at 1.
  rewrite call_run.
  destruct (compress_documents c found question) as [kept|what].
  - destruct kept as [|h kept].
    + destruct found as [|f found]; [contradiction|].
      change (List.length (@nil SearchHit)) with 0%nat.
      change (0 <? List.length (f :: found))%nat with true.
      change (0 =? 0)%nat with true. cbn [andb].
      unfold bind at 1. unfold print at 1. rewrite emit_run.
      unfold bind at 1. unfold print at 1. rewrite emit_run.
      unfold try_except. rewrite search_run. cbn [self log].
      rewrite Hres. cbn [fst snd]. rewrite !log_log. reflexivity.
    + cbn [fst snd]. unfold shrink_notice.
      change (List.length (h :: kept) =? 0)%nat with false. cbn [andb].
      destruct (List.length (h :: kept) <? List.length found)%nat.
      * unfold bind, print. rewrite emit_run. unfold ret.
        rewrite log_log. reflexivity.
      * unfold bind, ret. reflexivity.
  - cbn [fst snd]. unfold bind, print. rewrite !emit_run. unfold ret.
    rewrite !log_log. reflexivity.
Qed.

Lemma ask_run W question k s :
  ask W question k s
  = (fst (ask_result W (self s) question k),
     log s (snd (ask_result W (self s) question k))).
Proof.
  unfold ask, ask_result. unfold bind at 1. rewrite search_run.
  destruct (search_result W (self s) question k) as [[found|e] made] eqn:Hres;
    cbn [fst snd]; [|reflexivity].
  destruct found as [|hit rest]; [reflexivity|].
  set (found := hit :: rest) in *.
  change (negb (Py.nonempty found)) with false. cbv iota.
  unfold bind at 1. unfold get_self at 1. cbv beta iota. cbn [self log].
  unfold bind at 1.
  assert (Hstep :
            match use_compression (self s), compressor (self s) with
            | true, Some c => compression W c question k found
            | _, _ => ret found
            end (log s made)
            = (Returned (fst (compressed (self s) question found made)),
               log s (made ++ snd (compressed (self s) question found made)))).
  { destruct (use_compression (self s)) eqn:Huse;
      [destruct (compressor (self s)) as [c|] eqn:Hc|].
    - rewrite (compression_run W c question k found made (log s made));
        try assumption; try discriminate.
      + cbn [self log]. now rewrite log_log.
    - unfold compressed. rewrite Huse, Hc. unfold ret. cbn [fst snd].
      now rewrite app_nil_r.
    - unfold compressed. rewrite Huse. unfold ret. cbn [fst snd].
      now rewrite app_nil_r. }
  rewrite Hstep. cbv beta iota.
  destruct (compressed (self s) question found made) as [results cev].
  cbn [fst snd]. unfold bind at 1. rewrite _generate_with_ollama_run.
  cbn [self log].
  destruct (ollama_alive W); unfold ret; cbn [fst snd];
    rewrite ?log_log, <- ?app_assoc; reflexivity.
Qed.

(** The answer that [ask] builds from a list of results, and the calls of
    the completion provider that go with it. *)
Definition answer_from (W : World) (o : SysAdminRAG) (question : string)
           (results : list SearchHit) : outcome Answer :=
  if ollama_alive W then
    Returned {| answer := generated W (ollama_model o) question
                                    (context_of results);
                sources := map source_of results;
                search_results := results |}
  else Raised (GenerationUnavailable (ollama_url o)).

Definition completion_events (W : World) (o : SysAdminRAG) (question : string)
           (results : list SearchHit) : list event :=
  if ollama_alive W then
    [OllamaTags;
     OllamaGenerate (ollama_model o) (full_prompt question (context_of results))]
  else [OllamaTags].

Lemma ask_result_found W o question k hit rest made :
  search_result W o question k = (Returned (hit :: rest), made) ->
  ask_result W o question k
  = (answer_from W o question
                 (fst (compressed o question (hit :: rest) made)),
     made ++ snd (compressed o question (hit :: rest) made)
     ++ completion_events W o question
          (fst (compressed o question (hit :: rest) made))).
Proof.
  intros Hres. unfold ask_result, answer_from, completion_events.
  rewrite Hres. destruct (compressed o question (hit :: rest) made).
  cbn [fst snd]. destruct (ollama_alive W); reflexivity.
Qed.

(** X17.  A compressor that raises does not make [ask] fail: the exception
    is caught, two warnings are printed, and the answer, its sources and its
    search results are built from what [search] returned, as without
    compression; [search] is not run again. *)
Theorem ask_survives_compressor_failure (W : World) (s s1 : state)
        (question : string) (k : Z) (found : list SearchHit)
        (c : DocumentCompressor) (what : string) :
  search W question k s = (Returned found, s1) ->
  found <> [] ->
  use_compression (self s) = true ->
  compressor (self s) = Some c ->
  compress_documents c found question = Failed what ->
  ask W question k s
  = (answer_from W (self s) question found,
     log s1 ([Compress question;
              Printed ("Warning: error during document compression: " ++ what);
              Printed "Using original documents."]
             ++ completion_events W (self s) question found)).
Proof.
  intros Hsearch Hfound Huse Hc Hfail.
  pose proof (search_returns _ _ _ _ _ _ Hsearch) as [Hres ->].
  rewrite ask_run. destruct found as [|hit rest]; [contradiction|].
  rewrite (ask_result_found _ _ _ _ _ _ _ Hres).
  unfold compressed. rewrite Huse, Hc, Hfail. cbn [fst snd].
  now rewrite log_log.
Qed.

(** X18.  When the compressor returns a list that is not empty, [ask] goes
    on with that list: the context, the sources and the search results of
    the answer are those of the compressor's output, in its order, and
    [search] is not run again. *)
Theorem ask_uses_compressed_results (W : World) (s s1 : state)
        (question : string) (k : Z) (found kept : list SearchHit)
        (c : DocumentCompressor) :
  search W question k s = (Returned found, s1) ->
  found <> [] ->
  use_compression (self s) = true ->
  compressor (self s) = Some c ->
  compress_documents c found question = Fine kept ->
  kept <> [] ->
  ask W question k s
  = (answer_from W (self s) question kept,
     log s1 (Compress question
             :: shrink_notice (List.length found) (List.length kept)
             ++ completion_events W (self s) question kept)).
Proof.
  intros Hsearch Hfound Huse Hc Hkept Hne.
  pose proof (search_returns _ _ _ _ _ _ Hsearch) as [Hres ->].
  rewrite ask_run. destruct found as [|hit rest]; [contradiction|].
  rewrite (ask_result_found _ _ _ _ _ _ _ Hres).
  unfold compressed. rewrite Huse, Hc, Hkept.
  destruct kept as [|h kept]; [contradiction|]. cbn [fst snd].
  now rewrite log_log.
Qed.

Lemma compressed_nonempty o question found made :
  found <> [] -> fst (compressed o question found made) <> [].
Proof.
  intros Hfound. unfold compressed.
  destruct (use_compression o); [|exact Hfound].
  destruct (compressor o) as [c|]; [|exact Hfound].
  destruct (compress_documents c found question) as [[|h kept]|what];
    cbn [fst]; [exact Hfound | discriminate | exact Hfound].
Qed.

(** X19.  Whenever [ask] returns, the sources of the answer are the title,
    the url and the score of its search results, one for one and in the same
    order; and the search results are empty only in the fixed answer that no
    relevant information was found. *)
Theorem ask_sources_follow_results (W : World) (s : state) (question : string)
        (k : Z) (a : Answer) :
  fst (ask W question k s) = Returned a ->
  sources a
  = map (fun r => {| src_title := h_title r; src_url := h_source_url r;
                     relevance_score := h_score r |})
        (search_results a)
  /\ (search_results a = [] -> a = no_information).
Proof.
  rewrite ask_run. cbn [fst].
  destruct (search_result W (self s) question k) as [[found|e] made] eqn:Hres.
  - destruct found as [|hit rest].
    + unfold ask_result. rewrite Hres. cbn [fst].
      intros H. inversion H. split; reflexivity.
    + rewrite (ask_result_found _ _ _ _ _ _ _ Hres). cbn [fst].
      unfold answer_from. destruct (ollama_alive W); [|discriminate].
      intros H. inversion H. cbn [sources search_results].
      split; [reflexivity|]. intros Hnil. exfalso.
      revert Hnil. apply compressed_nonempty. discriminate.
  - unfold ask_result. rewrite Hres. discriminate.
Qed.

(** X20.  [ask] raises in three cases only: the index is not loaded, a shard
    query of [search] raises, or the completion server does not answer the
    probe.  What the compressor or the request for a completion raise never
    leaves [ask]. *)
Theorem ask_errors (W : World) (s : state) (question : string) (k : Z)
        (e : error) :
  fst (ask W question k s) = Raised e ->
  (e = NotLoaded /\ index_loaded (self s) = false)
  \/ (fst (search W question k s) = Raised e /\ exists what, e = External what)
  \/ (e = GenerationUnavailable (ollama_url (self s))
      /\ ollama_alive W = false).
Proof.
  rewrite ask_run, search_run. cbn [fst].
  destruct (search_result W (self s) question k) as [[found|e'] made] eqn:Hres.
  - destruct found as [|hit rest].
    + unfold ask_result. rewrite Hres. discriminate.
    + rewrite (ask_result_found _ _ _ _ _ _ _ Hres). cbn [fst].
      unfold answer_from. destruct (ollama_alive W); [discriminate|].
      intros H. inversion H. right. right. split; reflexivity.
  - unfold ask_result. rewrite Hres. cbn [fst]. intros H. inversion H; subst.
    unfold search_result in Hres.
    destruct (index_loaded (self s)); cbn [negb] in Hres.
    + right. left. split; [reflexivity|].
      pose proof (gather_raises W question (shard_models (self s)) [] e) as Hg.
      destruct (gather W question (shard_models (self s)) [])
        as [[all|e''] ev]; [discriminate|].
      inversion Hres; subst. now apply Hg.
    + inversion Hres. left. split; reflexivity.
Qed.

(** ** A hit formatted against the table of a build *)

(** X8.  A result that is a bare text, at position [i] of what a model
    returns, formatted against the table written for a list of chunks, takes
    the [chunk_id], title, source url and metadata of the chunk at position
    [i] of that list and the score 1, and keeps its text unless it is empty;
    past the end of the list it gets the writing of [i] as [chunk_id] and an
    empty title and url. *)
Theorem formatted_text_hit_from_table (chunks : list Chunk)
        (index_path : string) (i : nat) (result_text : string) :
  format_result index_path (IdentityFacts.metadata_table chunks)
                (i, RawText result_text)
  = match nth_error chunks i with
    | Some chunk =>
        {| h_chunk_id := chunk_id chunk;
           h_text := if Py.truthy result_text then result_text
                     else text chunk;
           h_score := 1; h_title := title chunk;
           h_source_url := source_url chunk;
           h_metadata := metadata chunk;
           h_index_path := Some index_path |}
    | None =>
        {| h_chunk_id := Py.str_of_nat i; h_text := result_text;
           h_score := 1; h_title := ""; h_source_url := "";
           h_metadata := []; h_index_path := Some index_path |}
    end.
Proof.
  unfold format_result, IdentityFacts.metadata_table, Py.enumerate.
  pose proof (IdentityFacts.lookup_table_from chunks 0 i) as Hlookup.
  cbn [Nat.add] in Hlookup. cbv zeta. rewrite Hlookup.
  destruct (nth_error chunks i) as [chunk|]; cbn [option_map get];
    [reflexivity|].
  destruct result_text; reflexivity.
Qed.

(** ** What every sequence of calls keeps *)

Inductive method_call : Type :=
| CallLoadIndex (auto_discover : bool)
| CallBuildIndex (jsonl_path : string) (force_rebuild : bool)
| CallSearch (query : string) (k : Z)
| CallAsk (question : string) (k : Z).

(** The state after a call, whether it returns or raises. *)
Definition after_call (W : World) (s : state) (c : method_call) : state :=
  match c with
  | CallLoadIndex auto_discover => snd (load_index W auto_discover s)
  | CallBuildIndex jsonl_path force_rebuild =>
      snd (build_index W jsonl_path force_rebuild s)
  | CallSearch query k => snd (search W query k s)
  | CallAsk question k => snd (ask W question k s)
  end.

Definition after_calls (W : World) (s : state) (calls : list method_call)
  : state :=
  fold_left (after_call W) calls s.

(** A shard whose handle the provider constructed from its path, which
    exists. *)
Definition sound_shard (W : World) (shard : string * Model) : Prop :=
  from_index W (abspath W (fst shard)) = Fine (snd shard)
  /\ path_exists W (fst shard) = true.

(** The fields that no method assigns. *)
Definition same_configuration (o o' : SysAdminRAG) : Prop :=
  index_path o' = index_path o
  /\ ollama_url o' = ollama_url o
  /\ ollama_model o' = ollama_model o
  /\ chunker o' = chunker o
  /\ use_compression o' = use_compression o
  /\ compressor o' = compressor o.

Definition kept_by_calls (W : World) (o o' : SysAdminRAG) : Prop :=
  same_configuration o o'
  /\ index_paths o' <> []
  /\ Forall (sound_shard W) (shard_models o').

Lemma same_configuration_refl o : same_configuration o o.
Proof. repeat split. Qed.

Lemma discovery_self W auto_discover s r s0 :
  discovery W auto_discover s = (r, s0) ->
  same_configuration (self s) (self s0)
  /\ shard_models (self s0) = shard_models (self s)
  /\ (index_paths (self s) <> [] -> index_paths (self s0) <> []).
Proof.
  destruct auto_discover; cbn [discovery].
  2:{ unfold ret. intros H. inversion H; subst.
      split; [apply same_configuration_refl | split; auto]. }
  unfold auto_discovery. unfold bind at 1. unfold get_self at 1.
  cbv beta iota. unfold bind at 1.
  change (fun (acc : list string) (base_path : string) =>
            bind (_discover_indexes W base_path)
                 (fun discovered => ret (acc ++ discovered)))
    with (discover_body W).
  destruct (for_each (index_paths (self s)) (discover_body W) [] s)
    as [[found|e] s1] eqn:Hloop;
    apply discover_all_run in Hloop; destruct Hloop as [Hself _].
  - destruct found as [|p found]; cbn [Py.nonempty].
    + unfold print. rewrite emit_run. intros H. inversion H; subst.
      cbn [self log]. rewrite Hself.
      split; [apply same_configuration_refl | split; auto].
    + unfold bind at 1. unfold set_self at 1. cbv beta iota.
      unfold bind at 1. unfold print at 1. rewrite emit_run.
      rewrite (print_loop_run (fun idx_path => "  - " ++ idx_path)%string).
      intros H. inversion H; subst. cbn [self log]. rewrite Hself.
      split; [repeat split|]. split; [reflexivity|]. intros _. discriminate.
  - intros H. inversion H; subst. rewrite Hself.
    split; [apply same_configuration_refl | split; auto].
Qed.

Lemma load_result_self W s :
  let s' := snd (load_result W s) in
  same_configuration (self s) (self s')
  /\ exists loaded,
       shard_models (self s') = shard_models (self s) ++ loaded
       /\ Forall (sound_shard W) loaded.
Proof.
  cbv zeta. unfold load_result.
  pose proof (shards_load_sound W (index_paths (self s)) []) as Hsound.
  destruct (shards_load W (index_paths (self s)) []) as [[r shards] ev].
  destruct Hsound as [Hcons [[rest Hpre] _]].
  assert (Hgood : Forall (sound_shard W) shards).
  { apply Forall_forall. intros shard Hshard. split.
    - rewrite Forall_forall in Hcons. now apply Hcons.
    - assert (Hin : In (fst shard)
                       (map snd (candidates_resolved W (index_paths (self s)))))
        by (rewrite Hpre; apply in_or_app; left; now apply in_map).
      apply in_map_iff in Hin. destruct Hin as [[base path] [Heq Hin]].
      simpl in Heq. subst path. apply in_candidates_resolved in Hin.
      destruct Hin as [_ Hres]. now apply resolved_exists in Hres. }
  destruct r as [existing|e]; [destruct (Py.nonempty existing)|];
    (split; [repeat split | exists shards; split; [reflexivity | exact Hgood]]).
Qed.

Lemma build_index_self W jsonl_path force_rebuild s :
  let s' := snd (build_index W jsonl_path force_rebuild s) in
  same_configuration (self s) (self s')
  /\ shard_models (self s') = shard_models (self s)
  /\ index_paths (self s') = index_paths (self s).
Proof.
  cbv zeta.
  remember (build_index W jsonl_path force_rebuild s) as res eqn:Hres.
  unfold build_index, bind, print, emit, call, set_self, get_self, ret
    in Hres.
  destruct (path_exists W (index_path (self s)) && negb force_rebuild);
    [subst res; repeat split|].
  destruct (read_jsonl W jsonl_path); [|subst res; repeat split].
  destruct (build_colbert W _ _); [|subst res; repeat split].
  destruct (write_json W _ _); subst res; repeat split.
Qed.

Lemma kept_by_call W o s c :
  kept_by_calls W o (self s) -> kept_by_calls W o (self (after_call W s c)).
Proof.
  intros [[H1 [H2 [H3 [H4 [H5 H6]]]]] [Hpaths Hshards]].
  destruct c as [auto|path force|query k|question k]; cbn [after_call].
  - rewrite load_index_phases.
    destruct (discovery W auto s) as [[[]|e] s0] eqn:Hd;
      apply discovery_self in Hd;
      destruct Hd as [[D1 [D2 [D3 [D4 [D5 D6]]]]] [Dshards Dpaths]].
    + rewrite load_index_run.
      pose proof (load_result_self W s0) as Hl. cbv zeta in Hl.
      pose proof (load_result_index_paths W s0) as Hip.
      destruct Hl as [[L1 [L2 [L3 [L4 [L5 L6]]]]] [loaded [Lshards Lgood]]].
      split; [repeat split; congruence|]. split.
      * rewrite Hip. now apply Dpaths.
      * rewrite Lshards, Dshards. apply Forall_app. split; assumption.
    + cbn [snd]. split; [repeat split; congruence|]. split.
      * now apply Dpaths.
      * now rewrite Dshards.
  - pose proof (build_index_self W path force s) as Hb. cbv zeta in Hb.
    destruct Hb as [[B1 [B2 [B3 [B4 [B5 B6]]]]] [Bshards Bpaths]].
    split; [repeat split; congruence|]. split.
    + now rewrite Bpaths.
    + now rewrite Bshards.
  - rewrite search_run. cbn [snd self log].
    split; [repeat split; assumption | split; assumption].
  - rewrite ask_run. cbn [snd self log].
    split; [repeat split; assumption | split; assumption].
Qed.

(** X21.  Whatever methods are called on a new object, in whatever order
    and whether they return or raise: the configuration of the object (its
    default index path, the server, the model, the chunker, the compression
    flag and the compressor) stays as the constructor set it; the list of
    index paths is never empty; compression is never on without a
    compressor; and every shard in the shard list has a handle that the
    provider constructed from its path, which exists on disk. *)
Theorem object_invariant (W : World) (index_path : string)
        (index_paths : option (list string)) (ollama_url ollama_model : string)
        (chunk_size chunk_overlap : Z) (use_document_compression : bool)
        (langchain : option (external DocumentCompressor))
        (calls : list method_call) :
  let s0 := init index_path index_paths ollama_url ollama_model chunk_size
                 chunk_overlap use_document_compression langchain in
  let s := after_calls W s0 calls in
  same_configuration (self s0) (self s)
  /\ Rag.index_paths (self s) <> []
  /\ (use_compression (self s) = true -> compressor (self s) <> None)
  /\ Forall (fun shard =>
               from_index W (abspath W (fst shard)) = Fine (snd shard)
               /\ path_exists W (fst shard) = true)
            (shard_models (self s)).
Proof.
  cbv zeta.
  set (s0 := init index_path index_paths ollama_url ollama_model chunk_size
                  chunk_overlap use_document_compression langchain).
  assert (H0 : kept_by_calls W (self s0) (self s0)).
  { split; [apply same_configuration_refl|]. subst s0. unfold init.
    destruct index_paths as [[|p ps]|];
      destruct use_document_compression;
      try destruct langchain as [[c|what]|];
      (split; [discriminate | constructor]). }
  assert (Hall : forall calls s,
             kept_by_calls W (self s0) (self s) ->
             kept_by_calls W (self s0) (self (after_calls W s calls))).
  { clear. intros calls. induction calls as [|c calls IH]; intros s H;
      [exact H|]. apply IH, kept_by_call, H. }
  destruct (Hall calls s0 H0) as [Hcfg [Hpaths Hshards]].
  split; [exact Hcfg|]. split; [exact Hpaths|]. split; [|exact Hshards].
  destruct Hcfg as [_ [_ [_ [_ [Huse Hcomp]]]]]. rewrite Huse, Hcomp.
  subst s0. unfold init.
  destruct index_paths as [[|p ps]|];
    destruct use_document_compression;
    try destruct langchain as [[c|what]|]; cbn; congruence.
Qed.

End PipelineFacts.

(** * The further properties on concrete inputs *)

Module Instances.

Import Chunking Rag ChunkingFacts Overlap RagFacts.
Import SplitFacts PackingFacts DocumentFacts IdentityFacts PipelineFacts.

(** ** Chunking *)

(** Sentence mode with a limit of two tokens and no overlap. *)
Definition two_token_chunker : SmartChunker :=
  {| chunk_size := 2; chunk_overlap := 0; min_chunk_size := 1;
     respect_sentences := true; respect_paragraphs := true |}.

Definition three_sentences : string := "Aaaaaa. Bbbbbb. Cccccc.".

(** The first chunk holds two sentences counted as one token each, and is
    itself estimated at three tokens, one more than [chunk_size]. *)
Example two_sentences_over_the_limit :
  _split_paragraph two_token_chunker three_sentences
  = ["Aaaaaa. Bbbbbb."; "Cccccc."]
  /\ Py.sum_map (unit_size two_token_chunker) ["Aaaaaa."; "Bbbbbb."] = 2
  /\ _estimate_tokens "Aaaaaa. Bbbbbb." = 3.
Proof. repeat split; vm_compute; reflexivity. Qed.


Lemma word_mode_keeps_every_word_witness :
  (respect_sentences word_chunker = false /\ chunk_overlap word_chunker <= 0)
  /\ flat_map Py.split (_split_paragraph word_chunker "aaaa bbbb ccc")
     = Py.split "aaaa bbbb ccc".
Proof.
  assert (H1 : respect_sentences word_chunker = false) by reflexivity.
  assert (H2 : chunk_overlap word_chunker <= 0) by (simpl; lia).
  split; [split; assumption|].
  exact (word_mode_keeps_every_word word_chunker "aaaa bbbb ccc" H1 H2).
Defined.

Lemma paragraph_mode_chunks_trimmed_witness :
  respect_paragraphs small_paragraph_chunker = true
  /\ Forall (fun c => text c <> EmptyString /\ Py.strip (text c) = text c)
            (chunk_document small_paragraph_chunker three_paragraphs).
Proof.
  assert (H : respect_paragraphs small_paragraph_chunker = true)
    by reflexivity.
  split; [exact H|].
  exact (paragraph_mode_chunks_trimmed small_paragraph_chunker
                                       three_paragraphs H).
Defined.

(** The chunk of the third paragraph of [three_paragraphs]. *)
Definition epsilon_chunk : Chunk :=
  {| text := "Epsilon zeta eta theta.";
     chunk_id := "doc_chunk_2_0";
     source_id := "doc";
     source_url := "http://example.org/doc";
     title := "Title";
     chunk_index := 1;
     metadata := [("lang", VStr "en"); ("paragraph_index", VInt 2);
                  ("chunk_in_paragraph", VInt 0); ("total_chunks", VInt 1)] |}.

Lemma paragraph_mode_chunk_provenance_witness :
  (respect_paragraphs small_paragraph_chunker = true
   /\ In epsilon_chunk
         (chunk_document small_paragraph_chunker three_paragraphs))
  /\ exists (para_idx chunk_idx : nat) (paragraph : string),
       nth_error (_split_into_paragraphs
                    (get (doc_text three_paragraphs) "")) para_idx
       = Some paragraph
       /\ nth_error (_split_paragraph small_paragraph_chunker paragraph)
                    chunk_idx
          = Some (text epsilon_chunk)
       /\ chunk_id epsilon_chunk
          = (doc_id three_paragraphs ++ "_chunk_" ++ Py.str_of_nat para_idx
                    ++ "_" ++ Py.str_of_nat chunk_idx)%string
       /\ source_id epsilon_chunk = doc_id three_paragraphs
       /\ dict_get (metadata epsilon_chunk) "paragraph_index"
          = Some (VInt (Z.of_nat para_idx))
       /\ dict_get (metadata epsilon_chunk) "chunk_in_paragraph"
          = Some (VInt (Z.of_nat chunk_idx))
       /\ dict_get (metadata epsilon_chunk) "total_chunks"
          = Some (VInt (Z.of_nat
                          (List.length
                             (_split_paragraph small_paragraph_chunker
                                               paragraph))))
       /\ (forall k,
              k <> "paragraph_index" -> k <> "chunk_in_paragraph" ->
              k <> "total_chunks" ->
              dict_get (metadata epsilon_chunk) k
              = dict_get (get (doc_meta three_paragraphs) []) k).
Proof.
  assert (H1 : respect_paragraphs small_paragraph_chunker = true)
    by reflexivity.
  assert (H2 : In epsilon_chunk
                  (chunk_document small_paragraph_chunker three_paragraphs))
    by (vm_compute; right; left; reflexivity).
  split; [split; assumption|].
  exact (paragraph_mode_chunk_provenance small_paragraph_chunker
                                         three_paragraphs epsilon_chunk H1 H2).
Defined.

(** ** Search *)

Definition bacula : string := "How to install Bacula?".

Lemma bacula_search : fst (search sound_world bacula 2 loaded_rag)
                      = Returned found_hits.
Proof. vm_compute. reflexivity. Qed.

Lemma search_keeps_order_of_equal_scores_witness :
  fst (search sound_world bacula 2 loaded_rag) = Returned found_hits
  /\ exists rest,
       filter (fun h => Qeq_bool (h_score h) 2)
              (flat_map (shard_hits sound_world bacula)
                        (shard_models (self loaded_rag)))
       = filter (fun h => Qeq_bool (h_score h) 2) found_hits ++ rest.
Proof.
  split; [exact bacula_search|].
  exact (search_keeps_order_of_equal_scores sound_world loaded_rag bacula 2
                                            found_hits 2 bacula_search).
Defined.

Lemma search_result_length_witness :
  fst (search sound_world bacula 2 loaded_rag) = Returned found_hits
  /\ Z.of_nat (List.length found_hits)
     = if 2 <? 0
       then Z.max 0 (Z.of_nat
                       (List.length
                          (flat_map (shard_hits sound_world bacula)
                                    (shard_models (self loaded_rag)))) + 2)
       else Z.min 2 (Z.of_nat
                       (List.length
                          (flat_map (shard_hits sound_world bacula)
                                    (shard_models (self loaded_rag))))).
Proof.
  split; [exact bacula_search|].
  exact (search_result_length sound_world loaded_rag bacula 2 found_hits
                              bacula_search).
Defined.

Lemma search_hits_come_from_shards_witness :
  fst (search sound_world bacula 2 loaded_rag) = Returned found_hits
  /\ Forall (fun h =>
               exists shard,
                 In shard (shard_models (self loaded_rag))
                 /\ In h (shard_hits sound_world bacula shard)
                 /\ h_index_path h = Some (fst shard))
            found_hits.
Proof.
  split; [exact bacula_search|].
  exact (search_hits_come_from_shards sound_world loaded_rag bacula 2
                                      found_hits bacula_search).
Defined.

(** ** Loading *)

(** The installation of [sound_world] seen from the index store: the store
    lists the two index directories and a file, and a path under the working
    directory /srv/rag is made relative by dropping that prefix. *)
Definition store_world : World :=
  {| path_exists := fun p =>
       path_exists sound_world p || String.eqb p (in_index_store "");
     abspath := abspath sound_world;
     relpath_cwd := fun p => substring 9 (String.length p - 9) p;
     isdir := fun p => String.eqb p docs_path || String.eqb p wiki_path;
     listdir := fun _ => Fine ["docs"; "notes.txt"; "wiki"];
     from_index := from_index sound_world;
     load_json := load_json sound_world;
     read_jsonl := read_jsonl sound_world;
     build_colbert := build_colbert sound_world;
     write_json := write_json sound_world;
     ollama_alive := ollama_alive sound_world;
     ollama_generate := ollama_generate sound_world |}.

(** [SysAdminRAG(index_path="")] *)
Definition store_rag : state :=
  init "" None "http://localhost:11434" "gemma:2b" 500 100 false None.

Example store_discovery :
  discovered store_world "" = [docs_path; wiki_path].
Proof. vm_compute. reflexivity. Qed.

Lemma load_index_paths_after_discovery_witness :
  fst (load_index store_world true store_rag) = Returned tt
  /\ index_paths (self (snd (load_index store_world true store_rag)))
     = if true
          && Py.nonempty (flat_map (discovered store_world)
                                   (index_paths (self store_rag)))
       then flat_map (discovered store_world) (index_paths (self store_rag))
       else index_paths (self store_rag).
Proof.
  assert (H : fst (load_index store_world true store_rag) = Returned tt)
    by (vm_compute; reflexivity).
  split; [exact H|].
  exact (load_index_paths_after_discovery store_world true store_rag H).
Defined.

Lemma load_index_twice_witness :
  fst (load_index store_world true store_rag) = Returned tt
  /\ exists loaded : list (string * Model),
       loaded <> []
       /\ shard_models (self (snd (load_index store_world true store_rag)))
          = shard_models (self store_rag) ++ loaded
       /\ fst (load_index store_world false
                          (snd (load_index store_world true store_rag)))
          = Returned tt
       /\ shard_models
            (self (snd (load_index
                          store_world false
                          (snd (load_index store_world true store_rag)))))
          = shard_models (self store_rag) ++ loaded ++ loaded.
Proof.
  assert (H : fst (load_index store_world true store_rag) = Returned tt)
    by (vm_compute; reflexivity).
  split; [exact H|].
  exact (load_index_twice store_world true store_rag H).
Defined.

Example second_load_doubles_paths :
  map fst (shard_models
             (self (snd (load_index
                           store_world false
                           (snd (load_index store_world true store_rag))))))
  = [docs_path; wiki_path; docs_path; wiki_path].
Proof. vm_compute. reflexivity. Qed.

(** ** Answering *)

(** A compressor whose model cannot be reached, and one that keeps the first
    document. *)
Definition failing_compressor : DocumentCompressor :=
  {| compress_documents := fun _ _ => Failed "connection refused" |}.

Definition first_compressor : DocumentCompressor :=
  {| compress_documents := fun documents _ => Fine (firstn 1 documents) |}.

Definition rag_with (c : DocumentCompressor) : state :=
  snd (load_index sound_world false
                  (init "" (Some ["docs"; "wiki"]) "http://localhost:11434"
                        "gemma:2b" 500 100 true (Some (Fine c)))).

Lemma ask_survives_compressor_failure_witness :
  (search sound_world bacula 2 (rag_with failing_compressor)
   = (Returned found_hits,
      snd (search sound_world bacula 2 (rag_with failing_compressor)))
   /\ found_hits <> []
   /\ use_compression (self (rag_with failing_compressor)) = true
   /\ compressor (self (rag_with failing_compressor))
      = Some failing_compressor
   /\ compress_documents failing_compressor found_hits bacula
      = Failed "connection refused")
  /\ ask sound_world bacula 2 (rag_with failing_compressor)
     = (answer_from sound_world (self (rag_with failing_compressor)) bacula
                    found_hits,
        log (snd (search sound_world bacula 2 (rag_with failing_compressor)))
            ([Compress bacula;
              Printed ("Warning: error during document compression: "
                       ++ "connection refused");
              Printed "Using original documents."]
             ++ completion_events sound_world
                                  (self (rag_with failing_compressor))
                                  bacula found_hits)).
Proof.
  assert (H1 : search sound_world bacula 2 (rag_with failing_compressor)
               = (Returned found_hits,
                  snd (search sound_world bacula 2
                              (rag_with failing_compressor))))
    by (vm_compute; reflexivity).
  assert (H2 : found_hits <> []) by (vm_compute; discriminate).
  assert (H3 : use_compression (self (rag_with failing_compressor)) = true)
    by reflexivity.
  assert (H4 : compressor (self (rag_with failing_compressor))
               = Some failing_compressor) by reflexivity.
  assert (H5 : compress_documents failing_compressor found_hits bacula
               = Failed "connection refused") by reflexivity.
  split; [repeat split; assumption|].
  exact (ask_survives_compressor_failure
           sound_world (rag_with failing_compressor)
           (snd (search sound_world bacula 2 (rag_with failing_compressor)))
           bacula 2 found_hits failing_compressor "connection refused"
           H1 H2 H3 H4 H5).
Defined.

Lemma ask_uses_compressed_results_witness :
  (search sound_world bacula 2 (rag_with first_compressor)
   = (Returned found_hits,
      snd (search sound_world bacula 2 (rag_with first_compressor)))
   /\ found_hits <> []
   /\ use_compression (self (rag_with first_compressor)) = true
   /\ compressor (self (rag_with first_compressor)) = Some first_compressor
   /\ compress_documents first_compressor found_hits bacula
      = Fine (firstn 1 found_hits)
   /\ firstn 1 found_hits <> [])
  /\ ask sound_world bacula 2 (rag_with first_compressor)
     = (answer_from sound_world (self (rag_with first_compressor)) bacula
                    (firstn 1 found_hits),
        log (snd (search sound_world bacula 2 (rag_with first_compressor)))
            (Compress bacula
             :: shrink_notice (List.length found_hits)
                              (List.length (firstn 1 found_hits))
             ++ completion_events sound_world
                                  (self (rag_with first_compressor))
                                  bacula (firstn 1 found_hits))).
Proof.
  assert (H1 : search sound_world bacula 2 (rag_with first_compressor)
               = (Returned found_hits,
                  snd (search sound_world bacula 2
                              (rag_with first_compressor))))
    by (vm_compute; reflexivity).
  assert (H2 : found_hits <> []) by (vm_compute; discriminate).
  assert (H3 : use_compression (self (rag_with first_compressor)) = true)
    by reflexivity.
  assert (H4 : compressor (self (rag_with first_compressor))
               = Some first_compressor) by reflexivity.
  assert (H5 : compress_documents first_compressor found_hits bacula
               = Fine (firstn 1 found_hits)) by reflexivity.
  assert (H6 : firstn 1 found_hits <> []) by (vm_compute; discriminate).
  split; [repeat split; assumption|].
  exact (ask_uses_compressed_results
           sound_world (rag_with first_compressor)
           (snd (search sound_world bacula 2 (rag_with first_compressor)))
           bacula 2 found_hits (firstn 1 found_hits) first_compressor
           H1 H2 H3 H4 H5 H6).
Defined.

Example ask_with_first_compressor :
  match fst (ask sound_world bacula 2 (rag_with first_compressor)) with
  | Returned a => map src_title (sources a)
  | Raised _ => []
  end
  = ["Bacula"].
Proof. vm_compute. reflexivity. Qed.

(** What [ask] returns for the question. *)
Definition bacula_answer : Answer :=
  match fst (ask sound_world bacula 2 loaded_rag) with
  | Returned a => a
  | Raised _ => no_information
  end.

Lemma ask_sources_follow_results_witness :
  fst (ask sound_world bacula 2 loaded_rag) = Returned bacula_answer
  /\ sources bacula_answer
     = map (fun r => {| src_title := h_title r; src_url := h_source_url r;
                        relevance_score := h_score r |})
           (search_results bacula_answer)
  /\ (search_results bacula_answer = [] -> bacula_answer = no_information).
Proof.
  assert (H : fst (ask sound_world bacula 2 loaded_rag)
              = Returned bacula_answer) by (vm_compute; reflexivity).
  split; [exact H|].
  exact (ask_sources_follow_results sound_world loaded_rag bacula 2
                                    bacula_answer H).
Defined.

Lemma ask_errors_witness :
  fst (ask bare_world bacula 2 fresh_rag) = Raised NotLoaded
  /\ ((NotLoaded = NotLoaded /\ index_loaded (self fresh_rag) = false)
      \/ (fst (search bare_world bacula 2 fresh_rag) = Raised NotLoaded
          /\ exists what, NotLoaded = External what)
      \/ (NotLoaded = GenerationUnavailable (ollama_url (self fresh_rag))
          /\ ollama_alive bare_world = false)).
Proof.
  assert (H : fst (ask bare_world bacula 2 fresh_rag) = Raised NotLoaded)
    by (vm_compute; reflexivity).
  split; [exact H|].
  exact (ask_errors bare_world fresh_rag bacula 2 NotLoaded H).
Defined.

(** A generation that the server refuses: the index is loaded and the server
    is down. *)
Example ask_without_server :
  let down :=
    {| path_exists := path_exists sound_world;
       abspath := abspath sound_world;
       relpath_cwd := relpath_cwd sound_world;
       isdir := isdir sound_world;
       listdir := listdir sound_world;
       from_index := from_index sound_world;
       load_json := load_json sound_world;
       read_jsonl := read_jsonl sound_world;
       build_colbert := build_colbert sound_world;
       write_json := write_json sound_world;
       ollama_alive := false;
       ollama_generate := ollama_generate sound_world |} in
  fst (ask down bacula 2 loaded_rag)
  = Raised (GenerationUnavailable "http://localhost:11434").
Proof. vm_compute. reflexivity. Qed.

(** ** A session *)

Example session_keeps_object_sound :
  let s := after_calls store_world store_rag
                       [CallSearch bacula 2; CallLoadIndex true;
                        CallAsk bacula 2; CallBuildIndex "data.jsonl" true;
                        CallLoadIndex false] in
  index_paths (self s) = [docs_path; wiki_path]
  /\ map fst (shard_models (self s))
     = [docs_path; wiki_path; docs_path; wiki_path]
  /\ index_loaded (self s) = true.
Proof. vm_compute. repeat split. Qed.

End Instances.
